(** * Lowering of CMSIS-NN composite functions from Relay to TIR

    A shallow embedding of [src/relay/backend/contrib/cmsisnn/relay_to_tir.cc]:
    the class [RelayToTIRVisitor] with its helpers [ToArg],
    [CreatePrimFuncForExtern], [CMSISNNDimensions], the four emitters
    [EmitConv2D], [EmitSoftMax], [EmitMul], [EmitAdd] and the rewrite
    hook [Rewrite_].

    - C++ integers are [Z] with the two's complement wrap-around written
      out ([Int32], [Int64], [UInt64]);
    - [float] and [double] values are binary64 primitive floats (every
      [float] converts to [double] exactly);
    - a failed [ICHECK], a null [as<...>()] that is dereferenced, an
      [Optional::value()] on an empty optional and an out-of-range shift
      are the failure [None] of the pass monad [M];
    - the module being rewritten and the counter [context_buffer_id_]
      are the state threaded by [M]. *)

From Stdlib Require Import ZArith List String Ascii Bool Floats Lia.
From Stdlib Require Import DecimalString DecimalZ.
Import ListNotations.

#[local] Set Warnings "-register-all".

#[local] Open Scope string_scope.
#[local] Open Scope list_scope.
#[local] Open Scope Z_scope.

(* ================================================================== *)
(** ** Machine integers *)

(** [int32_t] / [int]: 32-bit two's complement. *)
Module Int32.
Definition modulus : Z := 2 ^ 32.
Definition min_signed : Z := - 2 ^ 31.
Definition max_signed : Z := 2 ^ 31 - 1.

(** Conversion of an integer to [int32_t] (keeps the low 32 bits). *)
Definition wrap (z : Z) : Z := (z + 2 ^ 31) mod modulus - 2 ^ 31.

Definition in_range (z : Z) : Prop := min_signed <= z <= max_signed.

Definition neg (a : Z) : Z := wrap (- a).
Definition sub (a b : Z) : Z := wrap (a - b).
Definition mul (a b : Z) : Z := wrap (a * b).

(** [a << n]; the shift counts of the source are literals in [0, 32). *)
Definition shl (a n : Z) : Z := wrap (Z.shiftl a n).

(** [a >> n], arithmetic; a count outside [0, 32) is undefined in C++.
    The source does not check the count: [None] stands for the
    undefined behaviour, not for a fatal error of the pass. *)
Definition shr (a n : Z) : option Z :=
  if (0 <=? n) && (n <? 32) then Some (Z.shiftr a n) else None.
End Int32.

(** [int64_t]: what [qnn::get_const_int] returns. *)
Module Int64.
Definition modulus : Z := 2 ^ 64.
Definition wrap (z : Z) : Z := (z + 2 ^ 63) mod modulus - 2 ^ 63.
Definition mul (a b : Z) : Z := wrap (a * b).
End Int64.

(** [size_t] on the 64-bit hosts the compiler runs on. *)
Module UInt64.
Definition modulus : Z := 2 ^ 64.
Definition wrap (z : Z) : Z := z mod modulus.
End UInt64.

(** [std::numeric_limits<int8_t>::min()] and [max()]. *)
Definition int8_min : Z := -128.
Definition int8_max : Z := 127.

(** [std::to_string] on an [int]. *)
Definition to_string (z : Z) : string := NilZero.string_of_int (Z.to_int z).

(** Conversion of a non-negative integer constant to [double]. *)
Definition double_of_int (z : Z) : float := PrimFloat.of_uint63 (Uint63.of_Z z).

(** [std::min<double>(a, b)] is [(b < a) ? b : a]. *)
Definition std_min (a b : float) : float := if PrimFloat.ltb b a then b else a.

(** [std::max(a, b)] is [(a < b) ? b : a]. *)
Definition std_max (a b : float) : float := if PrimFloat.ltb a b then b else a.

(** [Array::operator[]]: the index is checked. *)
Definition at_ {A : Type} (l : list A) (i : nat) : option A := nth_error l i.

(** Product of a list of integers. *)
Definition product (l : list Z) : Z := fold_right Z.mul 1 l.

(* ================================================================== *)
(** ** TIR: the output language *)

Module tir.

Inductive DataType : Type :=
| Int (bits : Z)
| Bool
| Handle (bits : Z).

(** The type a variable is declared with: [Var(name, DataType)] or
    [Var(name, PointerType(PrimType(dtype), storage_scope))]. *)
Inductive VarType : Type :=
| PrimType (dtype : DataType)
| PointerType (element_type : DataType) (storage_scope : string).

Record Var : Type := mkVar { name_hint : string; type_annotation : VarType }.

Inductive PrimExpr : Type :=
| IntImm (dtype : DataType) (value : Z)
| StringImm (value : string)
| VarRef (v : Var)
| Mul (a b : PrimExpr)
| Call (dtype : DataType) (op : string) (args : list PrimExpr).

Inductive Stmt : Type :=
| Evaluate (value : PrimExpr)
| Allocate (buffer_var : Var) (dtype : DataType) (extents : list PrimExpr)
           (condition : PrimExpr) (body : Stmt)
| AttrStmt (node : option PrimExpr) (attr_key : string) (value : PrimExpr)
           (body : Stmt).

(** [Target]: its kind's name and device type. *)
Record Target : Type := mkTarget { kind_name : string; device_type : Z }.

(** The three entries [CreatePrimFuncForExtern] puts into [dict_attrs]. *)
Record DictAttrs : Type := mkDictAttrs
  { global_symbol : string; target : Target; noalias : bool }.

(** [PrimFunc(params, body, VoidType(), {}, attrs)]: the return type
    and the buffer map are always the same and left out. *)
Record PrimFunc : Type := mkPrimFunc
  { params : list Var; body : Stmt; attrs : DictAttrs }.

(** [tir::builtin::call_extern()]. *)
Definition call_extern : string := "tir.call_extern".
(** [tir::const_true()]. *)
Definition const_true : PrimExpr := IntImm Bool 1.
(** [tir::attr::device_type] and [tir::attr::device_id]. *)
Definition attr_device_type : string := "device_type".
Definition attr_device_id : string := "device_id".

(** The argument lists of the [call_extern] calls of an expression. *)
Fixpoint extern_calls (e : PrimExpr) : list (list PrimExpr) :=
  match e with
  | Call _ op args =>
      (if String.eqb op call_extern then [args] else [])
        ++ flat_map extern_calls args
  | Mul a b => extern_calls a ++ extern_calls b
  | _ => []
  end.

(** The external calls of a statement, the buffers it allocates (with
    the element type and the extents) and its attribute keys. *)
Fixpoint stmt_extern_calls (s : Stmt) : list (list PrimExpr) :=
  match s with
  | Evaluate v => extern_calls v
  | Allocate _ _ extents cond b =>
      flat_map extern_calls extents ++ extern_calls cond ++ stmt_extern_calls b
  | AttrStmt _ _ v b => extern_calls v ++ stmt_extern_calls b
  end.

Fixpoint allocations (s : Stmt) : list (Var * DataType * list PrimExpr) :=
  match s with
  | Evaluate _ => []
  | Allocate v t extents _ b => (v, t, extents) :: allocations b
  | AttrStmt _ _ _ b => allocations b
  end.

(** The variables among a list of arguments, in order. *)
Definition handles (args : list PrimExpr) : list Var :=
  flat_map (fun a => match a with VarRef v => [v] | _ => [] end) args.


End tir.

Coercion tir.VarRef : tir.Var >-> tir.PrimExpr.

(* ================================================================== *)
(** ** Relay: the input language *)

Module relay.

Inductive Ty : Type :=
| TensorType (shape : list tir.PrimExpr) (dtype : string)
| FuncType (arg_types : list Ty) (ret_type : Ty).

Record Span : Type := mkSpan { source_name : string; line : Z; column : Z }.

(** The data of a constant: a scalar [int32], a scalar [float] (held
    as the [double] it converts to) or a tensor of some shape. *)
Inductive NDArray : Type :=
| ScalarInt32 (v : Z)
| ScalarFloat32 (v : float)
| TensorData (shape : list Z).

(** Call attributes. Modelled from the spec: [Conv2DAttrs] and
    [ClipAttrs] are declared in the attrs headers, which are not
    under src/; of the former the source reads [strides], [padding]
    and [dilation], arrays of index expressions; of the latter the
    clamp bounds [a_min] and [a_max], static attributes such as
    [(0, 6)] that the source stores into [int32_t] variables. *)
Inductive Attrs : Type :=
| NullAttrs
| Conv2DAttrs (strides padding dilation : list tir.PrimExpr)
| ClipAttrs (a_min a_max : Z)
| OtherAttrs (type_key : string).

(** The attributes of a function that the pass reads by
    [GetAttr<String>]: [attr::kCompiler], [attr::kComposite] and
    [tvm::attr::kGlobalSymbol]. *)
Record FuncAttrs : Type := mkFuncAttrs
  { Compiler : option string;
    Composite : option string;
    global_symbol : option string }.

(** [GlobalVar(name_hint)] with its [checked_type_]. *)
Record GlobalVarNode : Type := mkGlobalVar
  { name_hint : string; checked_type_ : option Ty }.

Inductive Expr : Type :=
| Var (name : string) (type_annotation : Ty)
| Constant (data : NDArray) (const_checked_type : option Ty)
| Op (name : string)
| GlobalVar (g : GlobalVarNode)
| Call (op : Expr) (args : list Expr) (attrs : Attrs) (type_args : list Ty)
       (span : option Span) (call_checked_type : option Ty)
| Function (params : list Expr) (body : Expr) (ret_type : option Ty)
           (type_params : list Ty) (attrs : FuncAttrs) (span : option Span)
           (func_checked_type : option Ty).

(** The nodes the pass looks into, as [as<CallNode>()],
    [as<OpNode>()] and [as<FunctionNode>()] give them. *)
Record CallNode : Type := mkCallNode
  { op : Expr; args : list Expr; attrs : Attrs; type_args : list Ty;
    span : option Span; call_type : option Ty }.

Record FunctionNode : Type := mkFunctionNode
  { body : Expr; func_attrs : FuncAttrs; func_type : option Ty }.

Definition as_CallNode (e : Expr) : option CallNode :=
  match e with
  | Call o a at_ ta sp ty => Some (mkCallNode o a at_ ta sp ty)
  | _ => None
  end.

Definition as_OpNode (e : Expr) : option string :=
  match e with
  | Op name => Some name
  | _ => None
  end.

Definition as_FunctionNode (e : Expr) : option FunctionNode :=
  match e with
  | Function _ b _ _ at_ _ ty => Some (mkFunctionNode b at_ ty)
  | _ => None
  end.

Definition as_Conv2DAttrs (a : Attrs)
  : option (list tir.PrimExpr * list tir.PrimExpr * list tir.PrimExpr) :=
  match a with
  | Conv2DAttrs s p d => Some (s, p, d)
  | _ => None
  end.

Definition as_ClipAttrs (a : Attrs) : option (Z * Z) :=
  match a with
  | ClipAttrs lo hi => Some (lo, hi)
  | _ => None
  end.

(** The checked type of an expression, where it has one. *)
Definition checked_type (e : Expr) : option Ty :=
  match e with
  | Var _ t => Some t
  | Constant _ t => t
  | Op _ => None
  | GlobalVar g => checked_type_ g
  | Call _ _ _ _ _ t => t
  | Function _ _ _ _ _ _ t => t
  end.

(** [e->type_as<TensorTypeNode>()->shape]: fails unless the checked
    type is a tensor type. *)
Definition shape_of_type (t : option Ty) : option (list tir.PrimExpr) :=
  match t with
  | Some (TensorType shape _) => Some shape
  | _ => None
  end.

End relay.

(** The functions of a module: Relay functions and emitted units. *)
Inductive BaseFunc : Type :=
| RelayFunc (f : relay.Expr)
| PrimFunc (f : tir.PrimFunc).

(** [IRModule]: the functions in the order they were added, each under
    the name of its global variable. *)
Definition IRModule : Type := list (string * BaseFunc).

(** Modelled from the spec: [IRModule::Add] (not under src/) registers
    the new callable unit in the program-wide symbol table under the
    caller-supplied global name. *)
Definition IRModule_Add (m : IRModule) (name : string) (f : BaseFunc) : IRModule :=
  m ++ [(name, f)].

(** Modelled from the spec: [qnn::get_const_int] (qnn/utils.h, not
    under src/) evaluates an index expression as a compile-time integer
    and is a fatal error on anything else. *)
Definition get_const_int (e : tir.PrimExpr) : option Z :=
  match e with
  | tir.IntImm _ v => Some v
  | _ => None
  end.

(** [e.as<tir::IntImmNode>()->value]. *)
Definition as_IntImm_value (e : tir.PrimExpr) : option Z :=
  match e with
  | tir.IntImm _ v => Some v
  | _ => None
  end.

(** Modelled from the spec: [GetScalarFromConstant<T>]
    (transforms/pattern_utils.h, not under src/) evaluates an operand as
    a compile-time scalar of type [T] and signals a fatal error if the
    operand is not a compile-time constant. What it returns for a
    scalar constant of another type than [T] the spec does not say:
    [None] there stands for a value that is not modelled, not for a
    fatal error. *)
Definition GetScalarFromConstant_int32 (e : relay.Expr) : option Z :=
  match e with
  | relay.Constant (relay.ScalarInt32 v) _ => Some (Int32.wrap v)
  | _ => None
  end.

Definition GetScalarFromConstant_float (e : relay.Expr) : option float :=
  match e with
  | relay.Constant (relay.ScalarFloat32 v) _ => Some v
  | _ => None
  end.

(** Modelled from the spec: [TensorTypeNode::Size] (not under src/) is
    the total element count, the product of all shape dimensions; a
    product of integer immediates is an integer immediate. *)
Definition mul_expr (a b : tir.PrimExpr) : tir.PrimExpr :=
  match a, b with
  | tir.IntImm t x, tir.IntImm _ y => tir.IntImm t (x * y)
  | _, _ => tir.Mul a b
  end.

Definition TensorType_Size (shape : list tir.PrimExpr) : tir.PrimExpr :=
  match shape with
  | [] => tir.IntImm (tir.Int 64) 1
  | d :: rest => fold_left mul_expr rest d
  end.

(** Modelled from the spec: the multiplier/shift routine
    [qnn::GetFixedPointMultiplierShift] (qnn/utils, not under src/).
    [value == 0] yields [(0, 0)]; otherwise the value is normalised to
    a fraction of magnitude in [0.5, 1) and an exponent, the multiplier
    is the fraction in Q31, rounded to nearest, and a multiplier that
    would reach [2^31] is clamped to [2^31 - 1]. *)
Definition FixedPointMultiplierShift (value : float) : Z * Z :=
  if PrimFloat.eqb value 0 then (0, 0)
  else
    let (fraction, exponent) := Z.frexp value in
    let mantissa := Uint63.to_Z (PrimFloat.normfr_mantissa fraction) in
    let q31 := (mantissa + 2 ^ 21) / 2 ^ 22 in
    let q31 := if q31 =? 2 ^ 31 then 2 ^ 31 - 1 else q31 in
    (if PrimFloat.ltb fraction 0 then - q31 else q31, exponent).

(* ================================================================== *)
(** ** The pass monad *)

(** The mutable members of [RelayToTIRVisitor]. *)
Record PassState : Type := mkPassState
  { ir_module_ : IRModule; context_buffer_id_ : Z }.

(** A computation of the pass: it fails ([None]) or returns a value
    and the next state. *)
Definition M (A : Type) : Type := PassState -> option (A * PassState).

Definition ret {A : Type} (a : A) : M A := fun s => Some (a, s).

Definition fail {A : Type} : M A := fun _ => None.

Definition bind {A B : Type} (c : M A) (k : A -> M B) : M B :=
  fun s => match c s with
           | Some (a, s') => k a s'
           | None => None
           end.

(** A pointer that is dereferenced, a checked index, a checked constant. *)
Definition deref {A : Type} (o : option A) : M A :=
  match o with
  | Some a => ret a
  | None => fail
  end.

Definition obind {A B : Type} (o : option A) (k : A -> option B) : option B :=
  match o with
  | Some a => k a
  | None => None
  end.

Declare Scope pass_scope.
Delimit Scope pass_scope with pass.

Notation "x <- c ;; k" := (bind c (fun x => k))
  (at level 61, c at next level, right associativity) : pass_scope.
Notation "' p <- c ;; k" := (bind c (fun x => match x with p => k end))
  (at level 61, p pattern, c at next level, right associativity) : pass_scope.
Notation "c ;;; k" := (bind c (fun _ => k))
  (at level 61, right associativity) : pass_scope.

#[local] Open Scope pass_scope.

(** [for (const auto& x : l) out.push_back(f(x))]. *)
Fixpoint mapM {A B : Type} (f : A -> M B) (l : list A) : M (list B) :=
  match l with
  | [] => ret []
  | x :: rest => y <- f x ;; ys <- mapM f rest ;; ret (y :: ys)
  end.

(** [context_buffer_id_++]. *)
Definition next_context_buffer_id : M Z :=
  fun s => Some (context_buffer_id_ s,
                 mkPassState (ir_module_ s) (Int32.wrap (context_buffer_id_ s + 1))).

(** [ir_module_->Add(global_var, func)]. *)
Definition ir_module_Add (global_var : relay.GlobalVarNode) (f : tir.PrimFunc) : M unit :=
  fun s => Some (tt, mkPassState
                       (IRModule_Add (ir_module_ s) (relay.name_hint global_var) (PrimFunc f))
                       (context_buffer_id_ s)).

(* ================================================================== *)
(** ** class RelayToTIRVisitor *)

Section RelayToTIRVisitor.

(** The member [target_]. *)
Variable target_ : tir.Target.

(** [tvm::relay::qnn::GetFixedPointMultiplierShift], defined outside
    this file: every statement below holds for any such routine. *)
Variable GetFixedPointMultiplierShift : float -> Z * Z.

Definition kScaledDiffIntegerBits : Z := 5.
Definition kInputBits : Z := 5.
Definition kBeta : float := 1%float.

(** [IntImm(DataType::Int(32), value)]; the parameter is an
    [int32_t], to which every argument is converted. *)
Definition ToArg (value : Z) : tir.PrimExpr :=
  tir.IntImm (tir.Int 32) (Int32.wrap value).

Definition CreatePrimFuncForExtern (global_var : relay.GlobalVarNode)
    (func_signature : list tir.Var) (call_extern_args : list tir.PrimExpr)
    (context_buffer_name : string) (context_buffer_size : Z) : M unit :=
  let dict_attrs := tir.mkDictAttrs (relay.name_hint global_var) target_ true in
  let body := tir.Evaluate (tir.Call (tir.Int 8) tir.call_extern call_extern_args) in
  let body :=
    if context_buffer_size =? 0 then body
    else
      let buffer_var :=
        tir.mkVar context_buffer_name
                  (tir.PointerType (tir.Int 8) "global.workspace") in
      let body :=
        tir.Allocate buffer_var (tir.Int 8)
                     [tir.IntImm (tir.Int 32) context_buffer_size]
                     tir.const_true body in
      let body :=
        tir.AttrStmt None tir.attr_device_type
                     (tir.IntImm (tir.Int 32) (tir.device_type target_)) body in
      tir.AttrStmt None tir.attr_device_id (tir.IntImm (tir.Int 32) 0) body in
  let replacement_func := tir.mkPrimFunc func_signature body dict_attrs in
  ir_module_Add global_var replacement_func.

(** The defaults of the last two parameters. *)
Definition CreatePrimFuncForExtern_default (global_var : relay.GlobalVarNode)
    (func_signature : list tir.Var) (call_extern_args : list tir.PrimExpr) : M unit :=
  CreatePrimFuncForExtern global_var func_signature call_extern_args "NULL" 0.

Definition CMSISNNDimensions (shape : list tir.PrimExpr) : option (list tir.PrimExpr) :=
  if (List.length shape =? 4)%nat then
    obind (obind (at_ shape 0) get_const_int) (fun d0 =>
    obind (obind (at_ shape 1) get_const_int) (fun d1 =>
    obind (obind (at_ shape 2) get_const_int) (fun d2 =>
    obind (obind (at_ shape 3) get_const_int) (fun d3 =>
    Some [ToArg d0; ToArg d1; ToArg d2; ToArg d3]))))
  else None.

(** [call->args[i].as<CallNode>()]. *)
Definition arg_as_CallNode (call : relay.CallNode) (i : nat) : option relay.CallNode :=
  obind (at_ (relay.args call) i) relay.as_CallNode.

(** [qnn::get_const_int(a[i])] stored into an [int32_t]. *)
Definition const_int32_at (a : list tir.PrimExpr) (i : nat) : option Z :=
  obind (obind (at_ a i) get_const_int) (fun v => Some (Int32.wrap v)).

Definition EmitConv2D (global_var : relay.GlobalVarNode) (expr : relay.Expr) : M unit :=
  final_call <- deref (relay.as_CallNode expr) ;;
  final_op <- deref (relay.as_OpNode (relay.op final_call)) ;;
  '(clip_call, requantize_call) <-
    (if String.eqb final_op "clip" then
       requantize_call <- deref (arg_as_CallNode final_call 0) ;;
       ret (Some final_call, requantize_call)
     else ret (None, final_call)) ;;
  requantize_input <- deref (arg_as_CallNode requantize_call 0) ;;
  requantize_input_op <- deref (relay.as_OpNode (relay.op requantize_input)) ;;
  '(bias_add_call, conv2d_call) <-
    (if String.eqb requantize_input_op "nn.bias_add" then
       conv2d_call <- deref (arg_as_CallNode requantize_input 0) ;;
       ret (Some requantize_input, conv2d_call)
     else ret (None, requantize_input)) ;;

  let input := tir.mkVar "input" (tir.PrimType (tir.Handle 8)) in
  let filter := tir.mkVar "filter" (tir.PrimType (tir.Handle 8)) in
  let multiplier := tir.mkVar "multiplier" (tir.PrimType (tir.Handle 32)) in
  let filter_scale := tir.mkVar "filter_scale" (tir.PrimType (tir.Handle 32)) in
  let bias := tir.mkVar "bias" (tir.PrimType (tir.Handle 32)) in
  let input_scale := tir.mkVar "input_scale" (tir.PrimType (tir.Handle 32)) in
  let shift := tir.mkVar "shift" (tir.PrimType (tir.Handle 32)) in
  let output := tir.mkVar "output" (tir.PrimType (tir.Handle 8)) in

  (* prepare cmsis_nn_conv_params *)
  '(strides, padding, dilation) <-
    deref (relay.as_Conv2DAttrs (relay.attrs conv2d_call)) ;;
  input_zero_point <-
    deref (obind (at_ (relay.args conv2d_call) 2) GetScalarFromConstant_int32) ;;
  let input_offset := Int32.neg input_zero_point in
  output_offset <-
    deref (obind (at_ (relay.args requantize_call) 4) GetScalarFromConstant_int32) ;;
  stride_w <- deref (const_int32_at strides 1) ;;
  stride_h <- deref (const_int32_at strides 0) ;;
  padding_w <- deref (const_int32_at padding 1) ;;
  padding_h <- deref (const_int32_at padding 0) ;;
  dilation_w <- deref (const_int32_at dilation 1) ;;
  dilation_h <- deref (const_int32_at dilation 0) ;;
  '(clip_min, clip_max) <-
    match clip_call with
    | Some clip_call =>
        '(a_min, a_max) <- deref (relay.as_ClipAttrs (relay.attrs clip_call)) ;;
        ret (Int32.wrap a_min, Int32.wrap a_max)
    | None => ret (-128, 127)
    end ;;

  let call_ext_args : list tir.PrimExpr :=
    [tir.StringImm "arm_convolve_wrapper_s8"; tir.VarRef input; tir.VarRef filter;
     tir.VarRef multiplier] in
  let call_ext_args :=
    match bias_add_call with
    | Some _ => call_ext_args ++ [tir.VarRef bias]
    | None => call_ext_args
    end in
  let call_ext_args := call_ext_args ++ [tir.VarRef shift] in
  let call_ext_args := call_ext_args ++ [tir.VarRef output] in

  let scalar_args :=
    [ToArg input_offset; ToArg output_offset; ToArg stride_w; ToArg stride_h;
     ToArg padding_w; ToArg padding_h; ToArg dilation_w; ToArg dilation_h;
     ToArg clip_min; ToArg clip_max] in

  (* cmsis_nn_dims *input_dims (NHWC) *)
  input_shape <-
    deref (obind (at_ (relay.args conv2d_call) 0)
                 (fun e => relay.shape_of_type (relay.checked_type e))) ;;
  input_dims <- deref (CMSISNNDimensions input_shape) ;;

  (* cmsis_nn_dims *filter_dims (OHWI) *)
  filter_shape <-
    deref (obind (at_ (relay.args conv2d_call) 1)
                 (fun e => relay.shape_of_type (relay.checked_type e))) ;;
  filter_dims <- deref (CMSISNNDimensions filter_shape) ;;

  (* cmsis_nn_dims *bias_dims (1,1,1,output_channels) *)
  output_channels <- deref (at_ filter_shape 0) ;;
  let one := tir.IntImm (tir.Int 32) 1 in
  let bias_shape := [one; one; one; output_channels] in
  bias_dims <- deref (CMSISNNDimensions bias_shape) ;;

  (* cmsis_nn_dims *output_dims (NHWC) *)
  output_shape <- deref (relay.shape_of_type (relay.call_type conv2d_call)) ;;
  output_dims <- deref (CMSISNNDimensions output_shape) ;;

  input_channels <- deref (obind (at_ input_shape 3) get_const_int) ;;
  filter_w <- deref (obind (at_ filter_shape 2) get_const_int) ;;
  filter_h <- deref (obind (at_ filter_shape 1) get_const_int) ;;
  let context_buffer_size :=
    UInt64.wrap
      (Int64.mul (Int64.mul (Int64.mul (Int64.mul 2 input_channels) filter_w) filter_h) 2) in
  context_buffer_name <-
    (if context_buffer_size =? 0 then ret "NULL"
     else
       id <- next_context_buffer_id ;;
       ret (String.append "context_buffer_" (to_string id))) ;;
  let context_buffer_args :=
    [tir.StringImm context_buffer_name; ToArg context_buffer_size] in

  let scalar_args := context_buffer_args ++ scalar_args in
  let scalar_args := scalar_args ++ input_dims in
  let scalar_args := scalar_args ++ filter_dims in
  let scalar_args := scalar_args ++ bias_dims in
  let scalar_args := scalar_args ++ output_dims in
  let call_ext_args := call_ext_args ++ scalar_args in

  let func_signature := [input; filter; multiplier; filter_scale] in
  let func_signature :=
    match bias_add_call with
    | Some _ => func_signature ++ [bias]
    | None => func_signature
    end in
  let func_signature := func_signature ++ [input_scale] in
  let func_signature := func_signature ++ [shift] in
  let func_signature := func_signature ++ [output] in

  CreatePrimFuncForExtern global_var func_signature call_ext_args context_buffer_name
                          (Int32.wrap context_buffer_size).

(** The loop [for (i = 0; i < trailing_dim; ++i) num_rows *= shape[i]...]
    over the leading dimensions, [num_rows] being an [int]. *)
Fixpoint count_rows (dims : list tir.PrimExpr) (num_rows : Z) : option Z :=
  match dims with
  | [] => Some num_rows
  | d :: rest =>
      match as_IntImm_value d with
      | Some v => count_rows rest (Int32.mul num_rows v)
      | None => None
      end
  end.

(** The fixed-point parameters of the softmax kernel: multiplier,
    shift and [diff_min]. *)
Definition softmax_beta_multiplier (quant_scale : float) : float :=
  let beta_multiplier :=
    PrimFloat.mul (PrimFloat.mul kBeta quant_scale)
                  (double_of_int (Int32.shl 1 (31 - kInputBits))) in
  std_min beta_multiplier (PrimFloat.sub (double_of_int (Z.shiftl 1 31)) 1%float).

Definition softmax_diff_min (shift : Z) : option Z :=
  let diff_min := Int32.sub (Int32.shl 1 kScaledDiffIntegerBits) 1 in
  let diff_min := Int32.shl diff_min (31 - kScaledDiffIntegerBits) in
  obind (Int32.shr diff_min shift) (fun diff_min =>
  Some (Int32.mul diff_min (-1))).

Definition EmitSoftMax (global_var : relay.GlobalVarNode) (expr : relay.Expr) : M unit :=
  quantize_call <- deref (relay.as_CallNode expr) ;;
  softmax_call <- deref (arg_as_CallNode quantize_call 0) ;;
  dequant_call <- deref (arg_as_CallNode softmax_call 0) ;;
  quant_scale <-
    deref (obind (at_ (relay.args dequant_call) 1) GetScalarFromConstant_float) ;;

  (* assuming layout as NHWC *)
  shape <- deref (relay.shape_of_type (relay.call_type quantize_call)) ;;
  let trailing_dim := (List.length shape - 1)%nat in
  row_size <-
    deref (if (List.length shape =? 0)%nat then None
           else obind (at_ shape trailing_dim) as_IntImm_value) ;;
  let row_size := Int32.wrap row_size in
  num_rows <- deref (count_rows (firstn trailing_dim shape) 1) ;;

  (* calculate multiplier and shift for CMSIS-NN softmax API *)
  let beta_multiplier := softmax_beta_multiplier quant_scale in
  let mult_shift_pair := GetFixedPointMultiplierShift beta_multiplier in
  let mult := fst mult_shift_pair in
  let shift := snd mult_shift_pair in
  diff_min <- deref (softmax_diff_min shift) ;;

  let in_var := tir.mkVar "input" (tir.PrimType (tir.Handle 8)) in
  let out_var := tir.mkVar "output" (tir.PrimType (tir.Handle 8)) in

  let func_signature := [in_var; out_var] in

  let args : list tir.PrimExpr :=
    [tir.StringImm "arm_softmax_s8";
     tir.VarRef in_var;
     ToArg num_rows;
     ToArg row_size;
     ToArg mult;
     ToArg shift;
     ToArg diff_min;
     tir.VarRef out_var] in

  CreatePrimFuncForExtern_default global_var func_signature args.

(** [GetScalarFromConstant<T>(call->args[i])]. *)
Definition float_arg (call : relay.CallNode) (i : nat) : option float :=
  obind (at_ (relay.args call) i) GetScalarFromConstant_float.

Definition int32_arg (call : relay.CallNode) (i : nat) : option Z :=
  obind (at_ (relay.args call) i) GetScalarFromConstant_int32.

Definition EmitMul (global_var : relay.GlobalVarNode) (expr : relay.Expr) : M unit :=
  mul_call <- deref (relay.as_CallNode expr) ;;

  input_0_scale <- deref (float_arg mul_call 2) ;;
  input_0_zero_point <- deref (int32_arg mul_call 3) ;;
  input_1_scale <- deref (float_arg mul_call 4) ;;
  input_1_zero_point <- deref (int32_arg mul_call 5) ;;
  output_scale <- deref (float_arg mul_call 6) ;;
  output_zero_point <- deref (int32_arg mul_call 7) ;;

  let quantized_multiplier :=
    PrimFloat.div (PrimFloat.mul input_0_scale input_1_scale) output_scale in
  let mult_shift_pair := GetFixedPointMultiplierShift quantized_multiplier in
  let output_multiplier := fst mult_shift_pair in
  let output_shift := snd mult_shift_pair in

  shape <- deref (relay.shape_of_type (relay.call_type mul_call)) ;;
  let tensor_size := TensorType_Size shape in

  let input_0 := tir.mkVar "input_0" (tir.PrimType (tir.Handle 8)) in
  let input_1 := tir.mkVar "input_1" (tir.PrimType (tir.Handle 8)) in
  let output := tir.mkVar "output" (tir.PrimType (tir.Handle 8)) in

  let func_signature := [input_0; input_1; output] in

  let args : list tir.PrimExpr :=
    [tir.StringImm "arm_elementwise_mul_s8";
     tir.VarRef input_0;
     tir.VarRef input_1;
     ToArg (Int32.neg input_0_zero_point);
     ToArg (Int32.neg input_1_zero_point);
     tir.VarRef output;
     ToArg output_zero_point;
     ToArg output_multiplier;
     ToArg output_shift;
     ToArg int8_min;
     ToArg int8_max;
     tensor_size] in

  CreatePrimFuncForExtern_default global_var func_signature args.

Definition EmitAdd (global_var : relay.GlobalVarNode) (expr : relay.Expr) : M unit :=
  add_call <- deref (relay.as_CallNode expr) ;;

  input_0_scale <- deref (float_arg add_call 2) ;;
  input_0_zero_point <- deref (int32_arg add_call 3) ;;
  input_1_scale <- deref (float_arg add_call 4) ;;
  input_1_zero_point <- deref (int32_arg add_call 5) ;;
  output_scale <- deref (float_arg add_call 6) ;;
  output_zero_point <- deref (int32_arg add_call 7) ;;

  let left_shift := 20 in
  let input_0_offset := Int32.neg input_0_zero_point in
  let input_1_offset := Int32.neg input_1_zero_point in

  let max_input_scale := std_max input_0_scale input_1_scale in
  let twice_max_input_scale := PrimFloat.mul 2%float max_input_scale in
  let scaled_input_0_scale := PrimFloat.div input_0_scale twice_max_input_scale in
  let scaled_input_1_scale := PrimFloat.div input_1_scale twice_max_input_scale in
  let scaled_output_scale :=
    PrimFloat.div twice_max_input_scale
                  (PrimFloat.mul (double_of_int (Int32.shl 1 left_shift)) output_scale) in

  let input_0_mult_shift_pair := GetFixedPointMultiplierShift scaled_input_0_scale in
  let input_0_multiplier := fst input_0_mult_shift_pair in
  let input_0_shift := snd input_0_mult_shift_pair in

  let input_1_mult_shift_pair := GetFixedPointMultiplierShift scaled_input_1_scale in
  let input_1_multiplier := fst input_1_mult_shift_pair in
  let input_1_shift := snd input_1_mult_shift_pair in

  let output_mult_shift_pair := GetFixedPointMultiplierShift scaled_output_scale in
  let output_multiplier := fst output_mult_shift_pair in
  let output_shift := snd output_mult_shift_pair in

  shape <- deref (relay.shape_of_type (relay.call_type add_call)) ;;
  let tensor_size := TensorType_Size shape in

  let input_0 := tir.mkVar "input_0" (tir.PrimType (tir.Handle 8)) in
  let input_1 := tir.mkVar "input_1" (tir.PrimType (tir.Handle 8)) in
  let output := tir.mkVar "output" (tir.PrimType (tir.Handle 8)) in

  let func_signature := [input_0; input_1; output] in

  let args : list tir.PrimExpr :=
    [tir.StringImm "arm_elementwise_add_s8";
     tir.VarRef input_0;
     tir.VarRef input_1;
     ToArg input_0_offset;
     ToArg input_0_multiplier;
     ToArg input_0_shift;
     ToArg input_1_offset;
     ToArg input_1_multiplier;
     ToArg input_1_shift;
     ToArg left_shift;
     tir.VarRef output;
     ToArg output_zero_point;
     ToArg output_multiplier;
     ToArg output_shift;
     ToArg int8_min;
     ToArg int8_max;
     tensor_size] in

  CreatePrimFuncForExtern_default global_var func_signature args.

(** [comp_name == name] on an [Optional<String>]. *)
Definition optional_eqb (o : option string) (name : string) : bool :=
  match o with
  | Some n => String.eqb n name
  | None => false
  end.

(** [if (c) { body }]. *)
Definition when (c : bool) (body : M unit) : M unit :=
  if c then body else ret tt.

(** The four consecutive [if (comp_name == ...)] statements of
    [Rewrite_]. *)
Definition EmitComposite (comp_name : option string)
    (new_global_var : relay.GlobalVarNode) (body : relay.Expr) : M unit :=
  when (optional_eqb comp_name "cmsis-nn.qnn_softmax") (EmitSoftMax new_global_var body) ;;;
  when (optional_eqb comp_name "cmsis-nn.qnn_mul") (EmitMul new_global_var body) ;;;
  when (optional_eqb comp_name "cmsis-nn.qnn_add") (EmitAdd new_global_var body) ;;;
  when (optional_eqb comp_name "cmsis-nn.qnn_conv2d") (EmitConv2D new_global_var body).

(** [Rewrite_(pre, post)]; [VisitExpr] is inherited from
    [MixedModeMutator] and is a parameter here. *)
Definition Rewrite_ (VisitExpr : relay.Expr -> M relay.Expr)
    (pre : relay.CallNode) (post : relay.Expr) : M relay.Expr :=
  match relay.as_CallNode post with
  | Some call =>
      match relay.as_FunctionNode (relay.op call) with
      | None => ret post
      | Some func =>
          let codegen_name := relay.Compiler (relay.func_attrs func) in
          if optional_eqb codegen_name "cmsis-nn" then
            inner_call <- deref (relay.as_CallNode (relay.body func)) ;;
            composite_func <- deref (relay.as_FunctionNode (relay.op inner_call)) ;;
            let comp_name := relay.Composite (relay.func_attrs composite_func) in
            func_name <- deref (relay.global_symbol (relay.func_attrs func)) ;;

            (* composite_func->checked_type() checks that the type is set *)
            composite_type <- deref (relay.func_type composite_func) ;;
            let new_global_var := relay.mkGlobalVar func_name (Some composite_type) in

            EmitComposite comp_name new_global_var (relay.body composite_func) ;;;

            args <- mapM VisitExpr (relay.args call) ;;

            ret (relay.Call (relay.GlobalVar new_global_var) args (relay.attrs call)
                            (relay.type_args call) (relay.span call) None)
          else ret post
      end
  | None => ret post
  end.

End RelayToTIRVisitor.

(** Modelled from the spec: the traversal [VisitExpr] of
    [MixedModeMutator] (expr_functor, not under src/): a single
    post-order pass in which the operands of a call are rewritten before
    the enclosing call is handed to [Rewrite_]. [fuel] bounds the depth
    of the visit. *)
Fixpoint VisitExpr (target_ : tir.Target) (GetFixedPointMultiplierShift : float -> Z * Z)
    (fuel : nat) (e : relay.Expr) : M relay.Expr :=
  match fuel with
  | O => fail
  | S fuel =>
      let visit := VisitExpr target_ GetFixedPointMultiplierShift fuel in
      match e with
      | relay.Call op args attrs type_args span ty =>
          op' <- visit op ;;
          args' <- mapM visit args ;;
          Rewrite_ target_ GetFixedPointMultiplierShift visit
                   (relay.mkCallNode op args attrs type_args span ty)
                   (relay.Call op' args' attrs type_args span ty)
      | relay.Function params body ret_type type_params attrs span ty =>
          body' <- visit body ;;
          ret (relay.Function params body' ret_type type_params attrs span ty)
      | _ => ret e
      end
  end.

(* ================================================================== *)
(** ** The composite functions the partitioner produces *)

(** Scalar constants, with their types. *)
Definition const_int32 (v : Z) : relay.Expr :=
  relay.Constant (relay.ScalarInt32 v) (Some (relay.TensorType [] "int32")).

Definition const_float (v : float) : relay.Expr :=
  relay.Constant (relay.ScalarFloat32 v) (Some (relay.TensorType [] "float32")).

(** A static tensor type: every dimension an integer immediate. *)
Definition static_shape (index_type : tir.DataType) (dims : list Z) : list tir.PrimExpr :=
  map (tir.IntImm index_type) dims.

Definition tensor (index_type : tir.DataType) (dims : list Z) (dtype : string) : relay.Ty :=
  relay.TensorType (static_shape index_type dims) dtype.

(** A rank-4 shape. *)
Record Dims4 : Type := mkDims4 { dim0 : Z; dim1 : Z; dim2 : Z; dim3 : Z }.

Definition dims4 (d : Dims4) : list Z := [dim0 d; dim1 d; dim2 d; dim3 d].

(** What a convolution composite is made of: the optional clamp with
    its bounds, the optional bias, the scalar constants and the static
    shapes (input NHWC, filter OHWI, output NHWC). *)
Record Conv2DPattern : Type := mkConv2DPattern
  { conv_clip : option (Z * Z);
    conv_bias : bool;
    conv_input_zero_point : Z;
    conv_output_zero_point : Z;
    conv_input_scale : float;
    conv_output_scale : float;
    conv_strides : Z * Z;
    conv_padding : Z * Z;
    conv_padding_rest : list Z;
    conv_dilation : Z * Z;
    conv_index_type : tir.DataType;
    conv_input_shape : Dims4;
    conv_filter_shape : Dims4;
    conv_output_shape : Dims4 }.

(** The chain [clip(requantize(bias_add(conv2d(...))))] with the clip
    and the bias_add present or not, as in the comment of [EmitConv2D]. *)
Definition conv2d_node (p : Conv2DPattern) : relay.Expr :=
  let t := conv_index_type p in
  relay.Call (relay.Op "qnn.conv2d")
    [relay.Var "input" (tensor t (dims4 (conv_input_shape p)) "int8");
     relay.Var "weight_const_0" (tensor t (dims4 (conv_filter_shape p)) "int8");
     const_int32 (conv_input_zero_point p);
     relay.Var "cmsisnn_multiplier_const_1" (tensor t [dim0 (conv_filter_shape p)] "int32");
     const_float (conv_input_scale p);
     relay.Var "weight_scale_const_2" (tensor t [dim0 (conv_filter_shape p)] "float32")]
    (relay.Conv2DAttrs
       (static_shape t [fst (conv_strides p); snd (conv_strides p)])
       (static_shape t (fst (conv_padding p) :: snd (conv_padding p) :: conv_padding_rest p))
       (static_shape t [fst (conv_dilation p); snd (conv_dilation p)]))
    [] None (Some (tensor t (dims4 (conv_output_shape p)) "int32")).

Definition bias_add_node (p : Conv2DPattern) (x : relay.Expr) : relay.Expr :=
  let t := conv_index_type p in
  relay.Call (relay.Op "nn.bias_add")
    [x; relay.Var "bias_const_3" (tensor t [dim0 (conv_filter_shape p)] "int32")]
    (relay.OtherAttrs "relay.attrs.BiasAddAttrs")
    [] None (Some (tensor t (dims4 (conv_output_shape p)) "int32")).

Definition requantize_node (p : Conv2DPattern) (x : relay.Expr) : relay.Expr :=
  let t := conv_index_type p in
  relay.Call (relay.Op "qnn.requantize")
    [x;
     relay.Var "input_scale_const_4" (tensor t [dim0 (conv_filter_shape p)] "float32");
     relay.Var "cmsisnn_shift_const_5" (tensor t [dim0 (conv_filter_shape p)] "int32");
     const_float (conv_output_scale p);
     const_int32 (conv_output_zero_point p)]
    (relay.OtherAttrs "relay.attrs.RequantizeAttrs")
    [] None (Some (tensor t (dims4 (conv_output_shape p)) "int8")).

Definition clip_node (p : Conv2DPattern) (bounds : Z * Z) (x : relay.Expr) : relay.Expr :=
  relay.Call (relay.Op "clip") [x] (relay.ClipAttrs (fst bounds) (snd bounds))
    [] None (Some (tensor (conv_index_type p) (dims4 (conv_output_shape p)) "int8")).

Definition conv2d_pattern (p : Conv2DPattern) : relay.Expr :=
  let conv := conv2d_node p in
  let biased := if conv_bias p then bias_add_node p conv else conv in
  let requantized := requantize_node p biased in
  match conv_clip p with
  | Some bounds => clip_node p bounds requantized
  | None => requantized
  end.

(** The chain [quantize(softmax(dequantize(x, scale, zero_point)))]
    over a tensor whose shape is [leading ++ [row]]. *)
Record SoftmaxPattern : Type := mkSoftmaxPattern
  { softmax_scale : float;
    softmax_zero_point : Z;
    softmax_output_scale : float;
    softmax_output_zero_point : Z;
    softmax_index_type : tir.DataType;
    softmax_leading : list Z;
    softmax_row : Z }.

Definition softmax_shape (p : SoftmaxPattern) : list Z :=
  softmax_leading p ++ [softmax_row p].

Definition softmax_pattern (p : SoftmaxPattern) : relay.Expr :=
  let t := softmax_index_type p in
  let dequantize :=
    relay.Call (relay.Op "qnn.dequantize")
      [relay.Var "x" (tensor t (softmax_shape p) "int8");
       const_float (softmax_scale p);
       const_int32 (softmax_zero_point p)]
      (relay.OtherAttrs "relay.attrs.DequantizeAttrs")
      [] None (Some (tensor t (softmax_shape p) "float32")) in
  let softmax :=
    relay.Call (relay.Op "nn.softmax") [dequantize]
      (relay.OtherAttrs "relay.attrs.SoftmaxAttrs")
      [] None (Some (tensor t (softmax_shape p) "float32")) in
  relay.Call (relay.Op "qnn.quantize")
    [softmax;
     const_float (softmax_output_scale p);
     const_int32 (softmax_output_zero_point p)]
    (relay.OtherAttrs "relay.attrs.QuantizeAttrs")
    [] None (Some (tensor t (softmax_shape p) "int8")).

(** A quantized binary node ([qnn.mul] or [qnn.add]) with its eight
    operands: two tensors and a scale and zero point for each input and
    for the output. *)
Record BinaryPattern : Type := mkBinaryPattern
  { input_0_scale : float;
    input_0_zero_point : Z;
    input_1_scale : float;
    input_1_zero_point : Z;
    output_scale : float;
    output_zero_point : Z;
    binary_index_type : tir.DataType;
    binary_shape : list Z }.

Definition binary_pattern (op_name : string) (p : BinaryPattern) : relay.Expr :=
  let t := binary_index_type p in
  relay.Call (relay.Op op_name)
    [relay.Var "input_0" (tensor t (binary_shape p) "int8");
     relay.Var "input_1" (tensor t (binary_shape p) "int8");
     const_float (input_0_scale p);
     const_int32 (input_0_zero_point p);
     const_float (input_1_scale p);
     const_int32 (input_1_zero_point p);
     const_float (output_scale p);
     const_int32 (output_zero_point p)]
    relay.NullAttrs [] None (Some (tensor t (binary_shape p) "int8")).

(** A call to a partitioned function: the callee carries the
    [Compiler] and [global_symbol] attributes and its body is a call to
    the composite function, which carries the [Composite] attribute. *)
Definition composite_function (comp_name : option string) (params : list relay.Expr)
    (body : relay.Expr) (ty : option relay.Ty) : relay.Expr :=
  relay.Function params body None [] (relay.mkFuncAttrs None comp_name None) None ty.

Definition partitioned_function (compiler symbol : option string)
    (params : list relay.Expr) (composite : relay.Expr) : relay.Expr :=
  relay.Function params
    (relay.Call composite params relay.NullAttrs [] None None)
    None [] (relay.mkFuncAttrs compiler None symbol) None None.

(* ================================================================== *)
(** ** The emitted units *)

(** The handles of the convolution kernel. *)
Definition conv_input : tir.Var := tir.mkVar "input" (tir.PrimType (tir.Handle 8)).
Definition conv_filter : tir.Var := tir.mkVar "filter" (tir.PrimType (tir.Handle 8)).
Definition conv_multiplier : tir.Var := tir.mkVar "multiplier" (tir.PrimType (tir.Handle 32)).
Definition conv_filter_scale : tir.Var := tir.mkVar "filter_scale" (tir.PrimType (tir.Handle 32)).
Definition conv_bias_var : tir.Var := tir.mkVar "bias" (tir.PrimType (tir.Handle 32)).
Definition conv_input_scale_var : tir.Var := tir.mkVar "input_scale" (tir.PrimType (tir.Handle 32)).
Definition conv_shift : tir.Var := tir.mkVar "shift" (tir.PrimType (tir.Handle 32)).
Definition conv_output : tir.Var := tir.mkVar "output" (tir.PrimType (tir.Handle 8)).

(** The handles of the softmax and of the elementwise kernels. *)
Definition softmax_in_var : tir.Var := tir.mkVar "input" (tir.PrimType (tir.Handle 8)).
Definition softmax_out_var : tir.Var := tir.mkVar "output" (tir.PrimType (tir.Handle 8)).
Definition binary_input_0 : tir.Var := tir.mkVar "input_0" (tir.PrimType (tir.Handle 8)).
Definition binary_input_1 : tir.Var := tir.mkVar "input_1" (tir.PrimType (tir.Handle 8)).
Definition binary_output : tir.Var := tir.mkVar "output" (tir.PrimType (tir.Handle 8)).

(** The body of a unit: the external call alone, or the call under
    the allocation of its scratch buffer. *)
Definition extern_call (args : list tir.PrimExpr) : tir.Stmt :=
  tir.Evaluate (tir.Call (tir.Int 8) tir.call_extern args).

Definition with_scratch (target_ : tir.Target) (name : string) (size : Z) (body : tir.Stmt)
  : tir.Stmt :=
  tir.AttrStmt None tir.attr_device_id (tir.IntImm (tir.Int 32) 0)
    (tir.AttrStmt None tir.attr_device_type
       (tir.IntImm (tir.Int 32) (tir.device_type target_))
       (tir.Allocate (tir.mkVar name (tir.PointerType (tir.Int 8) "global.workspace"))
          (tir.Int 8) [tir.IntImm (tir.Int 32) size] tir.const_true body)).

(** The variable a scratch buffer is allocated under. *)
Definition scratch_var (name : string) : tir.Var :=
  tir.mkVar name (tir.PointerType (tir.Int 8) "global.workspace").

(** The name of the scratch buffer number [id]. *)
Definition context_buffer_name (id : Z) : string :=
  String.append "context_buffer_" (to_string id).

(** The module after a unit was registered under [name]. *)
Definition registered (target_ : tir.Target) (s : PassState) (name : string)
    (params : list tir.Var) (body : tir.Stmt) (next_id : Z) : PassState :=
  mkPassState
    (ir_module_ s ++
       [(name, PrimFunc (tir.mkPrimFunc params body (tir.mkDictAttrs name target_ true)))])
    next_id.



(** The formal parameters that are passed on to the kernel: all but the
    two scale tensors of a convolution, which the kernel does not take. *)
Definition is_scale_parameter (v : tir.Var) : bool :=
  String.eqb (tir.name_hint v) "filter_scale" || String.eqb (tir.name_hint v) "input_scale".

Definition passed_parameters (params : list tir.Var) : list tir.Var :=
  filter (fun v => negb (is_scale_parameter v)) params.

(** The buffers a statement allocates. *)
Definition allocated_vars (body : tir.Stmt) : list tir.Var :=
  map (fun a => fst (fst a)) (tir.allocations body).

(** Positions in a convolution argument list, counted from its end:
    the sixteen dimension values come last, the clamp bounds are the two
    arguments before them, and the scratch-buffer name and size are the
    two arguments before the ten scalars. *)
Definition clamp_args (args : list tir.PrimExpr) : list tir.PrimExpr :=
  firstn 2 (skipn (List.length args - 18) args).

Definition buffer_args (args : list tir.PrimExpr) : list tir.PrimExpr :=
  firstn 2 (skipn (List.length args - 28) args).

(** What [EmitConv2D] registers on any input it accepts: the unit is
    determined by the presence of the bias, the scratch-buffer size and
    the 10 scalars and 16 dimension values. *)
Definition conv_tensor_args (has_bias : bool) : list tir.PrimExpr :=
  [tir.VarRef conv_input; tir.VarRef conv_filter; tir.VarRef conv_multiplier]
    ++ (if has_bias then [tir.VarRef conv_bias_var] else [])
    ++ [tir.VarRef conv_shift; tir.VarRef conv_output].

Definition conv_parameters (has_bias : bool) : list tir.Var :=
  [conv_input; conv_filter; conv_multiplier; conv_filter_scale]
    ++ (if has_bias then [conv_bias_var] else [])
    ++ [conv_input_scale_var; conv_shift; conv_output].

Definition conv_args (has_bias : bool) (buffer_name : string) (buffer_size : Z)
    (scalars dims : list Z) : list tir.PrimExpr :=
  tir.StringImm "arm_convolve_wrapper_s8" :: conv_tensor_args has_bias
    ++ [tir.StringImm buffer_name; ToArg buffer_size]
    ++ map ToArg scalars ++ map ToArg dims.

Definition conv_unit_body_of (target_ : tir.Target) (s : PassState)
    (has_bias : bool) (buffer_size : Z) (scalars dims : list Z) : tir.Stmt :=
  let buffer_name :=
    if buffer_size =? 0 then "NULL" else context_buffer_name (context_buffer_id_ s) in
  let call := extern_call (conv_args has_bias buffer_name buffer_size scalars dims) in
  if Int32.wrap buffer_size =? 0 then call
  else with_scratch target_ buffer_name (Int32.wrap buffer_size) call.

Definition conv_unit_state (target_ : tir.Target) (s : PassState) (name : string)
    (has_bias : bool) (buffer_size : Z) (scalars dims : list Z) : PassState :=
  registered target_ s name (conv_parameters has_bias)
    (conv_unit_body_of target_ s has_bias buffer_size scalars dims)
    (if buffer_size =? 0 then context_buffer_id_ s
     else Int32.wrap (context_buffer_id_ s + 1)).

(* ================================================================== *)
(** ** The statements of the specification, in its own words *)

(** The four-tuple dimension descriptor of a rank-4 shape. *)
Definition dims_args (d : Dims4) : list tir.PrimExpr :=
  [ToArg (dim0 d); ToArg (dim1 d); ToArg (dim2 d); ToArg (dim3 d)].

(** Clamp bounds: the clip node's when it is present, else the full
    signed 8-bit range. *)
Definition spec_clamp_bounds (p : Conv2DPattern) : Z * Z :=
  match conv_clip p with
  | Some bounds => bounds
  | None => (-128, 127)
  end.

(** Scratch buffer size: [2 * input_channels * filter_height *
    filter_width * sizeof(16-bit element)]. *)
Definition spec_buffer_size (p : Conv2DPattern) : Z :=
  2 * dim3 (conv_input_shape p) * dim1 (conv_filter_shape p)
    * dim2 (conv_filter_shape p) * 2.

(** The convolution argument list of section 4.4, for a scratch buffer
    of the given name and size: routine name; input, filter,
    multiplier, (bias), shift, output; buffer name and size; the ten
    scalars; the four dimension descriptors. *)
Definition spec_conv_tensor_args (p : Conv2DPattern) : list tir.PrimExpr :=
  [tir.VarRef conv_input; tir.VarRef conv_filter; tir.VarRef conv_multiplier]
    ++ (if conv_bias p then [tir.VarRef conv_bias_var] else [])
    ++ [tir.VarRef conv_shift; tir.VarRef conv_output].

Definition spec_conv_scalars (p : Conv2DPattern) : list tir.PrimExpr :=
  [ToArg (- conv_input_zero_point p); ToArg (conv_output_zero_point p);
   ToArg (snd (conv_strides p)); ToArg (fst (conv_strides p));
   ToArg (snd (conv_padding p)); ToArg (fst (conv_padding p));
   ToArg (snd (conv_dilation p)); ToArg (fst (conv_dilation p));
   ToArg (fst (spec_clamp_bounds p)); ToArg (snd (spec_clamp_bounds p))].

Definition spec_conv_dims (p : Conv2DPattern) : list tir.PrimExpr :=
  dims_args (conv_input_shape p) ++ dims_args (conv_filter_shape p)
    ++ dims_args (mkDims4 1 1 1 (dim0 (conv_filter_shape p)))
    ++ dims_args (conv_output_shape p).

Definition spec_conv_args (p : Conv2DPattern) (buffer_name : string) (buffer_size : Z)
  : list tir.PrimExpr :=
  tir.StringImm "arm_convolve_wrapper_s8" :: spec_conv_tensor_args p
    ++ [tir.StringImm buffer_name; ToArg buffer_size]
    ++ spec_conv_scalars p ++ spec_conv_dims p.

(** The formal parameters of a convolution unit. *)
Definition conv_signature (p : Conv2DPattern) : list tir.Var :=
  [conv_input; conv_filter; conv_multiplier; conv_filter_scale]
    ++ (if conv_bias p then [conv_bias_var] else [])
    ++ [conv_input_scale_var; conv_shift; conv_output].

(** The size the source computes: in [int64_t], converted to [size_t]. *)
Definition code_buffer_size (p : Conv2DPattern) : Z :=
  UInt64.wrap
    (Int64.mul (Int64.mul (Int64.mul (Int64.mul 2 (dim3 (conv_input_shape p)))
                                     (dim2 (conv_filter_shape p)))
                          (dim1 (conv_filter_shape p))) 2).

(** What the lowering of a convolution composite leaves behind: the
    name of its scratch buffer, the body of its unit and the state. *)
Definition conv_buffer_name (p : Conv2DPattern) (s : PassState) : string :=
  if code_buffer_size p =? 0 then "NULL"
  else context_buffer_name (context_buffer_id_ s).

Definition conv_unit_body (target_ : tir.Target) (p : Conv2DPattern) (s : PassState)
  : tir.Stmt :=
  let name := conv_buffer_name p s in
  let call := extern_call (spec_conv_args p name (spec_buffer_size p)) in
  if Int32.wrap (code_buffer_size p) =? 0 then call
  else with_scratch target_ name (Int32.wrap (code_buffer_size p)) call.

Definition conv_lowered (target_ : tir.Target) (p : Conv2DPattern)
    (gv : relay.GlobalVarNode) (s : PassState) : PassState :=
  registered target_ s (relay.name_hint gv) (conv_signature p) (conv_unit_body target_ p s)
    (if code_buffer_size p =? 0 then context_buffer_id_ s
     else Int32.wrap (context_buffer_id_ s + 1)).

(** Softmax, section 4.1: [beta_multiplier = min(beta * input_scale *
    2^(31-kInputBits), 2^31 - 1)] with [beta = 1.0], [kInputBits = 5]. *)
Definition spec_beta_multiplier (input_scale : float) : float :=
  std_min (PrimFloat.mul (PrimFloat.mul 1%float input_scale) (double_of_int (2 ^ (31 - 5))))
          (double_of_int (2 ^ 31 - 1)).

(** [diff_min] as the sentence is written, unary minus binding tighter
    than the shift: [-(((1 << 5) - 1) << (31 - 5)) >> shift]. *)
Definition spec_diff_min_as_written (shift : Z) : Z :=
  Z.shiftr (- (Z.shiftl (Z.shiftl 1 5 - 1) (31 - 5))) shift.

(** [diff_min] with the shift applied before the negation:
    [-((((1 << 5) - 1) << (31 - 5)) >> shift)]. *)
Definition spec_diff_min (shift : Z) : Z :=
  - (Z.shiftr (Z.shiftl (Z.shiftl 1 5 - 1) (31 - 5)) shift).

(** The softmax argument list of section 4.4. *)
Definition spec_softmax_args (num_rows row_size mult shift diff_min : Z) : list tir.PrimExpr :=
  [tir.StringImm "arm_softmax_s8"; tir.VarRef softmax_in_var;
   ToArg num_rows; ToArg row_size; ToArg mult; ToArg shift; ToArg diff_min;
   tir.VarRef softmax_out_var].

(** Elementwise add, section 4.1: the three ratios. *)
Definition spec_twice_max (p : BinaryPattern) : float :=
  PrimFloat.mul 2%float (std_max (input_0_scale p) (input_1_scale p)).

Definition spec_add_ratio_0 (p : BinaryPattern) : float :=
  PrimFloat.div (input_0_scale p) (spec_twice_max p).

Definition spec_add_ratio_1 (p : BinaryPattern) : float :=
  PrimFloat.div (input_1_scale p) (spec_twice_max p).

Definition spec_add_ratio_out (p : BinaryPattern) : float :=
  PrimFloat.div (spec_twice_max p)
                (PrimFloat.mul (double_of_int (2 ^ 20)) (output_scale p)).

(** Elementwise multiply, section 4.1. *)
Definition spec_mul_ratio (p : BinaryPattern) : float :=
  PrimFloat.div (PrimFloat.mul (input_0_scale p) (input_1_scale p)) (output_scale p).

(** The total element count of a static shape, as an immediate: of the
    index type of the shape, or 64-bit for a scalar. *)
Definition element_count (t : tir.DataType) (dims : list Z) : tir.PrimExpr :=
  tir.IntImm (match dims with [] => tir.Int 64 | _ => t end) (product dims).

(** The elementwise argument lists of section 4.4. *)
Definition spec_mul_args (R : float -> Z * Z) (p : BinaryPattern) : list tir.PrimExpr :=
  [tir.StringImm "arm_elementwise_mul_s8";
   tir.VarRef binary_input_0; tir.VarRef binary_input_1;
   ToArg (- input_0_zero_point p); ToArg (- input_1_zero_point p);
   tir.VarRef binary_output;
   ToArg (output_zero_point p);
   ToArg (fst (R (spec_mul_ratio p))); ToArg (snd (R (spec_mul_ratio p)));
   ToArg (-128); ToArg 127;
   element_count (binary_index_type p) (binary_shape p)].

Definition spec_add_args (R : float -> Z * Z) (p : BinaryPattern) : list tir.PrimExpr :=
  [tir.StringImm "arm_elementwise_add_s8";
   tir.VarRef binary_input_0; tir.VarRef binary_input_1;
   ToArg (- input_0_zero_point p);
   ToArg (fst (R (spec_add_ratio_0 p))); ToArg (snd (R (spec_add_ratio_0 p)));
   ToArg (- input_1_zero_point p);
   ToArg (fst (R (spec_add_ratio_1 p))); ToArg (snd (R (spec_add_ratio_1 p)));
   ToArg 20;
   tir.VarRef binary_output;
   ToArg (output_zero_point p);
   ToArg (fst (R (spec_add_ratio_out p))); ToArg (snd (R (spec_add_ratio_out p)));
   ToArg (-128); ToArg 127;
   element_count (binary_index_type p) (binary_shape p)].

(** A recognized call site: a call whose callee is a function tagged
    for this code generator. *)
Definition is_cmsisnn_call (e : relay.Expr) : bool :=
  match e with
  | relay.Call (relay.Function _ _ _ _ attrs _ _) _ _ _ _ _ =>
      optional_eqb (relay.Compiler attrs) "cmsis-nn"
  | _ => false
  end.

(** The composite names the pass knows. *)
Definition known_composites : list string :=
  ["cmsis-nn.qnn_softmax"; "cmsis-nn.qnn_mul"; "cmsis-nn.qnn_add"; "cmsis-nn.qnn_conv2d"].

(* ================================================================== *)
(** ** Sample inputs *)

(** The target of the pass and a state with an empty module. *)
Definition cmsis_nn_target : tir.Target := tir.mkTarget "cmsis-nn" 1.

Definition empty_state : PassState := mkPassState [] 0.

(** The global variable the sample units are registered under. *)
Definition example_global_var : relay.GlobalVarNode := relay.mkGlobalVar "f" None.

(** A convolution composite with clamp [(0, 6)] and bias over an input
    of shape [(1,16,16,8)] and a filter of shape [(4,3,3,8)]. *)
Definition conv_example : Conv2DPattern :=
  mkConv2DPattern (Some (0, 6)) true (-128) 5 0.5%float 0.25%float
    (1, 1) (0, 0) [0; 0] (1, 1) (tir.Int 32)
    (mkDims4 1 16 16 8) (mkDims4 4 3 3 8) (mkDims4 1 14 14 4).

(** The same convolution without the clip and without the bias. *)
Definition conv_plain_example : Conv2DPattern :=
  mkConv2DPattern None false (-128) 5 0.5%float 0.25%float
    (1, 1) (0, 0) [0; 0] (1, 1) (tir.Int 32)
    (mkDims4 1 16 16 8) (mkDims4 4 3 3 8) (mkDims4 1 14 14 4).

(** A softmax over shape [(1,4,4,10)] with input scale 1/256, and the
    same with input scale 1. *)
Definition softmax_example : SoftmaxPattern :=
  mkSoftmaxPattern 0.00390625%float (-128) 0.00390625%float (-128) (tir.Int 32) [1; 4; 4] 10.

Definition softmax_unit_scale : SoftmaxPattern :=
  mkSoftmaxPattern 1%float 0 0.00390625%float (-128) (tir.Int 32) [1; 4; 4] 10.

(** An elementwise composite over shape [(1,8,8,3)]. *)
Definition binary_example : BinaryPattern :=
  mkBinaryPattern 0.5%float 3 0.25%float (-4) 0.125%float 7 (tir.Int 32) [1; 8; 8; 3].

(** The call site of a convolution composite registered as [symbol]. *)
Definition conv_call_site (p : Conv2DPattern) (symbol : string) (ty : relay.Ty)
    (args : list relay.Expr) : relay.Expr :=
  let params := [relay.Var "input" (tensor (conv_index_type p) (dims4 (conv_input_shape p)) "int8")] in
  let composite :=
    composite_function (Some "cmsis-nn.qnn_conv2d") params (conv2d_pattern p) (Some ty) in
  relay.Call (partitioned_function (Some "cmsis-nn") (Some symbol) params composite)
             args relay.NullAttrs [] None None.

(** A call to the partitioned function of the convolution sample,
    registered as ["f"]; a call to a primitive operator; and the visitor
    of the pass with enough fuel for both. *)
Definition example_type : relay.Ty :=
  relay.FuncType [tensor (tir.Int 32) [1; 16; 16; 8] "int8"]
                 (tensor (tir.Int 32) [1; 14; 14; 4] "int8").

Definition example_argument : relay.Expr :=
  relay.Var "data" (tensor (tir.Int 32) [1; 16; 16; 8] "int8").

Definition example_call_site : relay.Expr :=
  conv_call_site conv_example "f" example_type [example_argument].

Definition example_plain_call : relay.Expr :=
  relay.Call (relay.Op "nn.relu") [example_argument] relay.NullAttrs [] None
             (Some (tensor (tir.Int 32) [1; 16; 16; 8] "int8")).

Definition example_pre : relay.CallNode :=
  relay.mkCallNode (relay.Op "nn.relu") [example_argument] relay.NullAttrs [] None None.

Definition example_visit : relay.Expr -> M relay.Expr :=
  VisitExpr cmsis_nn_target FixedPointMultiplierShift 8.

(* ================================================================== *)
(** ** The entry point of the pass *)

(** Modelled from the spec: [IRModule::GetGlobalVar], [IRModule::Lookup]
    and [IRModule::Update] (not under src/). The module is the
    program-wide symbol table: looking a name up gives the function
    registered under it, and is a fatal error when there is none;
    updating replaces the function registered under the name. *)
Fixpoint IRModule_Lookup (m : IRModule) (name : string) : option BaseFunc :=
  match m with
  | [] => None
  | (n, f) :: rest => if String.eqb n name then Some f else IRModule_Lookup rest name
  end.

Fixpoint IRModule_Update (m : IRModule) (name : string) (f : BaseFunc) : IRModule :=
  match m with
  | [] => [(name, f)]
  | (n, g) :: rest =>
      if String.eqb n name then (n, f) :: rest else (n, g) :: IRModule_Update rest name f
  end.

(** The member [ir_module_], read and updated. *)
Definition get_ir_module : M IRModule := fun s => Some (ir_module_ s, s).

Definition ir_module_Update (name : string) (f : BaseFunc) : M unit :=
  fun s => Some (tt, mkPassState (IRModule_Update (ir_module_ s) name f)
                                 (context_buffer_id_ s)).

(** [Mutate()]: the body of ["main"] is visited and ["main"] is
    updated with the result; [VisitExpr] is inherited from
    [MixedModeMutator] and is a parameter here. [main.as<FunctionNode>()]
    is null, and dereferenced, when ["main"] is not a Relay function. *)
Definition Mutate (VisitExpr : relay.Expr -> M relay.Expr) : M IRModule :=
  ir_module <- get_ir_module ;;
  main <- deref (IRModule_Lookup ir_module "main") ;;
  match main with
  | RelayFunc (relay.Function params body ret_type type_params attrs span _) =>
      (* Copy everything across and mutate the body *)
      body' <- VisitExpr body ;;
      let mutated_main :=
        relay.Function params body' ret_type type_params attrs span None in
      ir_module_Update "main" (RelayFunc mutated_main) ;;;
      get_ir_module
  | _ => fail
  end.

(** [RelayToTIR()]: the pass function builds a [RelayToTIRVisitor] on
    the module and on [Target("cmsis-nn")], whose constructor sets
    [context_buffer_id_ = 0], and returns what its [Mutate] returns.
    The target is the one the traversal [VisitExpr] passed here was
    built on. *)
Definition RelayToTIR (VisitExpr : relay.Expr -> M relay.Expr) (ir_module : IRModule)
  : option IRModule :=
  match Mutate VisitExpr (mkPassState ir_module 0) with
  | Some (m, _) => Some m
  | None => None
  end.

(* ================================================================== *)
(** ** Notions for the further properties *)

(** The nodes [EmitConv2D] finds before it reads anything else: the
    clip call if there is one, the requantize call, the bias_add call if
    there is one, and the conv2d call. *)
Definition decompose_conv2d (expr : relay.Expr)
  : option (option relay.CallNode * relay.CallNode * option relay.CallNode * relay.CallNode) :=
  obind (relay.as_CallNode expr) (fun final_call =>
  obind (relay.as_OpNode (relay.op final_call)) (fun final_op =>
  obind (if String.eqb final_op "clip"
         then obind (arg_as_CallNode final_call 0) (fun r => Some (Some final_call, r))
         else Some (None, final_call)) (fun '(clip_call, requantize_call) =>
  obind (arg_as_CallNode requantize_call 0) (fun requantize_input =>
  obind (relay.as_OpNode (relay.op requantize_input)) (fun requantize_input_op =>
  obind (if String.eqb requantize_input_op "nn.bias_add"
         then obind (arg_as_CallNode requantize_input 0)
                    (fun c => Some (Some requantize_input, c))
         else Some (None, requantize_input)) (fun '(bias_add_call, conv2d_call) =>
  Some (clip_call, requantize_call, bias_add_call, conv2d_call))))))).

(** The shape of the type of operand [i] of a call. *)
Definition arg_shape (call : relay.CallNode) (i : nat) : option (list tir.PrimExpr) :=
  obind (at_ (relay.args call) i) (fun e => relay.shape_of_type (relay.checked_type e)).

(** A shape of integer immediates, each of its own index type. *)
Definition immediates (dims : list (tir.DataType * Z)) : list tir.PrimExpr :=
  map (fun d => tir.IntImm (fst d) (snd d)) dims.

(** An entry of the module that is an emitted unit. *)
Definition is_unit (entry : string * BaseFunc) : bool :=
  match snd entry with
  | PrimFunc _ => true
  | RelayFunc _ => false
  end.

(** From [s] to [s'] the module only grew, and only by emitted units. *)
Definition only_adds_units (s s' : PassState) : Prop :=
  exists added : IRModule,
    ir_module_ s' = ir_module_ s ++ added /\ forallb is_unit added = true.

(** An expression that holds a call site tagged for this code
    generator, at any depth; and the depth of an expression. *)
Fixpoint has_cmsisnn_call (e : relay.Expr) : bool :=
  match e with
  | relay.Call op args _ _ _ _ =>
      is_cmsisnn_call e || has_cmsisnn_call op || existsb has_cmsisnn_call args
  | relay.Function _ body _ _ _ _ _ => has_cmsisnn_call body
  | _ => false
  end.

Fixpoint depth (e : relay.Expr) : nat :=
  match e with
  | relay.Call op args _ _ _ _ => S (Nat.max (depth op) (list_max (map depth args)))
  | relay.Function _ body _ _ _ _ _ => S (depth body)
  | _ => 0
  end.

(** A convolution whose scratch buffer would take [2^32] bytes: 1024
    input channels under a filter of 1024 by 1024. *)
Definition conv_huge_example : Conv2DPattern :=
  mkConv2DPattern (Some (0, 6)) true (-128) 5 0.5%float 0.25%float
    (1, 1) (0, 0) [0; 0] (1, 1) (tir.Int 32)
    (mkDims4 1 1024 1024 1024) (mkDims4 4 1024 1024 1024) (mkDims4 1 1 1 4).

(** A module with two Relay functions: ["helper"], which calls a
    primitive operator, and ["main"], which calls the partitioned
    function of the convolution sample. *)
Definition example_helper : relay.Expr :=
  relay.Function [example_argument] example_plain_call None []
                 (relay.mkFuncAttrs None None None) None None.

Definition example_main : relay.Expr :=
  relay.Function [example_argument] example_call_site None []
                 (relay.mkFuncAttrs None None None) None None.

Definition example_module : IRModule :=
  [("helper", RelayFunc example_helper); ("main", RelayFunc example_main)].

(** An operand that is a scalar constant, of either scalar type; and
    an expression that is a call whose operands 2 to 7 are scalar
    constants and whose checked type is a tensor type. *)
Definition is_scalar_constant (e : relay.Expr) : bool :=
  match e with
  | relay.Constant (relay.ScalarInt32 _) _ | relay.Constant (relay.ScalarFloat32 _) _ => true
  | _ => false
  end.

Definition scalar_constant_at (call : relay.CallNode) (i : nat) : bool :=
  match at_ (relay.args call) i with
  | Some e => is_scalar_constant e
  | None => false
  end.

Definition has_binary_operands (expr : relay.Expr) : bool :=
  match relay.as_CallNode expr with
  | Some call =>
      forallb (scalar_constant_at call) [2; 3; 4; 5; 6; 7]%nat
      && match relay.shape_of_type (relay.call_type call) with
         | Some _ => true
         | None => false
         end
  | None => false
  end.

(** A quantized add with seven operands: the output zero point is
    missing. *)
Definition binary_short_example : relay.Expr :=
  relay.Call (relay.Op "qnn.add")
    [relay.Var "input_0" (tensor (tir.Int 32) [1; 8; 8; 3] "int8");
     relay.Var "input_1" (tensor (tir.Int 32) [1; 8; 8; 3] "int8");
     const_float 0.5%float; const_int32 3;
     const_float 0.25%float; const_int32 (-4);
     const_float 0.125%float]
    relay.NullAttrs [] None (Some (tensor (tir.Int 32) [1; 8; 8; 3] "int8")).

(** A call site tagged for this code generator whose composite
    function carries a name the pass has no emitter for. *)
Definition example_unknown_call_site : relay.Expr :=
  relay.Call
    (partitioned_function (Some "cmsis-nn") (Some "f") [example_argument]
       (composite_function (Some "cmsis-nn.qnn_unknown") [example_argument]
                           example_plain_call (Some example_type)))
    [example_argument] relay.NullAttrs [] None None.

(* ================================================================== *)
(** ** Arithmetic of the machine integers *)

Lemma Int32_wrap_spec (z : Z) : exists k, Int32.wrap z = z + k * Int32.modulus.
Proof.
  exists (- ((z + 2 ^ 31) / Int32.modulus)).
  unfold Int32.wrap.
  rewrite Z.mod_eq by (unfold Int32.modulus; lia).
  ring.
Qed.

Lemma Int32_wrap_shift (z k : Z) : Int32.wrap (z + k * Int32.modulus) = Int32.wrap z.
Proof.
  unfold Int32.wrap.
  replace (z + k * Int32.modulus + 2 ^ 31) with (z + 2 ^ 31 + k * Int32.modulus) by ring.
  now rewrite Z_mod_plus_full.
Qed.

Lemma Int32_wrap_small (z : Z) : Int32.in_range z -> Int32.wrap z = z.
Proof.
  unfold Int32.in_range, Int32.min_signed, Int32.max_signed, Int32.wrap, Int32.modulus.
  intros H. rewrite Z.mod_small; lia.
Qed.

Lemma Int32_wrap_in_range (z : Z) : Int32.in_range (Int32.wrap z).
Proof.
  unfold Int32.in_range, Int32.min_signed, Int32.max_signed, Int32.wrap, Int32.modulus.
  pose proof (Z.mod_pos_bound (z + 2 ^ 31) (2 ^ 32)). lia.
Qed.

Lemma Int32_wrap_idem (z : Z) : Int32.wrap (Int32.wrap z) = Int32.wrap z.
Proof. apply Int32_wrap_small, Int32_wrap_in_range. Qed.

Lemma Int32_wrap_neg (z : Z) : Int32.wrap (- Int32.wrap z) = Int32.wrap (- z).
Proof.
  destruct (Int32_wrap_spec z) as [k ->].
  replace (- (z + k * Int32.modulus)) with (- z + (- k) * Int32.modulus) by ring.
  apply Int32_wrap_shift.
Qed.

Lemma Int32_wrap_mul_l (a b : Z) : Int32.wrap (Int32.wrap a * b) = Int32.wrap (a * b).
Proof.
  destruct (Int32_wrap_spec a) as [k ->].
  replace ((a + k * Int32.modulus) * b) with (a * b + (k * b) * Int32.modulus) by ring.
  apply Int32_wrap_shift.
Qed.

Lemma Int32_wrap_mod64 (z : Z) : Int32.wrap (z mod UInt64.modulus) = Int32.wrap z.
Proof.
  rewrite Z.mod_eq by (unfold UInt64.modulus; lia).
  replace (z - UInt64.modulus * (z / UInt64.modulus))
    with (z + (- (2 ^ 32 * (z / UInt64.modulus))) * Int32.modulus)
    by (unfold UInt64.modulus, Int32.modulus; ring).
  apply Int32_wrap_shift.
Qed.

Lemma Int64_wrap_spec (z : Z) : exists k, Int64.wrap z = z + k * Int64.modulus.
Proof.
  exists (- ((z + 2 ^ 63) / Int64.modulus)).
  unfold Int64.wrap.
  rewrite Z.mod_eq by (unfold Int64.modulus; lia).
  ring.
Qed.

(** The size computed in 64 bits is the specified product modulo [2^64]. *)
Lemma code_buffer_size_mod (p : Conv2DPattern) :
  code_buffer_size p = spec_buffer_size p mod UInt64.modulus.
Proof.
  unfold code_buffer_size, spec_buffer_size, UInt64.wrap, Int64.mul.
  set (c := dim3 (conv_input_shape p)).
  set (w := dim2 (conv_filter_shape p)).
  set (h := dim1 (conv_filter_shape p)).
  destruct (Int64_wrap_spec (2 * c)) as [k1 ->].
  destruct (Int64_wrap_spec ((2 * c + k1 * Int64.modulus) * w)) as [k2 ->].
  destruct (Int64_wrap_spec (((2 * c + k1 * Int64.modulus) * w + k2 * Int64.modulus) * h))
    as [k3 ->].
  match goal with |- Int64.wrap ?z mod _ = _ => destruct (Int64_wrap_spec z) as [k4 ->] end.
  change UInt64.modulus with Int64.modulus.
  match goal with |- ?lhs mod _ = _ =>
    replace lhs
      with (2 * c * h * w * 2
            + (k4 + k3 * 2 + k2 * h * 2 + k1 * w * h * 2) * Int64.modulus) by ring
  end.
  apply Z_mod_plus_full.
Qed.

Lemma code_buffer_size_wrap (p : Conv2DPattern) :
  Int32.wrap (code_buffer_size p) = Int32.wrap (spec_buffer_size p).
Proof.
  now rewrite code_buffer_size_mod, Int32_wrap_mod64.
Qed.

(** Within the range of an [int] the three views of the size agree: the
    [size_t], the [int] handed on, and the specified product. *)
Lemma code_buffer_size_zero (p : Conv2DPattern) :
  Int32.in_range (spec_buffer_size p) ->
  (code_buffer_size p =? 0) = (spec_buffer_size p =? 0).
Proof.
  intros Hr. rewrite code_buffer_size_mod.
  unfold Int32.in_range, Int32.min_signed, Int32.max_signed in Hr.
  set (z := spec_buffer_size p) in *.
  pose proof (Z.div_mod z UInt64.modulus ltac:(unfold UInt64.modulus; lia)) as Hd.
  pose proof (Z.mod_pos_bound z UInt64.modulus ltac:(unfold UInt64.modulus; lia)) as Hb.
  unfold UInt64.modulus in *.
  destruct (Z.eqb_spec (z mod 2 ^ 64) 0) as [E|E], (Z.eqb_spec z 0) as [E'|E'];
    try reflexivity; exfalso.
  - rewrite E in Hd. lia.
  - apply E. rewrite E'. reflexivity.
Qed.

Lemma ToArg_wrap (z : Z) : ToArg (Int32.wrap z) = ToArg z.
Proof. unfold ToArg. now rewrite Int32_wrap_idem. Qed.

Lemma ToArg_neg_wrap (z : Z) : ToArg (Int32.neg (Int32.wrap z)) = ToArg (- z).
Proof. unfold ToArg, Int32.neg. now rewrite Int32_wrap_idem, Int32_wrap_neg. Qed.

Lemma ToArg_small (z : Z) : Int32.in_range z -> ToArg z = tir.IntImm (tir.Int 32) z.
Proof. intros H. unfold ToArg. now rewrite Int32_wrap_small. Qed.

Lemma ToArg_code_buffer_size (p : Conv2DPattern) :
  ToArg (code_buffer_size p) = ToArg (spec_buffer_size p).
Proof. unfold ToArg. now rewrite code_buffer_size_wrap. Qed.

(* ================================================================== *)
(** ** Convolution *)

(** The lowering of a convolution composite, whichever of its four
    shapes it has: it succeeds and registers one unit. *)
Lemma EmitConv2D_pattern (target_ : tir.Target) (p : Conv2DPattern)
    (gv : relay.GlobalVarNode) (s : PassState) :
  EmitConv2D target_ gv (conv2d_pattern p) s = Some (tt, conv_lowered target_ p gv s).
Proof.
  unfold conv_lowered, conv_unit_body, conv_buffer_name, spec_conv_args.
  rewrite <- (ToArg_code_buffer_size p).
  destruct p as [clip bias izp ozp iscale oscale [sh sw] [ph pw] prest [dh dw] t
                   [i0 i1 i2 i3] [f0 f1 f2 f3] [o0 o1 o2 o3]].
  unfold conv2d_pattern, code_buffer_size, spec_conv_args, spec_conv_tensor_args,
    spec_conv_scalars, spec_conv_dims, conv_signature, spec_clamp_bounds, EmitConv2D.
  cbn [conv_clip conv_bias conv_input_zero_point conv_output_zero_point conv_strides
       conv_padding conv_padding_rest conv_dilation conv_index_type conv_input_shape
       conv_filter_shape conv_output_shape dim0 dim1 dim2 dim3 fst snd].
  set (size := UInt64.wrap _).
  destruct clip as [[lo hi]|], bias;
    cbn -[Int32.wrap Int32.neg Int64.mul UInt64.wrap ToArg Z.eqb to_string String.append];
    fold size;
    rewrite ?ToArg_neg_wrap, ?ToArg_wrap;
    unfold bind, CreatePrimFuncForExtern, ir_module_Add, registered, with_scratch, extern_call,
      context_buffer_name;
    destruct (size =? 0) eqn:Hsize;
    cbn -[Int32.wrap ToArg Z.eqb to_string String.append];
    destruct (Int32.wrap size =? 0); reflexivity.
Qed.

Lemma conv_lowered_module (target_ : tir.Target) (p : Conv2DPattern)
    (gv : relay.GlobalVarNode) (s : PassState) :
  ir_module_ (conv_lowered target_ p gv s) =
  ir_module_ s ++
    [(relay.name_hint gv,
      PrimFunc (tir.mkPrimFunc (conv_signature p) (conv_unit_body target_ p s)
                               (tir.mkDictAttrs (relay.name_hint gv) target_ true)))].
Proof. reflexivity. Qed.

(** The body of a convolution unit holds one external call, with the
    argument list of section 4.4. *)
Lemma conv_unit_body_calls (target_ : tir.Target) (p : Conv2DPattern) (s : PassState) :
  tir.stmt_extern_calls (conv_unit_body target_ p s) =
  [spec_conv_args p (conv_buffer_name p s) (spec_buffer_size p)].
Proof.
  unfold conv_unit_body.
  destruct (Int32.wrap (code_buffer_size p) =? 0);
    unfold spec_conv_args, spec_conv_tensor_args; destruct (conv_bias p); reflexivity.
Qed.

Lemma spec_conv_args_length (p : Conv2DPattern) (name : string) (size : Z) :
  List.length (spec_conv_args p name size) = if conv_bias p then 35%nat else 34%nat.
Proof. unfold spec_conv_args, spec_conv_tensor_args. destruct (conv_bias p); reflexivity. Qed.

(** C2: the convolution decomposer accepts all four combinations of an
    optional clip node and an optional bias_add node: for every such
    composite the lowering succeeds and registers a unit with one
    external call. When the clip node is absent the emitted clamp bounds
    are exactly [(-128, 127)]; when it is present they are its [a_min]
    and [a_max]; the bias handle is in the argument list when the
    bias_add node is present and not otherwise. *)
Theorem EmitConv2D_optional_clip_and_bias (target_ : tir.Target) (p : Conv2DPattern)
    (gv : relay.GlobalVarNode) (s : PassState) :
  exists (s1 : PassState) (unit : tir.PrimFunc) (args : list tir.PrimExpr),
    EmitConv2D target_ gv (conv2d_pattern p) s = Some (tt, s1)
    /\ ir_module_ s1 = ir_module_ s ++ [(relay.name_hint gv, PrimFunc unit)]
    /\ tir.stmt_extern_calls (tir.body unit) = [args]
    /\ clamp_args args =
         match conv_clip p with
         | Some (a_min, a_max) => [ToArg a_min; ToArg a_max]
         | None => [tir.IntImm (tir.Int 32) (-128); tir.IntImm (tir.Int 32) 127]
         end
    /\ tir.handles args =
         if conv_bias p
         then [conv_input; conv_filter; conv_multiplier; conv_bias_var; conv_shift; conv_output]
         else [conv_input; conv_filter; conv_multiplier; conv_shift; conv_output].
Proof.
  exists (conv_lowered target_ p gv s).
  eexists. exists (spec_conv_args p (conv_buffer_name p s) (spec_buffer_size p)).
  split; [apply EmitConv2D_pattern|].
  split; [apply conv_lowered_module|].
  split; [apply conv_unit_body_calls|].
  unfold clamp_args. rewrite spec_conv_args_length.
  unfold spec_conv_args, spec_conv_tensor_args, spec_conv_scalars, spec_clamp_bounds.
  destruct (conv_bias p), (conv_clip p) as [[a_min a_max]|]; split; reflexivity.
Qed.

Lemma to_string_inj (i j : Z) : to_string i = to_string j -> i = j.
Proof.
  unfold to_string. intros H.
  assert (Hn : forall z, Z.to_int z <> Decimal.Pos Decimal.Nil
                         /\ Z.to_int z <> Decimal.Neg Decimal.Nil).
  { intros [|q|q]; cbn; split; try discriminate;
      intros E; injection E; apply DecimalPos.Unsigned.to_uint_nonnil. }
  apply DecimalZ.to_int_inj.
  pose proof (NilZero.isi (Z.to_int i) (proj1 (Hn i)) (proj2 (Hn i))) as Hi.
  pose proof (NilZero.isi (Z.to_int j) (proj1 (Hn j)) (proj2 (Hn j))) as Hj.
  rewrite H in Hi. congruence.
Qed.

(** Scratch buffers of different numbers have different names. *)
Lemma context_buffer_name_inj (i j : Z) :
  context_buffer_name i = context_buffer_name j -> i = j.
Proof.
  unfold context_buffer_name. cbn [String.append]. intros H.
  apply to_string_inj. congruence.
Qed.

Lemma conv_unit_body_allocations (target_ : tir.Target) (p : Conv2DPattern) (s : PassState) :
  tir.allocations (conv_unit_body target_ p s) =
  if Int32.wrap (code_buffer_size p) =? 0 then []
  else [(scratch_var (conv_buffer_name p s), tir.Int 8,
         [tir.IntImm (tir.Int 32) (Int32.wrap (code_buffer_size p))])].
Proof.
  unfold conv_unit_body. destruct (Int32.wrap (code_buffer_size p) =? 0); reflexivity.
Qed.

Lemma buffer_args_spec (p : Conv2DPattern) (name : string) (size : Z) :
  buffer_args (spec_conv_args p name size) = [tir.StringImm name; ToArg size].
Proof.
  unfold buffer_args. rewrite spec_conv_args_length.
  unfold spec_conv_args, spec_conv_tensor_args. destruct (conv_bias p); reflexivity.
Qed.

(** C3 (amended): for every convolution lowering whose scratch-buffer size
    [2 * input_channels * filter_height * filter_width * 2] is
    representable as an [int], that product is the size handed to the
    kernel; when it is 0 the unit allocates nothing, the buffer name is
    the sentinel ["NULL"] and the counter stays; when it is not 0 the
    unit allocates exactly that many int8 elements under the name
    ["context_buffer_"] followed by the counter, the counter advances,
    and no other counter value gives the same name. *)
Theorem EmitConv2D_scratch_buffer (target_ : tir.Target) (p : Conv2DPattern)
    (gv : relay.GlobalVarNode) (s : PassState) :
  let size := 2 * dim3 (conv_input_shape p) * dim1 (conv_filter_shape p)
                * dim2 (conv_filter_shape p) * 2 in
  let id := context_buffer_id_ s in
  Int32.in_range size ->
  exists (s1 : PassState) (unit : tir.PrimFunc) (args : list tir.PrimExpr),
    EmitConv2D target_ gv (conv2d_pattern p) s = Some (tt, s1)
    /\ ir_module_ s1 = ir_module_ s ++ [(relay.name_hint gv, PrimFunc unit)]
    /\ tir.stmt_extern_calls (tir.body unit) = [args]
    /\ (size = 0 ->
        tir.allocations (tir.body unit) = []
        /\ buffer_args args = [tir.StringImm "NULL"; tir.IntImm (tir.Int 32) 0]
        /\ context_buffer_id_ s1 = id)
    /\ (size <> 0 ->
        tir.allocations (tir.body unit) =
          [(scratch_var (String.append "context_buffer_" (to_string id)), tir.Int 8,
            [tir.IntImm (tir.Int 32) size])]
        /\ buffer_args args =
             [tir.StringImm (String.append "context_buffer_" (to_string id));
              tir.IntImm (tir.Int 32) size]
        /\ context_buffer_id_ s1 = Int32.wrap (id + 1)
        /\ forall id', id' <> id ->
             String.append "context_buffer_" (to_string id')
             <> String.append "context_buffer_" (to_string id)).
Proof.
  intros size id Hrange.
  change size with (spec_buffer_size p) in *.
  exists (conv_lowered target_ p gv s).
  eexists. exists (spec_conv_args p (conv_buffer_name p s) (spec_buffer_size p)).
  split; [apply EmitConv2D_pattern|].
  split; [apply conv_lowered_module|].
  split; [apply conv_unit_body_calls|].
  cbn [tir.body].
  rewrite conv_unit_body_allocations, buffer_args_spec.
  unfold conv_lowered, registered, conv_buffer_name. cbn [context_buffer_id_].
  rewrite code_buffer_size_wrap, code_buffer_size_zero, Int32_wrap_small by assumption.
  rewrite ToArg_small by assumption.
  split; intros Hsize.
  - rewrite Hsize. cbn. auto.
  - apply Z.eqb_neq in Hsize. rewrite Hsize.
    repeat split; try reflexivity.
    intros id' Hid' E. apply Hid'.
    now apply (context_buffer_name_inj id' id).
Qed.

(* ================================================================== *)
(** ** The rewrite hook *)

Section Rewrite.

Variable target_ : tir.Target.
Variable R : float -> Z * Z.
Variable V : relay.Expr -> M relay.Expr.

(** A call site that is not recognized is returned as it is, and the
    state is not touched. *)
Lemma Rewrite_unrecognized (pre : relay.CallNode) (post : relay.Expr) (s : PassState) :
  is_cmsisnn_call post = false ->
  Rewrite_ target_ R V pre post s = Some (post, s).
Proof.
  unfold Rewrite_, is_cmsisnn_call.
  destruct post as [| | | |op args attrs targs span ty|]; try reflexivity.
  destruct op; try reflexivity.
  cbn. intros ->. reflexivity.
Qed.

(** A recognized call site becomes a call to the global variable named
    by the callee's [global_symbol]; the arguments are visited in
    order, after the unit was emitted. *)
Lemma Rewrite_recognized (pre : relay.CallNode)
    (fparams cparams iargs args args' : list relay.Expr)
    (cbody : relay.Expr) (frt crt : option relay.Ty) (ftp ctp itargs targs : list relay.Ty)
    (fattrs cattrs : relay.FuncAttrs) (iattrs attrs : relay.Attrs)
    (fspan cspan ispan span : option relay.Span) (fty ity ty : option relay.Ty)
    (cty : relay.Ty) (symbol : string) (s s1 s2 : PassState) :
  relay.Compiler fattrs = Some "cmsis-nn" ->
  relay.global_symbol fattrs = Some symbol ->
  EmitComposite target_ R (relay.Composite cattrs)
                (relay.mkGlobalVar symbol (Some cty)) cbody s = Some (tt, s1) ->
  mapM V args s1 = Some (args', s2) ->
  Rewrite_ target_ R V pre
    (relay.Call
       (relay.Function fparams
          (relay.Call (relay.Function cparams cbody crt ctp cattrs cspan (Some cty))
                      iargs iattrs itargs ispan ity)
          frt ftp fattrs fspan fty)
       args attrs targs span ty) s
  = Some (relay.Call (relay.GlobalVar (relay.mkGlobalVar symbol (Some cty)))
                     args' attrs targs span None, s2).
Proof.
  intros Hc Hs He Hv.
  unfold Rewrite_. cbn -[EmitComposite mapM].
  rewrite Hc, Hs. cbn -[EmitComposite mapM].
  unfold bind. rewrite He, Hv. reflexivity.
Qed.

Lemma EmitComposite_conv2d (gv : relay.GlobalVarNode) (body : relay.Expr) (s : PassState) :
  EmitComposite target_ R (Some "cmsis-nn.qnn_conv2d") gv body s
  = EmitConv2D target_ gv body s.
Proof. reflexivity. Qed.

End Rewrite.

(** C1: for every subgraph of the full shape clip -> requantize ->
    bias_add -> conv2d the lowering registers exactly one new unit,
    under the callee's global symbol; its body holds exactly one
    external call, which hands the routine named by its first entry 34
    arguments: 6 tensor and bias handles, 2 scratch-buffer arguments, 10
    scalars and 16 dimension values; and the call site becomes a call to
    the global variable of that name, with the visited arguments and the
    attributes, type arguments and span of the original call. *)
Theorem Rewrite_full_conv2d (target_ : tir.Target) (R : float -> Z * Z)
    (V : relay.Expr -> M relay.Expr) (pre : relay.CallNode)
    (p : Conv2DPattern) (bounds : Z * Z)
    (fparams cparams iargs args : list relay.Expr)
    (frt crt : option relay.Ty) (ftp ctp itargs targs : list relay.Ty)
    (fattrs cattrs : relay.FuncAttrs) (iattrs attrs : relay.Attrs)
    (fspan cspan ispan span : option relay.Span) (fty ity ty : option relay.Ty)
    (cty : relay.Ty) (symbol : string) (s : PassState) :
  conv_clip p = Some bounds ->
  conv_bias p = true ->
  relay.Compiler fattrs = Some "cmsis-nn" ->
  relay.global_symbol fattrs = Some symbol ->
  relay.Composite cattrs = Some "cmsis-nn.qnn_conv2d" ->
  let gv := relay.mkGlobalVar symbol (Some cty) in
  let site :=
    relay.Call
      (relay.Function fparams
         (relay.Call (relay.Function cparams (conv2d_pattern p) crt ctp cattrs cspan (Some cty))
                     iargs iattrs itargs ispan ity)
         frt ftp fattrs fspan fty)
      args attrs targs span ty in
  exists (s1 : PassState) (unit : tir.PrimFunc) (buffer_name : string)
         (arguments : list tir.PrimExpr),
    EmitConv2D target_ gv (conv2d_pattern p) s = Some (tt, s1)
    /\ ir_module_ s1 = ir_module_ s ++ [(symbol, PrimFunc unit)]
    /\ tir.stmt_extern_calls (tir.body unit)
       = [tir.StringImm "arm_convolve_wrapper_s8" :: arguments]
    /\ arguments =
         [tir.VarRef conv_input; tir.VarRef conv_filter; tir.VarRef conv_multiplier;
          tir.VarRef conv_bias_var; tir.VarRef conv_shift; tir.VarRef conv_output]
           ++ [tir.StringImm buffer_name; ToArg (spec_buffer_size p)]
           ++ spec_conv_scalars p ++ spec_conv_dims p
    /\ List.length (spec_conv_scalars p) = 10%nat
    /\ List.length (spec_conv_dims p) = 16%nat
    /\ List.length arguments = 34%nat
    /\ (forall args' s2,
          mapM V args s1 = Some (args', s2) ->
          Rewrite_ target_ R V pre site s
          = Some (relay.Call (relay.GlobalVar gv) args' attrs targs span None, s2)).
Proof.
  intros Hclip Hbias Hc Hs Hk gv site.
  exists (conv_lowered target_ p gv s).
  eexists. exists (conv_buffer_name p s).
  exists (tl (spec_conv_args p (conv_buffer_name p s) (spec_buffer_size p))).
  split; [apply EmitConv2D_pattern|].
  split; [apply conv_lowered_module|].
  split; [apply conv_unit_body_calls|].
  split.
  { unfold spec_conv_args, spec_conv_tensor_args. rewrite Hbias. reflexivity. }
  split; [reflexivity|]. split; [reflexivity|].
  split.
  { pose proof (spec_conv_args_length p (conv_buffer_name p s) (spec_buffer_size p)) as Hl.
    rewrite Hbias in Hl. unfold spec_conv_args in Hl |- *.
    cbn [tl]. cbn [List.length] in Hl. lia. }
  intros args' s2 Hv.
  apply Rewrite_recognized with (s1 := conv_lowered target_ p gv s); try assumption.
  rewrite Hk, EmitComposite_conv2d. apply EmitConv2D_pattern.
Qed.

(* ================================================================== *)
(** ** Softmax *)

Lemma softmax_beta_multiplier_spec (input_scale : float) :
  softmax_beta_multiplier input_scale = spec_beta_multiplier input_scale.
Proof. reflexivity. Qed.

(** Within the defined shift counts [diff_min] is the negated shift of
    [31 << 26]. *)
Lemma softmax_diff_min_spec (shift : Z) :
  0 <= shift < 32 -> softmax_diff_min shift = Some (spec_diff_min shift).
Proof.
  intros H. unfold softmax_diff_min, spec_diff_min, Int32.shr.
  replace ((0 <=? shift) && (shift <? 32)) with true
    by (symmetry; apply andb_true_iff; split; [apply Z.leb_le | apply Z.ltb_lt]; lia).
  change (Int32.shl (Int32.sub (Int32.shl 1 kScaledDiffIntegerBits) 1)
                    (31 - kScaledDiffIntegerBits)) with 2080374784.
  change (Z.shiftl (Z.shiftl 1 5 - 1) (31 - 5)) with 2080374784.
  cbn [obind]. f_equal. unfold Int32.mul.
  rewrite Z.shiftr_div_pow2 by lia.
  assert (0 <= 2080374784 / 2 ^ shift <= 2080374784).
  { split; [apply Z.div_pos; lia|].
    apply Z.div_le_upper_bound; [lia|].
    assert (1 <= 2 ^ shift) by (apply (Z.pow_le_mono_r 2 0 shift); lia). nia. }
  rewrite Int32_wrap_small
    by (unfold Int32.in_range, Int32.min_signed, Int32.max_signed; lia).
  ring.
Qed.

(** Up to a shift of 26 nothing is shifted out, and the sentence as
    written gives the same value. *)
Lemma spec_diff_min_as_written_small (shift : Z) :
  0 <= shift <= 26 -> spec_diff_min_as_written shift = spec_diff_min shift.
Proof.
  intros H. unfold spec_diff_min_as_written, spec_diff_min.
  change (Z.shiftl (Z.shiftl 1 5 - 1) (31 - 5)) with (31 * 2 ^ 26).
  rewrite !Z.shiftr_div_pow2 by lia.
  replace (2 ^ 26) with (2 ^ (26 - shift) * 2 ^ shift)
    by (rewrite <- Z.pow_add_r by lia; f_equal; lia).
  assert (0 < 2 ^ shift) by (apply Z.pow_pos_nonneg; lia).
  rewrite Z.mul_assoc, Z.div_mul by lia.
  rewrite <- Z.mul_opp_l, Z.div_mul by lia. ring.
Qed.

Lemma count_rows_static (t : tir.DataType) (l : list Z) (acc : Z) :
  exists r, count_rows (static_shape t l) acc = Some r
            /\ Int32.wrap r = Int32.wrap (acc * product l).
Proof.
  revert acc.
  induction l as [|v l IH]; intros acc;
    cbn [static_shape map count_rows as_IntImm_value product fold_right].
  - exists acc. split; [reflexivity|]. f_equal. ring.
  - destruct (IH (Int32.mul acc v)) as (r & Hr & Hw).
    exists r. split; [exact Hr|].
    rewrite Hw. unfold Int32.mul. rewrite Int32_wrap_mul_l. f_equal.
    unfold product. ring.
Qed.

Lemma trailing_dim_static (t : tir.DataType) (leading : list Z) (row : Z) :
  let shape := static_shape t (leading ++ [row]) in
  (if (List.length shape =? 0)%nat then None
   else obind (at_ shape (List.length shape - 1)) as_IntImm_value) = Some row
  /\ firstn (List.length shape - 1) shape = static_shape t leading.
Proof.
  unfold static_shape, at_. cbn zeta.
  rewrite map_app, length_app, length_map. cbn [map List.length].
  replace (List.length leading + 1 - 1)%nat with (List.length leading) by lia.
  split.
  - destruct (Nat.eqb_spec (List.length leading + 1) 0); [lia|].
    rewrite nth_error_app2 by (rewrite length_map; lia).
    rewrite length_map, Nat.sub_diag. reflexivity.
  - rewrite firstn_app, length_map, Nat.sub_diag. cbn [firstn].
    rewrite app_nil_r. apply firstn_all2. rewrite length_map. lia.
Qed.

(** The lowering of a softmax composite whose shift count is defined. *)
Lemma EmitSoftMax_pattern (target_ : tir.Target) (R : float -> Z * Z) (p : SoftmaxPattern)
    (gv : relay.GlobalVarNode) (s : PassState) (diff_min : Z) :
  softmax_diff_min (snd (R (softmax_beta_multiplier (softmax_scale p)))) = Some diff_min ->
  EmitSoftMax target_ R gv (softmax_pattern p) s =
  Some (tt, registered target_ s (relay.name_hint gv) [softmax_in_var; softmax_out_var]
              (extern_call
                 (spec_softmax_args (product (softmax_leading p)) (softmax_row p)
                    (fst (R (softmax_beta_multiplier (softmax_scale p))))
                    (snd (R (softmax_beta_multiplier (softmax_scale p))))
                    diff_min))
              (context_buffer_id_ s)).
Proof.
  intros Hd.
  destruct p as [scale zp oscale ozp t leading row].
  unfold EmitSoftMax, softmax_pattern, softmax_shape, tensor in *.
  cbn [softmax_scale softmax_zero_point softmax_output_scale softmax_output_zero_point
       softmax_index_type softmax_leading softmax_row] in *.
  destruct (trailing_dim_static t leading row) as [Hrow Hlead].
  destruct (count_rows_static t leading 1) as (r & Hr & Hw).
  remember (static_shape t (leading ++ [row])) as shape eqn:Hshape.
  cbn -[softmax_diff_min softmax_beta_multiplier ToArg count_rows firstn List.length Nat.eqb].
  unfold bind. rewrite Hrow, Hlead, Hr, Hd.
  cbn -[softmax_beta_multiplier ToArg].
  unfold registered, extern_call, spec_softmax_args.
  rewrite ToArg_wrap.
  replace (ToArg r) with (ToArg (product leading))
    by (unfold ToArg; rewrite Hw, Z.mul_1_l; reflexivity).
  reflexivity.
Qed.

Lemma registered_module (target_ : tir.Target) (s : PassState) (name : string)
    (params : list tir.Var) (body : tir.Stmt) (next_id : Z) :
  ir_module_ (registered target_ s name params body next_id) =
  ir_module_ s ++
    [(name, PrimFunc (tir.mkPrimFunc params body (tir.mkDictAttrs name target_ true)))].
Proof. reflexivity. Qed.

Lemma spec_softmax_args_calls (num_rows row_size mult shift diff_min : Z) :
  tir.stmt_extern_calls
    (extern_call (spec_softmax_args num_rows row_size mult shift diff_min))
  = [spec_softmax_args num_rows row_size mult shift diff_min].
Proof. reflexivity. Qed.

(** C4 (amended): for every softmax lowering with dequantize scale [s],
    [beta_multiplier = min(1.0 * s * 2^(31-5), 2^31 - 1)] is fed through
    the multiplier/shift routine to obtain [(multiplier, shift)], and,
    for a shift in [0, 32), [diff_min = -((((1 << 5) - 1) << (31 - 5))
    >> shift)]: the shift is applied before the negation. Up to a shift
    of 26 this is also the value of the sentence as written. The
    constants are [kScaledDiffIntegerBits = 5], [kInputBits = 5],
    [beta = 1.0]. *)
Theorem EmitSoftMax_fixed_point (target_ : tir.Target) (R : float -> Z * Z)
    (p : SoftmaxPattern) (gv : relay.GlobalVarNode) (s : PassState) :
  let beta_multiplier := spec_beta_multiplier (softmax_scale p) in
  let multiplier := fst (R beta_multiplier) in
  let shift := snd (R beta_multiplier) in
  0 <= shift < 32 ->
  exists (s1 : PassState) (unit : tir.PrimFunc) (args : list tir.PrimExpr),
    EmitSoftMax target_ R gv (softmax_pattern p) s = Some (tt, s1)
    /\ ir_module_ s1 = ir_module_ s ++ [(relay.name_hint gv, PrimFunc unit)]
    /\ tir.stmt_extern_calls (tir.body unit) = [args]
    /\ firstn 3 (skipn 4 args) =
         [ToArg multiplier; ToArg shift;
          ToArg (- (Z.shiftr (Z.shiftl (Z.shiftl 1 5 - 1) (31 - 5)) shift))]
    /\ (shift <= 26 ->
        spec_diff_min_as_written shift
        = - (Z.shiftr (Z.shiftl (Z.shiftl 1 5 - 1) (31 - 5)) shift))
    /\ kScaledDiffIntegerBits = 5 /\ kInputBits = 5 /\ kBeta = 1%float.
Proof.
  intros beta_multiplier multiplier shift Hshift.
  pose proof (softmax_diff_min_spec shift Hshift) as Hd.
  subst multiplier shift beta_multiplier.
  rewrite <- softmax_beta_multiplier_spec in *.
  eexists. eexists. eexists.
  split; [apply (EmitSoftMax_pattern target_ R p gv s _ Hd)|].
  split; [apply registered_module|].
  split; [apply spec_softmax_args_calls|].
  split; [reflexivity|].
  split; [|repeat split].
  intros Hle. apply spec_diff_min_as_written_small. lia.
Qed.

(** C5: for every softmax lowering the external-call argument list is
    exactly [routine name literal, input handle, row count, row size,
    fixed-point multiplier, shift, diff-min, output handle], where the
    row size is the trailing axis of the output shape and the row count
    is the product of all preceding axes. *)
Theorem EmitSoftMax_arguments (target_ : tir.Target) (R : float -> Z * Z)
    (p : SoftmaxPattern) (gv : relay.GlobalVarNode) (s : PassState) (diff_min : Z) :
  let beta_multiplier := softmax_beta_multiplier (softmax_scale p) in
  softmax_diff_min (snd (R beta_multiplier)) = Some diff_min ->
  exists (s1 : PassState) (unit : tir.PrimFunc),
    EmitSoftMax target_ R gv (softmax_pattern p) s = Some (tt, s1)
    /\ ir_module_ s1 = ir_module_ s ++ [(relay.name_hint gv, PrimFunc unit)]
    /\ tir.stmt_extern_calls (tir.body unit) =
         [[tir.StringImm "arm_softmax_s8";
           tir.VarRef softmax_in_var;
           ToArg (product (softmax_leading p));
           ToArg (softmax_row p);
           ToArg (fst (R beta_multiplier));
           ToArg (snd (R beta_multiplier));
           ToArg diff_min;
           tir.VarRef softmax_out_var]].
Proof.
  intros beta_multiplier Hd.
  eexists. eexists.
  split; [apply (EmitSoftMax_pattern target_ R p gv s _ Hd)|].
  split; [apply registered_module|].
  apply spec_softmax_args_calls.
Qed.

(* ================================================================== *)
(** ** Elementwise multiply and add *)

Lemma fold_mul_expr_static (t : tir.DataType) (rest : list Z) (acc : Z) :
  fold_left mul_expr (static_shape t rest) (tir.IntImm t acc)
  = tir.IntImm t (acc * product rest).
Proof.
  revert acc. induction rest as [|d rest IH]; intros acc; cbn.
  - f_equal. ring.
  - rewrite IH. f_equal. unfold product. ring.
Qed.

(** The size of a static tensor type is the product of its dimensions. *)
Lemma TensorType_Size_static (t : tir.DataType) (dims : list Z) :
  TensorType_Size (static_shape t dims) = element_count t dims.
Proof.
  unfold element_count. destruct dims as [|d rest]; [reflexivity|].
  cbn [static_shape map TensorType_Size].
  apply (fold_mul_expr_static t rest d).
Qed.

Lemma EmitMul_pattern (target_ : tir.Target) (R : float -> Z * Z) (op_name : string)
    (p : BinaryPattern) (gv : relay.GlobalVarNode) (s : PassState) :
  EmitMul target_ R gv (binary_pattern op_name p) s =
  Some (tt, registered target_ s (relay.name_hint gv)
              [binary_input_0; binary_input_1; binary_output]
              (extern_call (spec_mul_args R p)) (context_buffer_id_ s)).
Proof.
  destruct p as [s0 z0 s1 z1 so zo t dims].
  unfold EmitMul, binary_pattern, tensor, spec_mul_args, spec_mul_ratio.
  cbn [input_0_scale input_0_zero_point input_1_scale input_1_zero_point output_scale
       output_zero_point binary_index_type binary_shape].
  cbn -[ToArg Int32.neg Int32.wrap TensorType_Size static_shape PrimFloat.mul PrimFloat.div].
  rewrite !ToArg_neg_wrap, !ToArg_wrap, TensorType_Size_static.
  reflexivity.
Qed.

Lemma EmitAdd_pattern (target_ : tir.Target) (R : float -> Z * Z) (op_name : string)
    (p : BinaryPattern) (gv : relay.GlobalVarNode) (s : PassState) :
  EmitAdd target_ R gv (binary_pattern op_name p) s =
  Some (tt, registered target_ s (relay.name_hint gv)
              [binary_input_0; binary_input_1; binary_output]
              (extern_call (spec_add_args R p)) (context_buffer_id_ s)).
Proof.
  destruct p as [s0 z0 s1 z1 so zo t dims].
  unfold EmitAdd, binary_pattern, tensor, spec_add_args, spec_add_ratio_0, spec_add_ratio_1,
    spec_add_ratio_out, spec_twice_max.
  cbn [input_0_scale input_0_zero_point input_1_scale input_1_zero_point output_scale
       output_zero_point binary_index_type binary_shape].
  cbn -[ToArg Int32.neg Int32.wrap TensorType_Size static_shape PrimFloat.mul PrimFloat.div
        std_max double_of_int].
  rewrite !ToArg_neg_wrap, !ToArg_wrap, TensorType_Size_static.
  reflexivity.
Qed.


Lemma spec_add_args_calls (R : float -> Z * Z) (p : BinaryPattern) :
  tir.stmt_extern_calls (extern_call (spec_add_args R p)) = [spec_add_args R p].
Proof. reflexivity. Qed.

(** C6: for every elementwise-add lowering the three fixed-point pairs
    are the results of the multiplier/shift routine on the three ratios
    [input0_scale / (2 * max(input0_scale, input1_scale))],
    [input1_scale / (2 * max(input0_scale, input1_scale))] and
    [(2 * max(input0_scale, input1_scale)) / (2^20 * output_scale)],
    each resolved on its own, and the left-shift argument is 20. *)
Theorem EmitAdd_three_ratios (target_ : tir.Target) (R : float -> Z * Z) (op_name : string)
    (p : BinaryPattern) (gv : relay.GlobalVarNode) (s : PassState) :
  let twice_max := PrimFloat.mul 2%float (std_max (input_0_scale p) (input_1_scale p)) in
  let ratio_0 := PrimFloat.div (input_0_scale p) twice_max in
  let ratio_1 := PrimFloat.div (input_1_scale p) twice_max in
  let ratio_out :=
    PrimFloat.div twice_max (PrimFloat.mul (double_of_int (2 ^ 20)) (output_scale p)) in
  exists (s1 : PassState) (unit : tir.PrimFunc) (args : list tir.PrimExpr),
    EmitAdd target_ R gv (binary_pattern op_name p) s = Some (tt, s1)
    /\ ir_module_ s1 = ir_module_ s ++ [(relay.name_hint gv, PrimFunc unit)]
    /\ tir.stmt_extern_calls (tir.body unit) = [args]
    /\ firstn 2 (skipn 4 args) = [ToArg (fst (R ratio_0)); ToArg (snd (R ratio_0))]
    /\ firstn 2 (skipn 7 args) = [ToArg (fst (R ratio_1)); ToArg (snd (R ratio_1))]
    /\ nth_error args 9 = Some (tir.IntImm (tir.Int 32) 20)
    /\ firstn 2 (skipn 12 args) = [ToArg (fst (R ratio_out)); ToArg (snd (R ratio_out))].
Proof.
  intros twice_max ratio_0 ratio_1 ratio_out.
  eexists. eexists. exists (spec_add_args R p).
  split; [apply EmitAdd_pattern|].
  split; [apply registered_module|].
  split; [apply spec_add_args_calls|].
  repeat split.
Qed.


(* ================================================================== *)
(** ** Every emitted unit *)

Lemma bind_inv {A B : Type} (c : M A) (k : A -> M B) (s : PassState) (r : B * PassState) :
  bind c k s = Some r -> exists a s', c s = Some (a, s') /\ k a s' = Some r.
Proof.
  unfold bind. destruct (c s) as [[a s']|]; [|discriminate].
  intros H. exists a, s'. split; [reflexivity | exact H].
Qed.

Lemma deref_inv {A : Type} (o : option A) (s s' : PassState) (a : A) :
  deref o s = Some (a, s') -> o = Some a /\ s' = s.
Proof.
  destruct o; cbn; [|discriminate]. unfold ret. intros H. injection H as -> ->. auto.
Qed.

(** One step of a successful run: [x <- deref o ;; k]. *)
Tactic Notation "inv_deref" hyp(H) "as" ident(a) ident(Ha) :=
  let s := fresh "s" in
  apply bind_inv in H; destruct H as (a & s & Ha & H);
  apply deref_inv in Ha; destruct Ha as [Ha ->].

Lemma CMSISNNDimensions_inv (shape dims : list tir.PrimExpr) :
  CMSISNNDimensions shape = Some dims ->
  exists d0 d1 d2 d3, dims = [ToArg d0; ToArg d1; ToArg d2; ToArg d3].
Proof.
  unfold CMSISNNDimensions. destruct (List.length shape =? 4)%nat; [|discriminate].
  destruct (obind (at_ shape 0) get_const_int) as [d0|]; [|discriminate].
  destruct (obind (at_ shape 1) get_const_int) as [d1|]; [|discriminate].
  destruct (obind (at_ shape 2) get_const_int) as [d2|]; [|discriminate].
  destruct (obind (at_ shape 3) get_const_int) as [d3|]; [|discriminate].
  cbn. intros H. injection H as <-. now exists d0, d1, d2, d3.
Qed.

(** Two steps: a shape is read and turned into its four dimensions. *)
Tactic Notation "inv_dims" hyp(H) "as" ident(d0) ident(d1) ident(d2) ident(d3) :=
  let shape := fresh "shape" in
  let dims := fresh "dims" in
  let Hs := fresh "Hs" in
  let Hd := fresh "Hd" in
  inv_deref H as shape Hs; inv_deref H as dims Hd;
  apply CMSISNNDimensions_inv in Hd; destruct Hd as (d0 & d1 & d2 & d3 & ->).

(** Whatever expression [EmitConv2D] accepts, it registers one unit of
    the convolution form. *)
Lemma EmitConv2D_inv (target_ : tir.Target)
    (gv : relay.GlobalVarNode) (expr : relay.Expr) (s s1 : PassState) :
  EmitConv2D target_ gv expr s = Some (tt, s1) ->
  exists has_bias buffer_size scalars dims,
    List.length scalars = 10%nat /\ List.length dims = 16%nat /\
    s1 = conv_unit_state target_ s (relay.name_hint gv) has_bias buffer_size scalars dims.
Proof.
  unfold EmitConv2D. intros H.
  inv_deref H as final_call Hfinal. inv_deref H as final_op Hop.
  apply bind_inv in H. destruct H as ([clip_call requantize_call] & s' & Hclip & H).
  assert (s' = s) as ->.
  { destruct (String.eqb final_op "clip").
    - inv_deref Hclip as r Hr. now injection Hclip.
    - now injection Hclip. }
  clear Hclip.
  inv_deref H as requantize_input Hri. inv_deref H as requantize_input_op Hrio.
  apply bind_inv in H. destruct H as ([bias_add_call conv2d_call] & s' & Hbias & H).
  assert (s' = s) as ->.
  { destruct (String.eqb requantize_input_op "nn.bias_add").
    - inv_deref Hbias as r Hr. now injection Hbias.
    - now injection Hbias. }
  clear Hbias.
  apply bind_inv in H. destruct H as ([[strides padding] dilation] & s' & Hattrs & H).
  apply deref_inv in Hattrs. destruct Hattrs as [_ ->].
  inv_deref H as izp Hizp. inv_deref H as ozp Hozp.
  inv_deref H as sw Hsw. inv_deref H as sh Hsh.
  inv_deref H as pw Hpw. inv_deref H as ph Hph.
  inv_deref H as dw Hdw. inv_deref H as dh Hdh.
  apply bind_inv in H. destruct H as ([clip_min clip_max] & s' & Hbounds & H).
  assert (s' = s) as ->.
  { destruct clip_call.
    - apply bind_inv in Hbounds. destruct Hbounds as ([lo hi] & s'' & Hb & Hbounds).
      apply deref_inv in Hb. destruct Hb as [_ ->]. now injection Hbounds.
    - now injection Hbounds. }
  clear Hbounds.
  inv_dims H as i0 i1 i2 i3.
  inv_dims H as f0 f1 f2 f3.
  inv_deref H as oc Hoc.
  inv_deref H as bdims Hbd.
  apply CMSISNNDimensions_inv in Hbd. destruct Hbd as (b0 & b1 & b2 & b3 & ->).
  inv_dims H as o0 o1 o2 o3.
  inv_deref H as ic Hic. inv_deref H as fw Hfw. inv_deref H as fh Hfh.
  match type of H with context [UInt64.wrap ?z] => set (size := UInt64.wrap z) in * end.
  apply bind_inv in H. destruct H as (name & s' & Hname & H).
  exists (match bias_add_call with Some _ => true | None => false end), size.
  exists [Int32.neg izp; ozp; sw; sh; pw; ph; dw; dh; clip_min; clip_max].
  exists [i0; i1; i2; i3; f0; f1; f2; f3; b0; b1; b2; b3; o0; o1; o2; o3].
  split; [reflexivity|]. split; [reflexivity|].
  unfold conv_unit_state, conv_unit_body_of, CreatePrimFuncForExtern, ir_module_Add,
    registered, with_scratch, extern_call, conv_args, conv_tensor_args, conv_parameters in *.
  destruct (size =? 0).
  - injection Hname as <- <-.
    destruct bias_add_call; cbn -[ToArg Int32.wrap Z.eqb] in H |- *;
      destruct (Int32.wrap size =? 0); injection H as <-; reflexivity.
  - apply bind_inv in Hname. destruct Hname as (id & s'' & Hid & Hname).
    injection Hid as <- <-. injection Hname as <- <-.
    destruct bias_add_call; cbn -[ToArg Int32.wrap Z.eqb String.append to_string] in H |- *;
      destruct (Int32.wrap size =? 0); injection H as <-; reflexivity.
Qed.

Lemma EmitSoftMax_inv (target_ : tir.Target) (R : float -> Z * Z)
    (gv : relay.GlobalVarNode) (expr : relay.Expr) (s s1 : PassState) :
  EmitSoftMax target_ R gv expr s = Some (tt, s1) ->
  exists num_rows row_size mult shift diff_min,
    s1 = registered target_ s (relay.name_hint gv) [softmax_in_var; softmax_out_var]
           (extern_call (spec_softmax_args num_rows row_size mult shift diff_min))
           (context_buffer_id_ s).
Proof.
  unfold EmitSoftMax. intros H.
  inv_deref H as quantize_call Hq. inv_deref H as softmax_call Hs.
  inv_deref H as dequant_call Hd. inv_deref H as quant_scale Hscale.
  inv_deref H as shape Hshape. inv_deref H as row_size Hrow.
  inv_deref H as num_rows Hrows. inv_deref H as diff_min Hdiff.
  unfold CreatePrimFuncForExtern_default, CreatePrimFuncForExtern, ir_module_Add in H.
  cbn -[ToArg] in H. injection H as <-.
  do 5 eexists. reflexivity.
Qed.

Lemma EmitMul_inv (target_ : tir.Target) (R : float -> Z * Z)
    (gv : relay.GlobalVarNode) (expr : relay.Expr) (s s1 : PassState) :
  EmitMul target_ R gv expr s = Some (tt, s1) ->
  exists z0 z1 zo m sh shape,
    s1 = registered target_ s (relay.name_hint gv)
           [binary_input_0; binary_input_1; binary_output]
           (extern_call
              [tir.StringImm "arm_elementwise_mul_s8";
               tir.VarRef binary_input_0; tir.VarRef binary_input_1;
               ToArg z0; ToArg z1; tir.VarRef binary_output;
               ToArg zo; ToArg m; ToArg sh; ToArg (-128); ToArg 127;
               TensorType_Size shape])
           (context_buffer_id_ s).
Proof.
  unfold EmitMul. intros H.
  inv_deref H as mul_call Hcall.
  inv_deref H as scale0 Hscale0. inv_deref H as z0 Hz0.
  inv_deref H as scale1 Hscale1. inv_deref H as z1 Hz1.
  inv_deref H as scale_out Hscale_out. inv_deref H as zo Hzo.
  inv_deref H as shape Hshape.
  unfold CreatePrimFuncForExtern_default, CreatePrimFuncForExtern, ir_module_Add in H.
  cbn -[ToArg TensorType_Size] in H. injection H as <-.
  do 6 eexists. reflexivity.
Qed.

Lemma EmitAdd_inv (target_ : tir.Target) (R : float -> Z * Z)
    (gv : relay.GlobalVarNode) (expr : relay.Expr) (s s1 : PassState) :
  EmitAdd target_ R gv expr s = Some (tt, s1) ->
  exists z0 m0 sh0 z1 m1 sh1 zo mo sho shape,
    s1 = registered target_ s (relay.name_hint gv)
           [binary_input_0; binary_input_1; binary_output]
           (extern_call
              [tir.StringImm "arm_elementwise_add_s8";
               tir.VarRef binary_input_0; tir.VarRef binary_input_1;
               ToArg z0; ToArg m0; ToArg sh0; ToArg z1; ToArg m1; ToArg sh1;
               ToArg 20; tir.VarRef binary_output;
               ToArg zo; ToArg mo; ToArg sho; ToArg (-128); ToArg 127;
               TensorType_Size shape])
           (context_buffer_id_ s).
Proof.
  unfold EmitAdd. intros H.
  inv_deref H as add_call Hcall.
  inv_deref H as scale0 Hscale0. inv_deref H as z0 Hz0.
  inv_deref H as scale1 Hscale1. inv_deref H as z1 Hz1.
  inv_deref H as scale_out Hscale_out. inv_deref H as zo Hzo.
  inv_deref H as shape Hshape.
  unfold CreatePrimFuncForExtern_default, CreatePrimFuncForExtern, ir_module_Add in H.
  cbn -[ToArg TensorType_Size Int32.shl double_of_int std_max] in H. injection H as <-.
  do 10 eexists. reflexivity.
Qed.

(* ================================================================== *)
(** ** Signatures *)

Lemma extern_calls_literals (l : list Z) : flat_map tir.extern_calls (map ToArg l) = [].
Proof. induction l as [|z l IH]; [reflexivity | exact IH]. Qed.

Lemma handles_literals (l : list Z) : tir.handles (map ToArg l) = [].
Proof. induction l as [|z l IH]; [reflexivity | exact IH]. Qed.

Lemma conv_args_no_nested_call (has_bias : bool) (name : string) (size : Z)
    (scalars dims : list Z) :
  flat_map tir.extern_calls (conv_args has_bias name size scalars dims) = [].
Proof.
  unfold conv_args, conv_tensor_args.
  destruct has_bias; cbn -[ToArg map];
    rewrite flat_map_app, !extern_calls_literals; reflexivity.
Qed.

Lemma conv_args_calls (has_bias : bool) (name : string) (size : Z) (scalars dims : list Z) :
  tir.stmt_extern_calls (extern_call (conv_args has_bias name size scalars dims))
  = [conv_args has_bias name size scalars dims].
Proof.
  unfold extern_call. cbn [tir.stmt_extern_calls tir.extern_calls].
  rewrite conv_args_no_nested_call. reflexivity.
Qed.

Lemma conv_unit_body_of_calls (target_ : tir.Target) (s : PassState) (has_bias : bool)
    (size : Z) (scalars dims : list Z) :
  exists name,
    tir.stmt_extern_calls (conv_unit_body_of target_ s has_bias size scalars dims)
    = [conv_args has_bias name size scalars dims].
Proof.
  unfold conv_unit_body_of. eexists.
  destruct (Int32.wrap size =? 0); [apply conv_args_calls|].
  unfold with_scratch. cbn [tir.stmt_extern_calls tir.extern_calls flat_map app].
  apply conv_args_calls.
Qed.

Lemma conv_args_handles (has_bias : bool) (name : string) (size : Z) (scalars dims : list Z) :
  tir.handles (conv_args has_bias name size scalars dims)
  = passed_parameters (conv_parameters has_bias).
Proof.
  unfold conv_args, conv_tensor_args, conv_parameters, tir.handles.
  destruct has_bias; cbn -[ToArg map];
    rewrite flat_map_app; fold (tir.handles (map ToArg scalars));
    fold (tir.handles (map ToArg dims)); rewrite !handles_literals; reflexivity.
Qed.

Lemma conv_unit_body_of_allocated (target_ : tir.Target) (s : PassState) (has_bias : bool)
    (size : Z) (scalars dims : list Z) (v : tir.Var) :
  In v (allocated_vars (conv_unit_body_of target_ s has_bias size scalars dims)) ->
  ~ In v (conv_parameters has_bias).
Proof.
  unfold allocated_vars, conv_unit_body_of.
  destruct (Int32.wrap size =? 0); cbn; [tauto|].
  intros [<-|[]]. unfold conv_parameters.
  destruct has_bias; cbn; intros H;
    repeat (destruct H as [H|H]; [discriminate H|]); exact H.
Qed.

Lemma conv_unit_handles (p : Conv2DPattern) (name : string) (size : Z) :
  tir.handles (spec_conv_args p name size) = passed_parameters (conv_signature p).
Proof.
  unfold spec_conv_args, spec_conv_tensor_args, conv_signature.
  destruct (conv_bias p); reflexivity.
Qed.

Lemma conv_unit_allocated (target_ : tir.Target) (p : Conv2DPattern) (s : PassState)
    (v : tir.Var) :
  In v (allocated_vars (conv_unit_body target_ p s)) -> ~ In v (conv_signature p).
Proof.
  unfold allocated_vars. rewrite conv_unit_body_allocations.
  destruct (Int32.wrap (code_buffer_size p) =? 0); cbn; [tauto|].
  intros [<-|[]]. unfold conv_signature.
  destruct (conv_bias p); cbn; intros H;
    repeat (destruct H as [H|H]; [discriminate H|]); exact H.
Qed.

(** Each emitter that succeeds registers one unit under the name of the
    global variable it was given. *)
Lemma Emit_registers (target_ : tir.Target) (R : float -> Z * Z)
    (gv : relay.GlobalVarNode) (expr : relay.Expr) (s s1 : PassState) :
  EmitSoftMax target_ R gv expr s = Some (tt, s1)
  \/ EmitMul target_ R gv expr s = Some (tt, s1)
  \/ EmitAdd target_ R gv expr s = Some (tt, s1)
  \/ EmitConv2D target_ gv expr s = Some (tt, s1) ->
  exists unit, ir_module_ s1 = ir_module_ s ++ [(relay.name_hint gv, PrimFunc unit)].
Proof.
  intros [H|[H|[H|H]]].
  - apply EmitSoftMax_inv in H. destruct H as (? & ? & ? & ? & ? & ->).
    eexists. apply registered_module.
  - apply EmitMul_inv in H. destruct H as (? & ? & ? & ? & ? & ? & ->).
    eexists. apply registered_module.
  - apply EmitAdd_inv in H. destruct H as (? & ? & ? & ? & ? & ? & ? & ? & ? & ? & ->).
    eexists. apply registered_module.
  - apply EmitConv2D_inv in H. destruct H as (? & ? & ? & ? & _ & _ & ->).
    eexists. apply registered_module.
Qed.

(** For a known composite name [EmitComposite] is the emitter of that
    name. *)
Lemma EmitComposite_known (target_ : tir.Target) (R : float -> Z * Z) (comp_name : string)
    (gv : relay.GlobalVarNode) (body : relay.Expr) (s s1 : PassState) :
  In comp_name known_composites ->
  EmitComposite target_ R (Some comp_name) gv body s = Some (tt, s1) ->
  EmitSoftMax target_ R gv body s = Some (tt, s1)
  \/ EmitMul target_ R gv body s = Some (tt, s1)
  \/ EmitAdd target_ R gv body s = Some (tt, s1)
  \/ EmitConv2D target_ gv body s = Some (tt, s1).
Proof.
  intros [<-|[<-|[<-|[<-|[]]]]];
    unfold EmitComposite, when;
    cbn -[EmitSoftMax EmitMul EmitAdd EmitConv2D]; unfold bind, ret; intros H.
  - left. destruct (EmitSoftMax target_ R gv body s) as [[[] s']|]; [exact H | discriminate].
  - right; left. destruct (EmitMul target_ R gv body s) as [[[] s']|]; [exact H | discriminate].
  - right; right; left.
    destruct (EmitAdd target_ R gv body s) as [[[] s']|]; [exact H | discriminate].
  - right; right; right. exact H.
Qed.


(** C8 (amended): for every emitted unit the handle arguments of the
    external call are formal parameters of the unit, in the order of the
    signature, and neither a literal constant nor the scratch buffer is
    a formal parameter. For the softmax, multiply and add units the
    handle arguments are the whole signature. A convolution unit has
    two more formal parameters, [filter_scale] and [input_scale], which
    are not arguments of the external call: its handle arguments are the
    signature without these two. The first four conjuncts are about
    the composites of each pattern, which are all lowered; the last two
    about every expression the convolution and the softmax emitter
    accept. *)
Theorem Emit_signature_and_handles (target_ : tir.Target) (R : float -> Z * Z) :
  (forall (conv : Conv2DPattern) (gv : relay.GlobalVarNode) (s : PassState),
      exists (s1 : PassState) (unit : tir.PrimFunc) (args : list tir.PrimExpr),
        EmitConv2D target_ gv (conv2d_pattern conv) s = Some (tt, s1)
        /\ ir_module_ s1 = ir_module_ s ++ [(relay.name_hint gv, PrimFunc unit)]
        /\ tir.stmt_extern_calls (tir.body unit) = [args]
        /\ tir.params unit =
             [conv_input; conv_filter; conv_multiplier; conv_filter_scale]
               ++ (if conv_bias conv then [conv_bias_var] else [])
               ++ [conv_input_scale_var; conv_shift; conv_output]
        /\ tir.handles args = passed_parameters (tir.params unit)
        /\ (forall v, In v (allocated_vars (tir.body unit)) -> ~ In v (tir.params unit)))
  /\ (forall (softmax : SoftmaxPattern) (gv : relay.GlobalVarNode) (s : PassState),
         0 <= snd (R (spec_beta_multiplier (softmax_scale softmax))) < 32 ->
         exists (s1 : PassState) (unit : tir.PrimFunc) (args : list tir.PrimExpr),
           EmitSoftMax target_ R gv (softmax_pattern softmax) s = Some (tt, s1)
           /\ ir_module_ s1 = ir_module_ s ++ [(relay.name_hint gv, PrimFunc unit)]
           /\ tir.stmt_extern_calls (tir.body unit) = [args]
           /\ tir.handles args = tir.params unit
           /\ allocated_vars (tir.body unit) = [])
  /\ (forall (op_name : string) (binary : BinaryPattern) (gv : relay.GlobalVarNode)
         (s : PassState),
         exists (s1 : PassState) (unit : tir.PrimFunc) (args : list tir.PrimExpr),
           EmitMul target_ R gv (binary_pattern op_name binary) s = Some (tt, s1)
           /\ ir_module_ s1 = ir_module_ s ++ [(relay.name_hint gv, PrimFunc unit)]
           /\ tir.stmt_extern_calls (tir.body unit) = [args]
           /\ tir.handles args = tir.params unit
           /\ allocated_vars (tir.body unit) = [])
  /\ (forall (op_name : string) (binary : BinaryPattern) (gv : relay.GlobalVarNode)
         (s : PassState),
         exists (s1 : PassState) (unit : tir.PrimFunc) (args : list tir.PrimExpr),
           EmitAdd target_ R gv (binary_pattern op_name binary) s = Some (tt, s1)
           /\ ir_module_ s1 = ir_module_ s ++ [(relay.name_hint gv, PrimFunc unit)]
           /\ tir.stmt_extern_calls (tir.body unit) = [args]
           /\ tir.handles args = tir.params unit
           /\ allocated_vars (tir.body unit) = [])
  /\ (forall (gv : relay.GlobalVarNode) (expr : relay.Expr) (s s1 : PassState),
         EmitConv2D target_ gv expr s = Some (tt, s1) ->
         exists (unit : tir.PrimFunc) (args : list tir.PrimExpr),
           ir_module_ s1 = ir_module_ s ++ [(relay.name_hint gv, PrimFunc unit)]
           /\ tir.stmt_extern_calls (tir.body unit) = [args]
           /\ In conv_filter_scale (tir.params unit)
           /\ In conv_input_scale_var (tir.params unit)
           /\ tir.handles args = passed_parameters (tir.params unit)
           /\ (forall v, In v (allocated_vars (tir.body unit)) -> ~ In v (tir.params unit)))
  /\ (forall (gv : relay.GlobalVarNode) (expr : relay.Expr) (s s1 : PassState),
         EmitSoftMax target_ R gv expr s = Some (tt, s1) ->
         exists (unit : tir.PrimFunc) (args : list tir.PrimExpr),
           ir_module_ s1 = ir_module_ s ++ [(relay.name_hint gv, PrimFunc unit)]
           /\ tir.stmt_extern_calls (tir.body unit) = [args]
           /\ tir.handles args = tir.params unit
           /\ allocated_vars (tir.body unit) = []).
Proof.
  split; [|split; [|split; [|split; [|split]]]].
  - intros conv gv s.
    exists (conv_lowered target_ conv gv s). eexists.
    exists (spec_conv_args conv (conv_buffer_name conv s) (spec_buffer_size conv)).
    split; [apply EmitConv2D_pattern|].
    split; [apply conv_lowered_module|].
    split; [apply conv_unit_body_calls|].
    split; [reflexivity|].
    split; [apply conv_unit_handles|].
    apply conv_unit_allocated.
  - intros softmax gv s Hshift.
    pose proof (softmax_diff_min_spec _ Hshift) as Hd.
    rewrite <- softmax_beta_multiplier_spec in Hd.
    eexists. eexists. eexists.
    split; [apply (EmitSoftMax_pattern target_ R softmax gv s _ Hd)|].
    split; [apply registered_module|].
    repeat split.
  - intros op_name binary gv s. eexists. eexists. eexists.
    split; [apply EmitMul_pattern|].
    split; [apply registered_module|].
    repeat split.
  - intros op_name binary gv s. eexists. eexists. eexists.
    split; [apply EmitAdd_pattern|].
    split; [apply registered_module|].
    repeat split.
  - intros gv expr s s1 H.
    apply EmitConv2D_inv in H.
    destruct H as (has_bias & size & scalars & dims & _ & _ & ->).
    destruct (conv_unit_body_of_calls target_ s has_bias size scalars dims) as [name Hcalls].
    eexists. exists (conv_args has_bias name size scalars dims).
    split; [apply registered_module|].
    cbn [tir.body tir.params].
    split; [exact Hcalls|].
    split; [destruct has_bias; cbn; tauto|].
    split; [destruct has_bias; cbn; tauto|].
    split; [apply conv_args_handles|].
    apply conv_unit_body_of_allocated.
  - intros gv expr s s1 H.
    apply EmitSoftMax_inv in H. destruct H as (? & ? & ? & ? & ? & ->).
    eexists. eexists. split; [apply registered_module|].
    repeat split.
Qed.

(** C9 (amended): a call site whose callee is not a function tagged
    for this code generator is returned unchanged, and so is the state;
    a call site whose callee is tagged becomes a call to the global
    variable named by the callee's global symbol, with the attributes,
    the type arguments and the span of the original call and with every
    argument visited, in order, after the unit was emitted; and for each
    of the four composite names a unit is registered under that very
    name. *)
Theorem Rewrite_call_sites (target_ : tir.Target) (R : float -> Z * Z)
    (V : relay.Expr -> M relay.Expr) (pre : relay.CallNode) :
  (forall (post : relay.Expr) (s : PassState),
      is_cmsisnn_call post = false ->
      Rewrite_ target_ R V pre post s = Some (post, s))
  /\ (forall (fparams cparams iargs args args' : list relay.Expr)
         (cbody : relay.Expr) (frt crt : option relay.Ty)
         (ftp ctp itargs targs : list relay.Ty)
         (fattrs cattrs : relay.FuncAttrs) (iattrs attrs : relay.Attrs)
         (fspan cspan ispan span : option relay.Span) (fty ity ty : option relay.Ty)
         (cty : relay.Ty) (symbol : string) (s s1 s2 : PassState),
         relay.Compiler fattrs = Some "cmsis-nn" ->
         relay.global_symbol fattrs = Some symbol ->
         EmitComposite target_ R (relay.Composite cattrs)
                       (relay.mkGlobalVar symbol (Some cty)) cbody s = Some (tt, s1) ->
         mapM V args s1 = Some (args', s2) ->
         Rewrite_ target_ R V pre
           (relay.Call
              (relay.Function fparams
                 (relay.Call (relay.Function cparams cbody crt ctp cattrs cspan (Some cty))
                             iargs iattrs itargs ispan ity)
                 frt ftp fattrs fspan fty)
              args attrs targs span ty) s
         = Some (relay.Call (relay.GlobalVar (relay.mkGlobalVar symbol (Some cty)))
                            args' attrs targs span None, s2))
  /\ (forall (comp_name symbol : string) (cty : relay.Ty) (cbody : relay.Expr)
         (s s1 : PassState),
         In comp_name
            ["cmsis-nn.qnn_softmax"; "cmsis-nn.qnn_mul"; "cmsis-nn.qnn_add";
             "cmsis-nn.qnn_conv2d"] ->
         EmitComposite target_ R (Some comp_name)
                       (relay.mkGlobalVar symbol (Some cty)) cbody s = Some (tt, s1) ->
         exists unit : tir.PrimFunc,
           ir_module_ s1 = ir_module_ s ++ [(symbol, PrimFunc unit)]).
Proof.
  split; [|split].
  - intros post s H. now apply Rewrite_unrecognized.
  - intros. now apply Rewrite_recognized with (s1 := s1).
  - intros comp_name symbol cty cbody s s1 Hin H.
    apply (EmitComposite_known target_ R comp_name _ cbody s s1 Hin) in H.
    apply (Emit_registers target_ R _ cbody s s1) in H. exact H.
Qed.

(* ================================================================== *)
(** ** The statements at the sample inputs *)

(** The full convolution sample: the unit registered as ["f"], its
    single external call of the routine on 34 arguments, and the
    rewritten call site. *)
Lemma Rewrite_full_conv2d_witness :
  exists (unit : tir.PrimFunc) (arguments : list tir.PrimExpr),
    Rewrite_ cmsis_nn_target FixedPointMultiplierShift example_visit example_pre
             example_call_site empty_state
    = Some (relay.Call (relay.GlobalVar (relay.mkGlobalVar "f" (Some example_type)))
                       [example_argument] relay.NullAttrs [] None None,
            mkPassState [("f", PrimFunc unit)] 1)
    /\ tir.stmt_extern_calls (tir.body unit)
       = [tir.StringImm "arm_convolve_wrapper_s8" :: arguments]
    /\ List.length arguments = 34%nat.
Proof.
  destruct (Rewrite_full_conv2d cmsis_nn_target FixedPointMultiplierShift example_visit
              example_pre conv_example (0, 6)
              [relay.Var "input" (tensor (tir.Int 32) [1; 16; 16; 8] "int8")]
              [relay.Var "input" (tensor (tir.Int 32) [1; 16; 16; 8] "int8")]
              [relay.Var "input" (tensor (tir.Int 32) [1; 16; 16; 8] "int8")]
              [example_argument] None None [] [] [] []
              (relay.mkFuncAttrs (Some "cmsis-nn") None (Some "f"))
              (relay.mkFuncAttrs None (Some "cmsis-nn.qnn_conv2d") None)
              relay.NullAttrs relay.NullAttrs None None None None None None None
              example_type "f" empty_state
              eq_refl eq_refl eq_refl eq_refl eq_refl)
    as (s1 & unit & name & arguments & Hemit & Hmodule & Hcalls & _ & _ & _ & Hlen & Hrewrite).
  vm_compute in Hemit. injection Hemit as <-.
  vm_compute in Hmodule. injection Hmodule as <-.
  eexists. exists arguments.
  split; [apply Hrewrite; vm_compute; reflexivity|].
  split; [exact Hcalls | exact Hlen].
Defined.

(** The scratch buffer of the convolution sample: input [(1,16,16,8)],
    filter [(4,3,3,8)], [2 * 8 * 3 * 3 * 2 = 288] bytes. *)
Lemma EmitConv2D_scratch_buffer_witness :
  spec_buffer_size conv_example = 288
  /\ exists (s1 : PassState) (unit : tir.PrimFunc),
       EmitConv2D cmsis_nn_target example_global_var (conv2d_pattern conv_example) empty_state
       = Some (tt, s1)
       /\ tir.allocations (tir.body unit) =
            [(scratch_var "context_buffer_0", tir.Int 8, [tir.IntImm (tir.Int 32) 288])]
       /\ context_buffer_id_ s1 = 1.
Proof.
  split; [reflexivity|].
  destruct (EmitConv2D_scratch_buffer cmsis_nn_target conv_example example_global_var
              empty_state)
    as (s1 & unit & args & Hemit & _ & _ & _ & Hnonzero).
  { unfold Int32.in_range. vm_compute. split; discriminate. }
  destruct Hnonzero as (Halloc & _ & Hid & _); [discriminate|].
  exists s1, unit. split; [exact Hemit|]. split; [exact Halloc | exact Hid].
Defined.

(** A convolution of 1024 input channels under a filter of 1024 by
    1024: the byte count [2 * 1024 * 1024 * 1024 * 2] is [2^32], which
    is not 0, and yet the unit allocates nothing and the size handed to
    the kernel is 0, under the name ["context_buffer_0"]. *)
Lemma EmitConv2D_scratch_buffer_of_2_pow_32_bytes :
  2 * dim3 (conv_input_shape conv_huge_example) * dim1 (conv_filter_shape conv_huge_example)
    * dim2 (conv_filter_shape conv_huge_example) * 2 = 4294967296
  /\ exists (s1 : PassState) (unit : tir.PrimFunc) (args : list tir.PrimExpr),
       EmitConv2D cmsis_nn_target example_global_var (conv2d_pattern conv_huge_example)
                  empty_state = Some (tt, s1)
       /\ ir_module_ s1 = [("f", PrimFunc unit)]
       /\ tir.stmt_extern_calls (tir.body unit) = [args]
       /\ tir.allocations (tir.body unit) = []
       /\ buffer_args args
          = [tir.StringImm "context_buffer_0"; tir.IntImm (tir.Int 32) 0].
Proof.
  split; [reflexivity|].
  eexists. eexists. eexists.
  split; [vm_compute; reflexivity|].
  split; [reflexivity|]. split; [reflexivity|]. split; reflexivity.
Qed.

(** The softmax sample with input scale 1/256: the routine gives the
    shift 19, and [diff_min = -(2080374784 >> 19) = -3968]. *)
Lemma EmitSoftMax_fixed_point_witness :
  FixedPointMultiplierShift (spec_beta_multiplier (softmax_scale softmax_example))
  = (1073741824, 19)
  /\ exists (s1 : PassState) (unit : tir.PrimFunc) (args : list tir.PrimExpr),
       EmitSoftMax cmsis_nn_target FixedPointMultiplierShift example_global_var
                   (softmax_pattern softmax_example) empty_state = Some (tt, s1)
       /\ tir.stmt_extern_calls (tir.body unit) = [args]
       /\ firstn 3 (skipn 4 args) =
            [tir.IntImm (tir.Int 32) 1073741824; tir.IntImm (tir.Int 32) 19;
             tir.IntImm (tir.Int 32) (-3968)].
Proof.
  split; [vm_compute; reflexivity|].
  destruct (EmitSoftMax_fixed_point cmsis_nn_target FixedPointMultiplierShift softmax_example
              example_global_var empty_state)
    as (s1 & unit & args & Hemit & _ & Hcalls & Hargs & _).
  { vm_compute. split; [discriminate | reflexivity]. }
  exists s1, unit, args. split; [exact Hemit|]. split; [exact Hcalls|].
  rewrite Hargs. vm_compute. reflexivity.
Defined.

(** At input scale 1 the routine gives the shift 27: the unit carries
    [diff_min = -(2080374784 >> 27) = -15], while the sentence as
    written, [(-2080374784) >> 27], is [-16]. *)
Lemma EmitSoftMax_diff_min_not_as_written :
  exists (s1 : PassState) (unit : tir.PrimFunc) (args : list tir.PrimExpr),
    EmitSoftMax cmsis_nn_target FixedPointMultiplierShift example_global_var
                (softmax_pattern softmax_unit_scale) empty_state = Some (tt, s1)
    /\ ir_module_ s1 = [("f", PrimFunc unit)]
    /\ tir.stmt_extern_calls (tir.body unit) = [args]
    /\ nth_error args 5 = Some (tir.IntImm (tir.Int 32) 27)
    /\ nth_error args 6 = Some (tir.IntImm (tir.Int 32) (-15))
    /\ spec_diff_min_as_written 27 = -16.
Proof.
  eexists. eexists. eexists.
  split; [vm_compute; reflexivity|].
  repeat split.
Qed.

(** The softmax sample over the output shape [(1,4,4,10)]: 16 rows of
    size 10. *)
Lemma EmitSoftMax_arguments_witness :
  exists (s1 : PassState) (unit : tir.PrimFunc),
    EmitSoftMax cmsis_nn_target FixedPointMultiplierShift example_global_var
                (softmax_pattern softmax_example) empty_state = Some (tt, s1)
    /\ tir.stmt_extern_calls (tir.body unit) =
         [[tir.StringImm "arm_softmax_s8";
           tir.VarRef softmax_in_var;
           tir.IntImm (tir.Int 32) 16;
           tir.IntImm (tir.Int 32) 10;
           tir.IntImm (tir.Int 32) 1073741824;
           tir.IntImm (tir.Int 32) 19;
           tir.IntImm (tir.Int 32) (-3968);
           tir.VarRef softmax_out_var]].
Proof.
  destruct (EmitSoftMax_arguments cmsis_nn_target FixedPointMultiplierShift softmax_example
              example_global_var empty_state (-3968))
    as (s1 & unit & Hemit & _ & Hcalls).
  { vm_compute. reflexivity. }
  exists s1, unit. split; [exact Hemit|].
  rewrite Hcalls. vm_compute. reflexivity.
Defined.


(** The convolution sample: [filter_scale] is a formal parameter of
    the unit and not an argument of its external call. *)
Lemma EmitConv2D_filter_scale_not_passed :
  exists (s1 : PassState) (unit : tir.PrimFunc) (args : list tir.PrimExpr),
    EmitConv2D cmsis_nn_target example_global_var (conv2d_pattern conv_example) empty_state
    = Some (tt, s1)
    /\ ir_module_ s1 = [("f", PrimFunc unit)]
    /\ tir.stmt_extern_calls (tir.body unit) = [args]
    /\ nth_error (tir.params unit) 3 = Some conv_filter_scale
    /\ existsb (fun v => String.eqb (tir.name_hint v) "filter_scale") (tir.handles args)
       = false
    /\ tir.handles args <> tir.params unit.
Proof.
  eexists. eexists. eexists.
  split; [vm_compute; reflexivity|].
  split; [reflexivity|]. split; [reflexivity|]. split; [reflexivity|].
  split; [reflexivity | discriminate].
Qed.

(** The signatures of the four kinds of unit, at the samples. *)
Lemma Emit_signature_and_handles_witness :
  (exists (s1 : PassState) (unit : tir.PrimFunc) (args : list tir.PrimExpr),
      EmitConv2D cmsis_nn_target example_global_var (conv2d_pattern conv_example) empty_state
      = Some (tt, s1)
      /\ tir.stmt_extern_calls (tir.body unit) = [args]
      /\ tir.handles args =
           [conv_input; conv_filter; conv_multiplier; conv_bias_var; conv_shift; conv_output])
  /\ (exists (s1 : PassState) (unit : tir.PrimFunc) (args : list tir.PrimExpr),
         EmitSoftMax cmsis_nn_target FixedPointMultiplierShift example_global_var
                     (softmax_pattern softmax_example) empty_state = Some (tt, s1)
         /\ tir.stmt_extern_calls (tir.body unit) = [args]
         /\ tir.handles args = tir.params unit).
Proof.
  destruct (Emit_signature_and_handles cmsis_nn_target FixedPointMultiplierShift)
    as (Hconv & Hsoftmax & _).
  destruct (Hconv conv_example example_global_var empty_state)
    as (s1 & u1 & a1 & He1 & _ & Hc1 & Hp1 & Hh1 & _).
  destruct (Hsoftmax softmax_example example_global_var empty_state)
    as (s2 & u2 & a2 & He2 & _ & Hc2 & Hh2 & _).
  { vm_compute. split; [discriminate | reflexivity]. }
  split.
  - exists s1, u1, a1. split; [exact He1|]. split; [exact Hc1|].
    rewrite Hh1, Hp1. reflexivity.
  - exists s2, u2, a2. split; [exact He2|]. split; [exact Hc2 | exact Hh2].
Defined.

(** The rewrite hook at the samples: the call to a primitive operator
    stays, the call to the partitioned function becomes a call to ["f"]. *)
Lemma Rewrite_call_sites_witness :
  Rewrite_ cmsis_nn_target FixedPointMultiplierShift example_visit example_pre
           example_plain_call empty_state
  = Some (example_plain_call, empty_state)
  /\ exists (s2 : PassState),
       Rewrite_ cmsis_nn_target FixedPointMultiplierShift example_visit example_pre
                example_call_site empty_state
       = Some (relay.Call (relay.GlobalVar (relay.mkGlobalVar "f" (Some example_type)))
                          [example_argument] relay.NullAttrs [] None None, s2).
Proof.
  destruct (Rewrite_call_sites cmsis_nn_target FixedPointMultiplierShift example_visit
              example_pre) as (Hkeep & Hreplace & _).
  split.
  - apply Hkeep. reflexivity.
  - eexists.
    apply (Hreplace
             [relay.Var "input" (tensor (tir.Int 32) [1; 16; 16; 8] "int8")]
             [relay.Var "input" (tensor (tir.Int 32) [1; 16; 16; 8] "int8")]
             [relay.Var "input" (tensor (tir.Int 32) [1; 16; 16; 8] "int8")]
             [example_argument] [example_argument]
             (conv2d_pattern conv_example) None None [] [] [] []
             (relay.mkFuncAttrs (Some "cmsis-nn") None (Some "f"))
             (relay.mkFuncAttrs None (Some "cmsis-nn.qnn_conv2d") None)
             relay.NullAttrs relay.NullAttrs None None None None None None None
             example_type "f" empty_state
             (conv_lowered cmsis_nn_target conv_example
                           (relay.mkGlobalVar "f" (Some example_type)) empty_state));
      [reflexivity | reflexivity | apply EmitConv2D_pattern | vm_compute; reflexivity].
Defined.

(** A tagged call site with the composite name
    ["cmsis-nn.qnn_unknown"]: it is not left unchanged but becomes a call
    to the global variable ["f"], and no unit is registered: the module
    is as empty as it was and has nothing under the name ["f"]. *)
Lemma Rewrite_unknown_composite_registers_nothing :
  is_cmsisnn_call example_unknown_call_site = true
  /\ Rewrite_ cmsis_nn_target FixedPointMultiplierShift example_visit example_pre
              example_unknown_call_site empty_state
     = Some (relay.Call (relay.GlobalVar (relay.mkGlobalVar "f" (Some example_type)))
                        [example_argument] relay.NullAttrs [] None None,
             empty_state)
  /\ ir_module_ empty_state = []
  /\ IRModule_Lookup (ir_module_ empty_state) "f" = None.
Proof.
  split; [reflexivity|]. split; [vm_compute; reflexivity|]. split; reflexivity.
Qed.

(** The convolution sample without clip and bias: the clamp bounds are
    the full int8 range and there is no bias handle. *)
Lemma EmitConv2D_optional_clip_and_bias_witness :
  exists (s1 : PassState) (unit : tir.PrimFunc) (args : list tir.PrimExpr),
    EmitConv2D cmsis_nn_target example_global_var (conv2d_pattern conv_plain_example)
               empty_state = Some (tt, s1)
    /\ tir.stmt_extern_calls (tir.body unit) = [args]
    /\ clamp_args args = [tir.IntImm (tir.Int 32) (-128); tir.IntImm (tir.Int 32) 127]
    /\ tir.handles args = [conv_input; conv_filter; conv_multiplier; conv_shift; conv_output].
Proof.
  destruct (EmitConv2D_optional_clip_and_bias cmsis_nn_target conv_plain_example
              example_global_var empty_state)
    as (s1 & unit & args & Hemit & _ & Hcalls & Hclamp & Hhandles).
  exists s1, unit, args.
  split; [exact Hemit|]. split; [exact Hcalls|]. split; [exact Hclamp | exact Hhandles].
Defined.

(** The elementwise sample, scales 0.5, 0.25 and 0.125: the three
    ratios are 0.5, 0.25 and 2^-17. *)
Lemma EmitAdd_three_ratios_witness :
  exists (s1 : PassState) (unit : tir.PrimFunc) (args : list tir.PrimExpr),
    EmitAdd cmsis_nn_target FixedPointMultiplierShift example_global_var
            (binary_pattern "qnn.add" binary_example) empty_state = Some (tt, s1)
    /\ tir.stmt_extern_calls (tir.body unit) = [args]
    /\ firstn 2 (skipn 4 args)
       = [tir.IntImm (tir.Int 32) 1073741824; tir.IntImm (tir.Int 32) 0]
    /\ firstn 2 (skipn 7 args)
       = [tir.IntImm (tir.Int 32) 1073741824; tir.IntImm (tir.Int 32) (-1)]
    /\ nth_error args 9 = Some (tir.IntImm (tir.Int 32) 20)
    /\ firstn 2 (skipn 12 args)
       = [tir.IntImm (tir.Int 32) 1073741824; tir.IntImm (tir.Int 32) (-16)].
Proof.
  destruct (EmitAdd_three_ratios cmsis_nn_target FixedPointMultiplierShift "qnn.add"
              binary_example example_global_var empty_state)
    as (s1 & unit & args & Hemit & _ & Hcalls & H0 & H1 & Hshift & Hout).
  exists s1, unit, args.
  split; [exact Hemit|]. split; [exact Hcalls|].
  rewrite H0, H1, Hout. split; [vm_compute; reflexivity|].
  split; [vm_compute; reflexivity|]. split; [exact Hshift|]. vm_compute. reflexivity.
Defined.


(* ================================================================== *)
(** ** Further properties: dimensions and units *)

(** X1: [CMSISNNDimensions] accepts exactly the shapes of four integer
    immediates, and gives their values, in order, as 32-bit immediates;
    every other rank and every dimension that is not a constant is a
    fatal error. *)
Theorem CMSISNNDimensions_accepts (shape dims : list tir.PrimExpr) :
  CMSISNNDimensions shape = Some dims <->
  exists t0 d0 t1 d1 t2 d2 t3 d3,
    shape = [tir.IntImm t0 d0; tir.IntImm t1 d1; tir.IntImm t2 d2; tir.IntImm t3 d3]
    /\ dims = [ToArg d0; ToArg d1; ToArg d2; ToArg d3].
Proof.
  split.
  - destruct shape as [|a [|b [|c [|d [|e rest]]]]]; try discriminate.
    destruct a, b, c, d; try discriminate.
    cbn. intros H. injection H as <-.
    repeat eexists.
  - intros (t0 & d0 & t1 & d1 & t2 & d2 & t3 & d3 & -> & ->). reflexivity.
Qed.

(** X2: whichever emitter accepts an expression, the unit it registers
    carries the name it is registered under as its global symbol, the
    target of the pass, and the no-alias flag. *)
Theorem Emit_unit_attributes (target_ : tir.Target) (R : float -> Z * Z)
    (gv : relay.GlobalVarNode) (expr : relay.Expr) (s s1 : PassState) :
  EmitSoftMax target_ R gv expr s = Some (tt, s1)
  \/ EmitMul target_ R gv expr s = Some (tt, s1)
  \/ EmitAdd target_ R gv expr s = Some (tt, s1)
  \/ EmitConv2D target_ gv expr s = Some (tt, s1) ->
  exists unit : tir.PrimFunc,
    ir_module_ s1 = ir_module_ s ++ [(relay.name_hint gv, PrimFunc unit)]
    /\ tir.global_symbol (tir.attrs unit) = relay.name_hint gv
    /\ tir.target (tir.attrs unit) = target_
    /\ tir.noalias (tir.attrs unit) = true.
Proof.
  intros [H|[H|[H|H]]].
  - apply EmitSoftMax_inv in H. destruct H as (? & ? & ? & ? & ? & ->).
    eexists. split; [apply registered_module|]. repeat split.
  - apply EmitMul_inv in H. destruct H as (? & ? & ? & ? & ? & ? & ->).
    eexists. split; [apply registered_module|]. repeat split.
  - apply EmitAdd_inv in H. destruct H as (? & ? & ? & ? & ? & ? & ? & ? & ? & ? & ->).
    eexists. split; [apply registered_module|]. repeat split.
  - apply EmitConv2D_inv in H. destruct H as (? & ? & ? & ? & _ & _ & ->).
    eexists. split; [apply registered_module|]. repeat split.
Qed.

Lemma EmitComposite_cases (target_ : tir.Target) (R : float -> Z * Z)
    (comp_name : option string) (gv : relay.GlobalVarNode) (body : relay.Expr)
    (s s1 : PassState) :
  EmitComposite target_ R comp_name gv body s = Some (tt, s1) ->
  (exists name : string,
      comp_name = Some name /\ In name known_composites
      /\ (EmitSoftMax target_ R gv body s = Some (tt, s1)
          \/ EmitMul target_ R gv body s = Some (tt, s1)
          \/ EmitAdd target_ R gv body s = Some (tt, s1)
          \/ EmitConv2D target_ gv body s = Some (tt, s1)))
  \/ ((forall name, In name known_composites -> comp_name <> Some name) /\ s1 = s).
Proof.
  intros H. destruct comp_name as [n|].
  - destruct (in_dec string_dec n known_composites) as [Hin|Hnot].
    + left. exists n. split; [reflexivity|]. split; [exact Hin|].
      exact (EmitComposite_known _ _ _ _ _ _ _ Hin H).
    + right. split.
      * intros name Hi E. injection E as ->. contradiction.
      * unfold EmitComposite, when, optional_eqb in H.
        repeat match type of H with
               | context [String.eqb n ?c] =>
                   destruct (String.eqb_spec n c) as [->|_];
                   [exfalso; apply Hnot; cbn; tauto|]
               end.
        cbn in H. injection H as <-. reflexivity.
  - right. split; [discriminate|].
    cbn in H. injection H as <-. reflexivity.
Qed.

(** X3: the four consecutive tests on the composite name emit at most
    one unit. When the name is one of the four, one unit is registered,
    under the name of the global variable; when the attribute is absent
    or holds any other name, nothing is emitted and the state stays as it
    was. *)
Theorem EmitComposite_at_most_one_unit (target_ : tir.Target) (R : float -> Z * Z)
    (comp_name : option string) (gv : relay.GlobalVarNode) (body : relay.Expr)
    (s s1 : PassState) :
  EmitComposite target_ R comp_name gv body s = Some (tt, s1) ->
  (exists (name : string) (unit : tir.PrimFunc),
      comp_name = Some name
      /\ In name known_composites
      /\ ir_module_ s1 = ir_module_ s ++ [(relay.name_hint gv, PrimFunc unit)])
  \/ ((forall name, In name known_composites -> comp_name <> Some name) /\ s1 = s).
Proof.
  intros H. apply EmitComposite_cases in H.
  destruct H as [(name & -> & Hin & H)|H]; [left | right; exact H].
  apply Emit_registers in H. destruct H as [unit Hu].
  exists name, unit. auto.
Qed.

(* ================================================================== *)
(** ** Further properties: the rewrite hook and the traversal *)

Lemma only_adds_units_refl (s : PassState) : only_adds_units s s.
Proof. exists []. split; [symmetry; apply app_nil_r | reflexivity]. Qed.

Lemma only_adds_units_trans (s1 s2 s3 : PassState) :
  only_adds_units s1 s2 -> only_adds_units s2 s3 -> only_adds_units s1 s3.
Proof.
  intros (a & Ha & Fa) (b & Hb & Fb). exists (a ++ b). split.
  - rewrite Hb, Ha. symmetry. apply app_assoc.
  - rewrite forallb_app, Fa, Fb. reflexivity.
Qed.

Lemma mapM_length {A B : Type} (f : A -> M B) (l : list A) (s s' : PassState)
    (l' : list B) :
  mapM f l s = Some (l', s') -> List.length l' = List.length l.
Proof.
  revert s l'. induction l as [|x rest IH]; intros s l' H; cbn in H.
  - injection H as <- _. reflexivity.
  - apply bind_inv in H. destruct H as (y & sa & _ & H).
    apply bind_inv in H. destruct H as (ys & sb & Hys & H).
    injection H as <- <-. cbn. f_equal. exact (IH _ _ Hys).
Qed.

Lemma mapM_only_adds_units (f : relay.Expr -> M relay.Expr) (l l' : list relay.Expr)
    (s s' : PassState) :
  (forall e s r s', f e s = Some (r, s') -> only_adds_units s s') ->
  mapM f l s = Some (l', s') -> only_adds_units s s'.
Proof.
  intros Hf. revert s l'. induction l as [|x rest IH]; intros s l' H; cbn in H.
  - injection H as _ <-. apply only_adds_units_refl.
  - apply bind_inv in H. destruct H as (y & sa & Hy & H).
    apply bind_inv in H. destruct H as (ys & sb & Hys & H).
    injection H as _ <-.
    exact (only_adds_units_trans _ _ _ (Hf _ _ _ _ Hy) (IH _ _ Hys)).
Qed.

Lemma EmitComposite_only_adds_units (target_ : tir.Target) (R : float -> Z * Z)
    (comp_name : option string) (gv : relay.GlobalVarNode) (body : relay.Expr)
    (s s1 : PassState) :
  EmitComposite target_ R comp_name gv body s = Some (tt, s1) -> only_adds_units s s1.
Proof.
  intros H. apply EmitComposite_cases in H.
  destruct H as [(name & _ & _ & H)|[_ ->]]; [|apply only_adds_units_refl].
  apply Emit_registers in H. destruct H as [unit Hu].
  exists [(relay.name_hint gv, PrimFunc unit)]. split; [exact Hu | reflexivity].
Qed.

(** What a successful run of [Rewrite_] went through. *)
Lemma Rewrite_cases (target_ : tir.Target) (R : float -> Z * Z)
    (V : relay.Expr -> M relay.Expr) (pre : relay.CallNode) (post r : relay.Expr)
    (s s2 : PassState) :
  Rewrite_ target_ R V pre post s = Some (r, s2) ->
  (is_cmsisnn_call post = false /\ r = post /\ s2 = s)
  \/ (is_cmsisnn_call post = true
      /\ exists (call inner : relay.CallNode) (func composite : relay.FunctionNode)
                (symbol : string) (cty : relay.Ty) (args' : list relay.Expr)
                (s1 : PassState),
           relay.as_CallNode post = Some call
           /\ relay.as_FunctionNode (relay.op call) = Some func
           /\ relay.as_CallNode (relay.body func) = Some inner
           /\ relay.as_FunctionNode (relay.op inner) = Some composite
           /\ relay.global_symbol (relay.func_attrs func) = Some symbol
           /\ relay.func_type composite = Some cty
           /\ EmitComposite target_ R (relay.Composite (relay.func_attrs composite))
                            (relay.mkGlobalVar symbol (Some cty)) (relay.body composite) s
              = Some (tt, s1)
           /\ mapM V (relay.args call) s1 = Some (args', s2)
           /\ r = relay.Call (relay.GlobalVar (relay.mkGlobalVar symbol (Some cty))) args'
                             (relay.attrs call) (relay.type_args call) (relay.span call)
                             None).
Proof.
  destruct (is_cmsisnn_call post) eqn:Htag.
  - intros H. right. split; [reflexivity|].
    unfold is_cmsisnn_call in Htag.
    destruct post as [| | | |op args attrs targs span ty|]; try discriminate.
    destruct op as [| | | | |fparams fbody frt ftp fattrs fspan fty]; try discriminate.
    unfold Rewrite_ in H. cbn -[EmitComposite mapM] in H.
    rewrite Htag in H.
    inv_deref H as inner Hinner.
    inv_deref H as composite Hcomposite.
    inv_deref H as symbol Hsymbol.
    inv_deref H as cty Hcty.
    apply bind_inv in H. destruct H as ([] & s1 & Hemit & H).
    apply bind_inv in H. destruct H as (args' & s3 & Hargs & H).
    injection H as <- <-.
    exists (relay.mkCallNode (relay.Function fparams fbody frt ftp fattrs fspan fty)
                             args attrs targs span ty), inner,
           (relay.mkFunctionNode fbody fattrs fty), composite, symbol, cty, args', s1.
    repeat split; assumption.
  - intros H. left. rewrite (Rewrite_unrecognized _ _ _ _ _ _ Htag) in H.
    injection H as <- <-. auto.
Qed.

Lemma Rewrite_only_adds_units (target_ : tir.Target) (R : float -> Z * Z)
    (V : relay.Expr -> M relay.Expr) (pre : relay.CallNode) (post r : relay.Expr)
    (s s2 : PassState) :
  (forall e s r s', V e s = Some (r, s') -> only_adds_units s s') ->
  Rewrite_ target_ R V pre post s = Some (r, s2) -> only_adds_units s s2.
Proof.
  intros HV H. apply Rewrite_cases in H.
  destruct H as [(_ & _ & ->)|(_ & H)]; [apply only_adds_units_refl|].
  destruct H as (call & inner & func & composite & symbol & cty & args' & s1 & H).
  destruct H as (_ & _ & _ & _ & _ & _ & Hemit & Hargs & _).
  apply EmitComposite_only_adds_units in Hemit.
  apply (mapM_only_adds_units _ _ _ _ _ HV) in Hargs.
  exact (only_adds_units_trans _ _ _ Hemit Hargs).
Qed.

Lemma VisitExpr_only_adds_units (target_ : tir.Target) (R : float -> Z * Z) (fuel : nat) :
  forall (e : relay.Expr) (s : PassState) (r : relay.Expr) (s' : PassState),
    VisitExpr target_ R fuel e s = Some (r, s') -> only_adds_units s s'.
Proof.
  induction fuel as [|fuel IH]; intros e s r s' H; [discriminate|].
  cbn [VisitExpr] in H.
  destruct e as [| | | |op args attrs targs span ty|params body rt tps attrs span ty];
    try (injection H as _ <-; apply only_adds_units_refl).
  - apply bind_inv in H. destruct H as (op' & sa & Hop & H).
    apply bind_inv in H. destruct H as (args' & sb & Hargs & H).
    apply IH in Hop.
    apply (mapM_only_adds_units _ _ _ _ _ IH) in Hargs.
    apply (Rewrite_only_adds_units _ _ _ _ _ _ _ _ IH) in H.
    exact (only_adds_units_trans _ _ _ Hop (only_adds_units_trans _ _ _ Hargs H)).
  - apply bind_inv in H. destruct H as (body' & sa & Hbody & H).
    injection H as _ <-. exact (IH _ _ _ _ Hbody).
Qed.

(** X4: a call site tagged for this code generator is rewritten only
    when the callee carries a global symbol and its body is a call to a
    function with a checked type; the result is then a call to the
    global variable of that name and type, with as many arguments as the
    call site had and with its attributes, type arguments and span. On
    every other tagged call site the pass stops with a fatal error. *)
Theorem Rewrite_tagged_call_site (target_ : tir.Target) (R : float -> Z * Z)
    (V : relay.Expr -> M relay.Expr) (pre : relay.CallNode) (post r : relay.Expr)
    (s s2 : PassState) :
  is_cmsisnn_call post = true ->
  Rewrite_ target_ R V pre post s = Some (r, s2) ->
  exists (call inner : relay.CallNode) (func composite : relay.FunctionNode)
         (symbol : string) (cty : relay.Ty) (args' : list relay.Expr),
    relay.as_CallNode post = Some call
    /\ relay.as_FunctionNode (relay.op call) = Some func
    /\ relay.global_symbol (relay.func_attrs func) = Some symbol
    /\ relay.as_CallNode (relay.body func) = Some inner
    /\ relay.as_FunctionNode (relay.op inner) = Some composite
    /\ relay.func_type composite = Some cty
    /\ r = relay.Call (relay.GlobalVar (relay.mkGlobalVar symbol (Some cty))) args'
                      (relay.attrs call) (relay.type_args call) (relay.span call) None
    /\ List.length args' = List.length (relay.args call).
Proof.
  intros Htag H. apply Rewrite_cases in H.
  destruct H as [(Hno & _)|(_ & H)]; [congruence|].
  destruct H as (call & inner & func & composite & symbol & cty & args' & s1 & H).
  destruct H as (Hc & Hf & Hi & Hcf & Hs & Hty & _ & Hargs & ->).
  exists call, inner, func, composite, symbol, cty, args'.
  repeat split; try assumption.
  exact (mapM_length _ _ _ _ _ Hargs).
Qed.

(** X5: what [Rewrite_] returns is never a call site tagged for this
    code generator, so handing the result to [Rewrite_] again gives it
    back and leaves the state as it is: no call site is lowered twice. *)
Theorem Rewrite_result_is_final (target_ : tir.Target) (R : float -> Z * Z)
    (V : relay.Expr -> M relay.Expr) (pre pre' : relay.CallNode) (post r : relay.Expr)
    (s s2 : PassState) :
  Rewrite_ target_ R V pre post s = Some (r, s2) ->
  is_cmsisnn_call r = false
  /\ Rewrite_ target_ R V pre' r s2 = Some (r, s2).
Proof.
  intros H.
  assert (Hfinal : is_cmsisnn_call r = false).
  { apply Rewrite_cases in H. destruct H as [(Hno & -> & _)|(_ & H)]; [exact Hno|].
    destruct H as (call & inner & func & composite & symbol & cty & args' & s1 & H).
    destruct H as (_ & _ & _ & _ & _ & _ & _ & _ & ->). reflexivity. }
  split; [exact Hfinal|].
  apply Rewrite_unrecognized. exact Hfinal.
Qed.

(** X6: [Rewrite_] only ever appends emitted units to the module:
    as long as visiting an argument does no more than that, the module
    after a rewrite is the module before followed by units, so no entry
    is removed, replaced or reordered. *)
Theorem Rewrite_module_only_grows (target_ : tir.Target) (R : float -> Z * Z)
    (V : relay.Expr -> M relay.Expr) (pre : relay.CallNode) (post r : relay.Expr)
    (s s2 : PassState) :
  (forall e s r s', V e s = Some (r, s') -> only_adds_units s s') ->
  Rewrite_ target_ R V pre post s = Some (r, s2) ->
  exists added : IRModule,
    ir_module_ s2 = ir_module_ s ++ added
    /\ forall entry, In entry added -> exists unit, snd entry = PrimFunc unit.
Proof.
  intros HV H. apply (Rewrite_only_adds_units _ _ _ _ _ _ _ _ HV) in H.
  destruct H as (added & Hm & Hall). exists added. split; [exact Hm|].
  intros entry Hin. rewrite forallb_forall in Hall. specialize (Hall entry Hin).
  unfold is_unit in Hall. destruct (snd entry) as [f|unit]; [discriminate|].
  exists unit. reflexivity.
Qed.

Lemma mapM_identity {A : Type} (f : A -> M A) (l : list A) (s : PassState) :
  (forall x, In x l -> f x s = Some (x, s)) -> mapM f l s = Some (l, s).
Proof.
  induction l as [|x rest IH]; intros Hf; [reflexivity|].
  cbn [mapM]. unfold bind. rewrite (Hf x (or_introl eq_refl)).
  rewrite IH by (intros y Hy; apply Hf; right; exact Hy). reflexivity.
Qed.

Lemma list_max_In (l : list nat) (n : nat) : In n l -> (n <= list_max l)%nat.
Proof.
  intros Hin. pose proof (proj1 (list_max_le l (list_max l)) (Nat.le_refl _)) as Hall.
  rewrite Forall_forall in Hall. exact (Hall n Hin).
Qed.

Lemma existsb_false_In {A : Type} (p : A -> bool) (l : list A) (x : A) :
  existsb p l = false -> In x l -> p x = false.
Proof.
  intros He Hin. destruct (p x) eqn:Hp; [|reflexivity].
  assert (Ht : existsb p l = true) by (apply existsb_exists; exists x; auto).
  congruence.
Qed.

Lemma VisitExpr_untagged (target_ : tir.Target) (R : float -> Z * Z) (fuel : nat) :
  forall (e : relay.Expr) (s : PassState),
    has_cmsisnn_call e = false -> (depth e < fuel)%nat ->
    VisitExpr target_ R fuel e s = Some (e, s).
Proof.
  induction fuel as [|fuel IH]; intros e s Htag Hdepth; [inversion Hdepth|].
  destruct e as [| | | |op args attrs targs span ty|params body rt tps attrs span ty];
    try reflexivity.
  - cbn [has_cmsisnn_call] in Htag.
    apply orb_false_elim in Htag. destruct Htag as [Htag Hargs].
    apply orb_false_elim in Htag. destruct Htag as [Hcall Hop].
    cbn [depth] in Hdepth.
    assert (Hdop : (depth op < fuel)%nat) by lia.
    assert (Hdargs : forall a, In a args -> (depth a < fuel)%nat).
    { intros a Ha. pose proof (list_max_In (map depth args) (depth a) (in_map depth _ _ Ha)).
      lia. }
    cbn [VisitExpr]. unfold bind.
    rewrite (IH op s Hop Hdop).
    rewrite mapM_identity.
    + apply Rewrite_unrecognized. exact Hcall.
    + intros a Ha. apply IH; [exact (existsb_false_In _ _ _ Hargs Ha) | exact (Hdargs a Ha)].
  - cbn [has_cmsisnn_call] in Htag. cbn [depth] in Hdepth.
    cbn [VisitExpr]. unfold bind.
    rewrite (IH body s Htag) by lia. reflexivity.
Qed.

(* ================================================================== *)
(** ** Further properties: the entry point *)

Lemma IRModule_Lookup_Update (m : IRModule) (name : string) (f : BaseFunc) :
  IRModule_Lookup (IRModule_Update m name f) name = Some f.
Proof.
  induction m as [|[n g] rest IH]; cbn.
  - rewrite String.eqb_refl. reflexivity.
  - destruct (String.eqb n name) eqn:E; cbn; rewrite E; [reflexivity | exact IH].
Qed.

Lemma IRModule_Lookup_Update_other (m : IRModule) (name other : string) (f : BaseFunc) :
  other <> name ->
  IRModule_Lookup (IRModule_Update m name f) other = IRModule_Lookup m other.
Proof.
  intros Hne. induction m as [|[n g] rest IH]; cbn.
  - destruct (String.eqb_spec name other) as [E|_]; [congruence | reflexivity].
  - destruct (String.eqb_spec n name) as [->|_]; cbn.
    + destruct (String.eqb_spec name other) as [E|_]; [congruence | reflexivity].
    + rewrite IH. reflexivity.
Qed.

Lemma IRModule_Lookup_app (m added : IRModule) (name : string) (f : BaseFunc) :
  IRModule_Lookup m name = Some f -> IRModule_Lookup (m ++ added) name = Some f.
Proof.
  induction m as [|[n g] rest IH]; cbn; [discriminate|].
  destruct (String.eqb n name); [auto | exact IH].
Qed.

(** What a successful run of [Mutate] went through. *)
Lemma Mutate_cases (V : relay.Expr -> M relay.Expr) (s s' : PassState) (m' : IRModule) :
  Mutate V s = Some (m', s') <->
  exists (params : list relay.Expr) (body body' : relay.Expr) (ret_type : option relay.Ty)
         (type_params : list relay.Ty) (attrs : relay.FuncAttrs)
         (span : option relay.Span) (ty : option relay.Ty) (s1 : PassState),
    IRModule_Lookup (ir_module_ s) "main"
    = Some (RelayFunc (relay.Function params body ret_type type_params attrs span ty))
    /\ V body s = Some (body', s1)
    /\ m' = IRModule_Update (ir_module_ s1) "main"
              (RelayFunc (relay.Function params body' ret_type type_params attrs span None))
    /\ s' = mkPassState m' (context_buffer_id_ s1).
Proof.
  unfold Mutate, get_ir_module, ir_module_Update. split.
  - intros H. unfold bind at 1 in H.
    inv_deref H as main Hmain.
    destruct main as [f|unit]; [|discriminate].
    destruct f as [| | | | |params body rt tps attrs span ty]; try discriminate.
    apply bind_inv in H. destruct H as (body' & s1 & Hbody & H).
    unfold bind in H. injection H as <- <-.
    exists params, body, body', rt, tps, attrs, span, ty, s1. auto.
  - intros (params & body & body' & rt & tps & attrs & span & ty & s1 & Hmain & Hbody & -> & ->).
    unfold bind. rewrite Hmain. cbn. unfold bind. rewrite Hbody. reflexivity.
Qed.

(** X7: [Mutate] returns a module exactly when ["main"] is bound to a
    Relay function whose body the traversal accepts; an absent ["main"],
    a ["main"] that is an emitted unit and a body the traversal rejects
    are fatal errors. The module returned is the member module, in which
    ["main"] is bound to the function with the visited body and the
    parameters, return type, type parameters, attributes and span it
    had. *)
Theorem Mutate_updates_main (V : relay.Expr -> M relay.Expr) (s : PassState) :
  (forall (m' : IRModule) (s' : PassState),
      Mutate V s = Some (m', s') ->
      m' = ir_module_ s'
      /\ exists (params : list relay.Expr) (body body' : relay.Expr)
                (ret_type : option relay.Ty) (type_params : list relay.Ty)
                (attrs : relay.FuncAttrs) (span : option relay.Span)
                (ty : option relay.Ty) (s1 : PassState),
           IRModule_Lookup (ir_module_ s) "main"
           = Some (RelayFunc (relay.Function params body ret_type type_params attrs span ty))
           /\ V body s = Some (body', s1)
           /\ context_buffer_id_ s' = context_buffer_id_ s1
           /\ IRModule_Lookup m' "main"
              = Some (RelayFunc
                        (relay.Function params body' ret_type type_params attrs span None)))
  /\ (forall (params : list relay.Expr) (body body' : relay.Expr)
             (ret_type : option relay.Ty) (type_params : list relay.Ty)
             (attrs : relay.FuncAttrs) (span : option relay.Span)
             (ty : option relay.Ty) (s1 : PassState),
         IRModule_Lookup (ir_module_ s) "main"
         = Some (RelayFunc (relay.Function params body ret_type type_params attrs span ty)) ->
         V body s = Some (body', s1) ->
         exists (m' : IRModule) (s' : PassState), Mutate V s = Some (m', s'))
  /\ (IRModule_Lookup (ir_module_ s) "main" = None -> Mutate V s = None)
  /\ (forall unit : tir.PrimFunc,
         IRModule_Lookup (ir_module_ s) "main" = Some (PrimFunc unit) -> Mutate V s = None).
Proof.
  split; [|split; [|split]].
  - intros m' s' H. apply Mutate_cases in H.
    destruct H as (params & body & body' & rt & tps & attrs & span & ty & s1 & H).
    destruct H as (Hmain & Hbody & Hm & ->). split; [reflexivity|].
    exists params, body, body', rt, tps, attrs, span, ty, s1.
    split; [exact Hmain|]. split; [exact Hbody|]. split; [reflexivity|].
    rewrite Hm. apply IRModule_Lookup_Update.
  - intros params body body' rt tps attrs span ty s1 Hmain Hbody.
    eexists. eexists. apply Mutate_cases.
    exists params, body, body', rt, tps, attrs, span, ty, s1. auto.
  - intros Hnone. unfold Mutate, get_ir_module, bind. rewrite Hnone. reflexivity.
  - intros unit Hunit. unfold Mutate, get_ir_module, bind. rewrite Hunit. reflexivity.
Qed.

(** X8: the pass replaces no function but ["main"]: when the
    traversal only appends units, every function the module bound to
    another name before the pass is bound to that name, unchanged, in
    the module the pass returns. *)
Theorem RelayToTIR_keeps_other_functions (V : relay.Expr -> M relay.Expr)
    (m m' : IRModule) (name : string) (f : BaseFunc) :
  (forall e s r s', V e s = Some (r, s') -> only_adds_units s s') ->
  RelayToTIR V m = Some m' ->
  name <> "main" ->
  IRModule_Lookup m name = Some f ->
  IRModule_Lookup m' name = Some f.
Proof.
  intros HV H Hname Hf. unfold RelayToTIR in H.
  destruct (Mutate V (mkPassState m 0)) as [[m1 s1]|] eqn:Hm; [|discriminate].
  injection H as ->. apply Mutate_cases in Hm.
  destruct Hm as (params & body & body' & rt & tps & attrs & span & ty & s2 & Hm).
  destruct Hm as (_ & Hbody & -> & _).
  rewrite IRModule_Lookup_Update_other by exact Hname.
  apply HV in Hbody. destruct Hbody as (added & -> & _). cbn [ir_module_].
  apply IRModule_Lookup_app. exact Hf.
Qed.

Lemma RelayToTIR_of_visit (V : relay.Expr -> M relay.Expr) (m : IRModule)
    (params : list relay.Expr) (body body' : relay.Expr) (ret_type : option relay.Ty)
    (type_params : list relay.Ty) (attrs : relay.FuncAttrs) (span : option relay.Span)
    (ty : option relay.Ty) (s1 : PassState) :
  IRModule_Lookup m "main"
  = Some (RelayFunc (relay.Function params body ret_type type_params attrs span ty)) ->
  V body (mkPassState m 0) = Some (body', s1) ->
  RelayToTIR V m
  = Some (IRModule_Update (ir_module_ s1) "main"
            (RelayFunc (relay.Function params body' ret_type type_params attrs span None))).
Proof.
  intros Hmain Hbody. unfold RelayToTIR.
  assert (H : Mutate V (mkPassState m 0)
              = Some (IRModule_Update (ir_module_ s1) "main"
                        (RelayFunc (relay.Function params body' ret_type type_params attrs
                                                   span None)),
                      mkPassState
                        (IRModule_Update (ir_module_ s1) "main"
                           (RelayFunc (relay.Function params body' ret_type type_params attrs
                                                      span None)))
                        (context_buffer_id_ s1))).
  { apply Mutate_cases.
    exists params, body, body', ret_type, type_params, attrs, span, ty, s1. auto. }
  rewrite H. reflexivity.
Qed.

(** X9: the traversal leaves alone what holds no call site tagged for
    this code generator: such an expression is returned as it is, no
    unit is emitted and the buffer counter stays. The pass over a module
    whose ["main"] has such a body returns the module with ["main"]
    bound to the same function, its checked type not copied, and nothing
    added. *)
Theorem VisitExpr_without_tagged_call_site (target_ : tir.Target) (R : float -> Z * Z)
    (fuel : nat) (e : relay.Expr) (s : PassState) :
  has_cmsisnn_call e = false ->
  (depth e < fuel)%nat ->
  VisitExpr target_ R fuel e s = Some (e, s)
  /\ forall (m : IRModule) (params : list relay.Expr) (ret_type : option relay.Ty)
            (type_params : list relay.Ty) (attrs : relay.FuncAttrs)
            (span : option relay.Span) (ty : option relay.Ty),
       IRModule_Lookup m "main"
       = Some (RelayFunc (relay.Function params e ret_type type_params attrs span ty)) ->
       RelayToTIR (VisitExpr target_ R fuel) m
       = Some (IRModule_Update m "main"
                 (RelayFunc (relay.Function params e ret_type type_params attrs span None))).
Proof.
  intros Htag Hdepth. split; [exact (VisitExpr_untagged _ _ _ _ _ Htag Hdepth)|].
  intros m params rt tps attrs span ty Hmain.
  exact (RelayToTIR_of_visit _ _ _ _ _ _ _ _ _ _ _ Hmain
           (VisitExpr_untagged _ _ _ _ (mkPassState m 0) Htag Hdepth)).
Qed.

Lemma conv2d_pattern_untagged (p : Conv2DPattern) :
  has_cmsisnn_call (conv2d_pattern p) = false.
Proof.
  unfold conv2d_pattern. destruct (conv_clip p), (conv_bias p); reflexivity.
Qed.

Lemma IRModule_Lookup_app_new (m added : IRModule) (name : string) :
  IRModule_Lookup m name = None ->
  IRModule_Lookup (m ++ added) name = IRModule_Lookup added name.
Proof.
  induction m as [|[n g] rest IH]; cbn; [reflexivity|].
  destruct (String.eqb n name); [discriminate | exact IH].
Qed.

(** X10: the pass from end to end on a module whose ["main"] is a
    call to a partitioned convolution: the convolution unit is appended
    to the module under the callee's global symbol, and ["main"] is
    bound to the function whose body calls the global variable of that
    name on the same arguments. When the name was free, looking it up
    in the result gives the unit. *)
Theorem RelayToTIR_lowers_conv2d_call_site (target_ : tir.Target) (R : float -> Z * Z)
    (fuel : nat) (p : Conv2DPattern) (symbol : string) (cty : relay.Ty)
    (args params : list relay.Expr) (m : IRModule) (ret_type : option relay.Ty)
    (type_params : list relay.Ty) (attrs : relay.FuncAttrs) (span : option relay.Span)
    (ty : option relay.Ty) :
  IRModule_Lookup m "main"
  = Some (RelayFunc (relay.Function params (conv_call_site p symbol cty args)
                                    ret_type type_params attrs span ty)) ->
  existsb has_cmsisnn_call args = false ->
  (depth (conv_call_site p symbol cty args) < fuel)%nat ->
  exists (s1 : PassState) (unit : tir.PrimFunc) (m' : IRModule),
    EmitConv2D target_ (relay.mkGlobalVar symbol (Some cty)) (conv2d_pattern p)
               (mkPassState m 0) = Some (tt, s1)
    /\ ir_module_ s1 = m ++ [(symbol, PrimFunc unit)]
    /\ RelayToTIR (VisitExpr target_ R fuel) m = Some m'
    /\ m' = IRModule_Update (m ++ [(symbol, PrimFunc unit)]) "main"
              (RelayFunc
                 (relay.Function params
                    (relay.Call (relay.GlobalVar (relay.mkGlobalVar symbol (Some cty)))
                                args relay.NullAttrs [] None None)
                    ret_type type_params attrs span None))
    /\ (symbol <> "main" -> IRModule_Lookup m symbol = None ->
        IRModule_Lookup m' symbol = Some (PrimFunc unit)).
Proof.
  intros Hmain Hargs Hdepth.
  destruct fuel as [|fuel]; [inversion Hdepth|].
  set (gv := relay.mkGlobalVar symbol (Some cty)).
  set (s0 := mkPassState m 0).
  set (s1 := conv_lowered target_ p gv s0).
  exists s1. eexists. eexists.
  split; [apply EmitConv2D_pattern|].
  split; [apply conv_lowered_module|].
  assert (Hvisit : VisitExpr target_ R (S fuel) (conv_call_site p symbol cty args) s0
                   = Some (relay.Call (relay.GlobalVar gv) args relay.NullAttrs [] None None,
                           s1)).
  { unfold conv_call_site in *. cbn [depth] in Hdepth.
    set (callee := partitioned_function _ _ _ _) in *.
    assert (Hcallee : has_cmsisnn_call callee = false).
    { unfold callee, partitioned_function, composite_function.
      cbn [has_cmsisnn_call is_cmsisnn_call relay.Compiler optional_eqb existsb orb].
      rewrite conv2d_pattern_untagged. reflexivity. }
    assert (Hdargs : forall a (s : PassState), In a args ->
                       VisitExpr target_ R fuel a s = Some (a, s)).
    { intros a s Ha. apply VisitExpr_untagged.
      - exact (existsb_false_In _ _ _ Hargs Ha).
      - pose proof (list_max_In (map depth args) (depth a) (in_map depth _ _ Ha)). lia. }
    cbn [VisitExpr]. unfold bind at 1.
    rewrite (VisitExpr_untagged _ _ _ _ _ Hcallee) by lia.
    unfold bind at 1.
    rewrite mapM_identity by (intros a Ha; apply Hdargs; exact Ha).
    unfold callee, partitioned_function, composite_function.
    apply Rewrite_recognized with (s1 := s1); try reflexivity.
    - apply EmitConv2D_pattern.
    - apply mapM_identity. intros a Ha. apply Hdargs. exact Ha. }
  split; [exact (RelayToTIR_of_visit _ _ _ _ _ _ _ _ _ _ _ Hmain Hvisit)|].
  split; [reflexivity|].
  intros Hsym Hfree.
  rewrite IRModule_Lookup_Update_other by exact Hsym.
  subst s1 s0. rewrite conv_lowered_module. cbn [ir_module_].
  rewrite (IRModule_Lookup_app_new _ _ _ Hfree). cbn [IRModule_Lookup].
  rewrite String.eqb_refl. reflexivity.
Qed.

(* ================================================================== *)
(** ** Further properties: the scratch buffer of a convolution *)

Lemma Int32_wrap_succ_neq (z : Z) : Int32.wrap (z + 1) <> z.
Proof.
  destruct (Int32_wrap_spec (z + 1)) as [k Hk]. rewrite Hk.
  unfold Int32.modulus. lia.
Qed.

Lemma Int32_wrap_range (z : Z) : Int32.in_range (Int32.wrap z).
Proof.
  unfold Int32.in_range, Int32.wrap, Int32.min_signed, Int32.max_signed, Int32.modulus.
  pose proof (Z.mod_pos_bound (z + 2 ^ 31) (2 ^ 32) ltac:(lia)). lia.
Qed.

Lemma Int32_wrap_multiple (z : Z) : z mod 2 ^ 32 = 0 -> Int32.wrap z = 0.
Proof.
  intros H. unfold Int32.wrap, Int32.modulus.
  rewrite <- Zplus_mod_idemp_l, H. reflexivity.
Qed.

Lemma conv_args_buffer_args (has_bias : bool) (name : string) (size : Z)
    (scalars dims : list Z) :
  List.length scalars = 10%nat -> List.length dims = 16%nat ->
  buffer_args (conv_args has_bias name size scalars dims) = [tir.StringImm name; ToArg size].
Proof.
  intros Hs Hd. unfold buffer_args, conv_args.
  set (head := conv_tensor_args has_bias).
  change (tir.StringImm "arm_convolve_wrapper_s8"
            :: head ++ [tir.StringImm name; ToArg size] ++ map ToArg scalars ++ map ToArg dims)
    with ((tir.StringImm "arm_convolve_wrapper_s8" :: head)
            ++ [tir.StringImm name; ToArg size] ++ map ToArg scalars ++ map ToArg dims).
  set (front := tir.StringImm "arm_convolve_wrapper_s8" :: head).
  rewrite !length_app, !length_map, Hs, Hd. cbn [List.length].
  replace (List.length front + (2 + (10 + 16)) - 28)%nat with (List.length front) by lia.
  rewrite skipn_app, skipn_all, Nat.sub_diag. reflexivity.
Qed.

Lemma conv_unit_body_of_allocations (target_ : tir.Target) (s : PassState)
    (has_bias : bool) (buffer_size : Z) (scalars dims : list Z) :
  tir.allocations (conv_unit_body_of target_ s has_bias buffer_size scalars dims) =
  if Int32.wrap buffer_size =? 0 then []
  else [(scratch_var (if buffer_size =? 0 then "NULL"
                      else context_buffer_name (context_buffer_id_ s)),
         tir.Int 8, [tir.IntImm (tir.Int 32) (Int32.wrap buffer_size)])].
Proof.
  unfold conv_unit_body_of. destruct (Int32.wrap buffer_size =? 0); reflexivity.
Qed.

Lemma conv_unit_body_of_call (target_ : tir.Target) (s : PassState) (has_bias : bool)
    (size : Z) (scalars dims : list Z) :
  tir.stmt_extern_calls (conv_unit_body_of target_ s has_bias size scalars dims)
  = [conv_args has_bias
       (if size =? 0 then "NULL" else context_buffer_name (context_buffer_id_ s))
       size scalars dims].
Proof.
  unfold conv_unit_body_of.
  destruct (Int32.wrap size =? 0); [apply conv_args_calls|].
  unfold with_scratch. cbn [tir.stmt_extern_calls tir.extern_calls flat_map app].
  apply conv_args_calls.
Qed.

(** X11: whatever expression [EmitConv2D] accepts, the buffer name and
    the size handed to the kernel agree with what the unit allocates: a
    size other than 0 comes with exactly one allocation, of that many
    int8 elements, under the variable of that name, which is
    ["context_buffer_"] followed by the counter; a size of 0 comes with
    no allocation. The counter advances by one exactly when the name is
    not the sentinel ["NULL"]. *)
Theorem EmitConv2D_scratch_consistent (target_ : tir.Target) (gv : relay.GlobalVarNode)
    (expr : relay.Expr) (s s1 : PassState) :
  EmitConv2D target_ gv expr s = Some (tt, s1) ->
  exists (unit : tir.PrimFunc) (args : list tir.PrimExpr) (name : string) (size : Z),
    ir_module_ s1 = ir_module_ s ++ [(relay.name_hint gv, PrimFunc unit)]
    /\ tir.stmt_extern_calls (tir.body unit) = [args]
    /\ buffer_args args = [tir.StringImm name; tir.IntImm (tir.Int 32) size]
    /\ Int32.in_range size
    /\ (size = 0 -> tir.allocations (tir.body unit) = [])
    /\ (size <> 0 ->
        tir.allocations (tir.body unit)
        = [(scratch_var name, tir.Int 8, [tir.IntImm (tir.Int 32) size])]
        /\ name = context_buffer_name (context_buffer_id_ s))
    /\ (name = "NULL" -> context_buffer_id_ s1 = context_buffer_id_ s)
    /\ (name <> "NULL" ->
        name = context_buffer_name (context_buffer_id_ s)
        /\ context_buffer_id_ s1 = Int32.wrap (context_buffer_id_ s + 1)
        /\ context_buffer_id_ s1 <> context_buffer_id_ s).
Proof.
  intros H. apply EmitConv2D_inv in H.
  destruct H as (has_bias & buffer_size & scalars & dims & Hs & Hd & ->).
  eexists. eexists.
  exists (if buffer_size =? 0 then "NULL" else context_buffer_name (context_buffer_id_ s)).
  exists (Int32.wrap buffer_size).
  split; [apply registered_module|].
  cbn [tir.body].
  split; [apply conv_unit_body_of_call|].
  split; [apply (conv_args_buffer_args _ _ _ _ _ Hs Hd)|].
  split; [apply Int32_wrap_range|].
  rewrite conv_unit_body_of_allocations.
  unfold conv_unit_state, registered. cbn [context_buffer_id_].
  split; [intros ->; reflexivity|].
  split.
  { intros Hsize. apply Z.eqb_neq in Hsize. rewrite Hsize.
    destruct (Z.eqb_spec buffer_size 0) as [->|_]; [discriminate Hsize|].
    split; reflexivity. }
  destruct (Z.eqb_spec buffer_size 0) as [_|_].
  - split; [reflexivity|]. intros Hn. contradiction Hn. reflexivity.
  - split; [discriminate|]. intros _.
    split; [reflexivity|]. split; [reflexivity|]. apply Int32_wrap_succ_neq.
Qed.

(** X12: two convolutions lowered one after the other never share a
    scratch buffer: a variable allocated by the unit of the first is not
    allocated by the unit of the second, whatever the counter was. *)
Theorem EmitConv2D_consecutive_scratch_buffers (target_ : tir.Target)
    (gv1 gv2 : relay.GlobalVarNode) (e1 e2 : relay.Expr) (s s1 s2 : PassState) :
  EmitConv2D target_ gv1 e1 s = Some (tt, s1) ->
  EmitConv2D target_ gv2 e2 s1 = Some (tt, s2) ->
  exists unit1 unit2 : tir.PrimFunc,
    ir_module_ s2 = ir_module_ s ++ [(relay.name_hint gv1, PrimFunc unit1);
                                     (relay.name_hint gv2, PrimFunc unit2)]
    /\ forall v, In v (allocated_vars (tir.body unit1)) ->
                 ~ In v (allocated_vars (tir.body unit2)).
Proof.
  intros H1 H2. apply EmitConv2D_inv in H1, H2.
  destruct H1 as (b1 & size1 & sc1 & d1 & _ & _ & ->).
  destruct H2 as (b2 & size2 & sc2 & d2 & _ & _ & ->).
  eexists. eexists. split.
  { unfold conv_unit_state, registered. cbn [ir_module_].
    rewrite <- app_assoc. reflexivity. }
  cbn [tir.body]. unfold allocated_vars.
  rewrite !conv_unit_body_of_allocations.
  cbn [context_buffer_id_].
  intros v Hv1 Hv2.
  destruct (Int32.wrap size1 =? 0) eqn:Hw1; [contradiction|].
  destruct (Int32.wrap size2 =? 0) eqn:Hw2; [contradiction|].
  destruct (Z.eqb_spec size1 0) as [->|_]; [discriminate Hw1|].
  destruct (Z.eqb_spec size2 0) as [->|_]; [discriminate Hw2|].
  cbn in Hv1, Hv2. destruct Hv1 as [<-|[]]. destruct Hv2 as [Hv2|[]].
  injection Hv2 as Hv2. apply to_string_inj in Hv2.
  exact (Int32_wrap_succ_neq _ Hv2).
Qed.

(** X13: beyond the range of an [int]. When the byte count
    [2 * input_channels * filter_height * filter_width * 2] is a
    multiple of [2^32] but not of [2^64], the count kept in 64 bits is
    not 0, so a buffer name is made and the counter advances; the count
    converted to [int] is 0, so the kernel is handed that name with size
    0 and the unit allocates nothing. *)
Theorem EmitConv2D_scratch_size_beyond_int (target_ : tir.Target) (p : Conv2DPattern)
    (gv : relay.GlobalVarNode) (s : PassState) :
  let size := 2 * dim3 (conv_input_shape p) * dim1 (conv_filter_shape p)
                * dim2 (conv_filter_shape p) * 2 in
  size mod 2 ^ 32 = 0 ->
  size mod 2 ^ 64 <> 0 ->
  exists (s1 : PassState) (unit : tir.PrimFunc) (args : list tir.PrimExpr),
    EmitConv2D target_ gv (conv2d_pattern p) s = Some (tt, s1)
    /\ ir_module_ s1 = ir_module_ s ++ [(relay.name_hint gv, PrimFunc unit)]
    /\ tir.stmt_extern_calls (tir.body unit) = [args]
    /\ buffer_args args
       = [tir.StringImm (String.append "context_buffer_" (to_string (context_buffer_id_ s)));
          tir.IntImm (tir.Int 32) 0]
    /\ tir.allocations (tir.body unit) = []
    /\ context_buffer_id_ s1 = Int32.wrap (context_buffer_id_ s + 1).
Proof.
  intros size H32 H64.
  change size with (spec_buffer_size p) in *.
  exists (conv_lowered target_ p gv s).
  eexists. exists (spec_conv_args p (conv_buffer_name p s) (spec_buffer_size p)).
  split; [apply EmitConv2D_pattern|].
  split; [apply conv_lowered_module|].
  split; [apply conv_unit_body_calls|].
  cbn [tir.body].
  rewrite conv_unit_body_allocations, buffer_args_spec.
  unfold conv_lowered, registered, conv_buffer_name. cbn [context_buffer_id_].
  rewrite code_buffer_size_wrap, (Int32_wrap_multiple _ H32).
  assert (Hnz : (code_buffer_size p =? 0) = false).
  { apply Z.eqb_neq. rewrite code_buffer_size_mod. exact H64. }
  rewrite Hnz. unfold ToArg. rewrite (Int32_wrap_multiple _ H32).
  repeat split.
Qed.

(* ================================================================== *)
(** ** Further properties: the fixed-point parameters of the softmax *)

(** X14: [diff_min] is defined exactly for the shift counts from 0 to
    31; it is then [- (31 * 2^26 / 2^shift)], rounded down, so it is
    never positive, never below [-(2^31 - 2^26)], and 0 from a shift of
    31 on. *)
Theorem softmax_diff_min_range (shift : Z) :
  (0 <= shift < 32 ->
   exists diff_min, softmax_diff_min shift = Some diff_min
                    /\ diff_min = - (2080374784 / 2 ^ shift)
                    /\ - 2080374784 <= diff_min <= 0
                    /\ (shift = 31 -> diff_min = 0))
  /\ (shift < 0 \/ 32 <= shift -> softmax_diff_min shift = None).
Proof.
  split.
  - intros Hshift. exists (spec_diff_min shift).
    split; [apply softmax_diff_min_spec; exact Hshift|].
    unfold spec_diff_min.
    change (Z.shiftl (Z.shiftl 1 5 - 1) (31 - 5)) with 2080374784.
    rewrite Z.shiftr_div_pow2 by lia.
    assert (Hq : 0 <= 2080374784 / 2 ^ shift <= 2080374784).
    { split; [apply Z.div_pos; lia|].
      apply Z.div_le_upper_bound; [lia|].
      assert (1 <= 2 ^ shift) by (apply (Z.pow_le_mono_r 2 0 shift); lia). nia. }
    split; [reflexivity|]. split; [lia|].
    intros ->. reflexivity.
  - intros Hout. unfold softmax_diff_min, Int32.shr.
    replace ((0 <=? shift) && (shift <? 32)) with false; [reflexivity|].
    symmetry. apply andb_false_iff.
    destruct Hout; [left; apply Z.leb_gt | right; apply Z.ltb_ge]; lia.
Qed.

(* ================================================================== *)
(** ** Further properties: what the emitters accept *)

Lemma count_rows_immediates (dims : list tir.PrimExpr) :
  forall (acc r : Z),
    count_rows dims acc = Some r ->
    exists vals : list (tir.DataType * Z),
      dims = immediates vals /\ Int32.wrap r = Int32.wrap (acc * product (map snd vals)).
Proof.
  induction dims as [|d rest IH]; intros acc r H; cbn [count_rows] in H.
  - injection H as <-. exists []. split; [reflexivity|]. cbn. f_equal. ring.
  - destruct d as [t v| | | |]; try discriminate. cbn [as_IntImm_value] in H.
    destruct (IH _ _ H) as (vals & -> & Hw).
    exists ((t, v) :: vals). split; [reflexivity|].
    rewrite Hw. unfold Int32.mul. rewrite Int32_wrap_mul_l. f_equal.
    cbn [map snd product fold_right]. unfold product. ring.
Qed.

(** X15: whenever [EmitSoftMax] registers a unit, the checked type of
    the expression is a tensor of rank at least 1 whose dimensions are
    all integer immediates: a scalar type and a dynamic dimension are
    fatal. The row count handed to the kernel is then the product of all
    dimensions but the last and the row size is the last one, both as
    32-bit values, whatever the rank. *)
Theorem EmitSoftMax_accepts (target_ : tir.Target) (R : float -> Z * Z)
    (gv : relay.GlobalVarNode) (expr : relay.Expr) (s s1 : PassState) :
  EmitSoftMax target_ R gv expr s = Some (tt, s1) ->
  exists (quantize_call : relay.CallNode) (leading : list (tir.DataType * Z))
         (last : tir.DataType * Z) (unit : tir.PrimFunc) (args : list tir.PrimExpr),
    relay.as_CallNode expr = Some quantize_call
    /\ relay.shape_of_type (relay.call_type quantize_call)
       = Some (immediates (leading ++ [last]))
    /\ ir_module_ s1 = ir_module_ s ++ [(relay.name_hint gv, PrimFunc unit)]
    /\ tir.stmt_extern_calls (tir.body unit) = [args]
    /\ nth_error args 2 = Some (ToArg (product (map snd leading)))
    /\ nth_error args 3 = Some (ToArg (snd last)).
Proof.
  unfold EmitSoftMax. intros H.
  inv_deref H as quantize_call Hq. inv_deref H as softmax_call Hs.
  inv_deref H as dequant_call Hd. inv_deref H as quant_scale Hscale.
  inv_deref H as shape Hshape. inv_deref H as row_size Hrow.
  inv_deref H as num_rows Hrows. inv_deref H as diff_min Hdiff.
  unfold CreatePrimFuncForExtern_default, CreatePrimFuncForExtern, ir_module_Add in H.
  cbn -[ToArg] in H. injection H as <-.
  destruct (Nat.eqb_spec (List.length shape) 0) as [_|Hlen]; [discriminate|].
  assert (Hne : shape <> []) by (intros ->; apply Hlen; reflexivity).
  destruct (exists_last Hne) as (front & x & ->).
  rewrite length_app in Hrow, Hrows. cbn [List.length] in Hrow, Hrows.
  replace (List.length front + 1 - 1)%nat with (List.length front) in Hrow, Hrows by lia.
  unfold at_ in Hrow.
  rewrite nth_error_app2, Nat.sub_diag in Hrow by lia. cbn in Hrow.
  rewrite firstn_app, Nat.sub_diag, firstn_all in Hrows. cbn [firstn] in Hrows.
  rewrite app_nil_r in Hrows.
  destruct x as [t v| | | |]; try discriminate. injection Hrow as <-.
  apply count_rows_immediates in Hrows. destruct Hrows as (vals & -> & Hw).
  exists quantize_call, vals, (t, v). eexists. eexists.
  split; [exact Hq|].
  split. { rewrite Hshape. unfold immediates. rewrite map_app. reflexivity. }
  split; [reflexivity|].
  split; [reflexivity|].
  cbn [nth_error snd].
  split. { unfold ToArg. rewrite Hw. do 3 f_equal. ring. }
  apply f_equal, ToArg_wrap.
Qed.

(** What [EmitMul] and [EmitAdd] read before they emit anything. *)
Lemma scalar_constant_at_float (call : relay.CallNode) (i : nat) (x : float) :
  float_arg call i = Some x -> scalar_constant_at call i = true.
Proof.
  unfold float_arg, scalar_constant_at. destruct (at_ (relay.args call) i) as [e|]; cbn;
    [|discriminate].
  destruct e as [|[| |] ?| | | |]; cbn; (discriminate || reflexivity).
Qed.

Lemma scalar_constant_at_int32 (call : relay.CallNode) (i : nat) (z : Z) :
  int32_arg call i = Some z -> scalar_constant_at call i = true.
Proof.
  unfold int32_arg, scalar_constant_at. destruct (at_ (relay.args call) i) as [e|]; cbn;
    [|discriminate].
  destruct e as [|[| |] ?| | | |]; cbn; (discriminate || reflexivity).
Qed.

Lemma scalar_constant_at_length (call : relay.CallNode) (i : nat) :
  scalar_constant_at call i = true -> (i < List.length (relay.args call))%nat.
Proof.
  unfold scalar_constant_at, at_. intros H. apply nth_error_Some.
  destruct (nth_error (relay.args call) i); [discriminate | discriminate H].
Qed.

Lemma EmitMul_operands (target_ : tir.Target) (R : float -> Z * Z)
    (gv : relay.GlobalVarNode) (expr : relay.Expr) (s s1 : PassState) :
  EmitMul target_ R gv expr s = Some (tt, s1) -> has_binary_operands expr = true.
Proof.
  unfold EmitMul, has_binary_operands. intros H.
  inv_deref H as mul_call Hcall.
  inv_deref H as scale0 Hscale0. inv_deref H as z0 Hz0.
  inv_deref H as scale1 Hscale1. inv_deref H as z1 Hz1.
  inv_deref H as scale_out Hscale_out. inv_deref H as zo Hzo.
  inv_deref H as shape Hshape.
  rewrite Hcall, Hshape. cbn [forallb].
  rewrite (scalar_constant_at_float _ _ _ Hscale0), (scalar_constant_at_int32 _ _ _ Hz0),
    (scalar_constant_at_float _ _ _ Hscale1), (scalar_constant_at_int32 _ _ _ Hz1),
    (scalar_constant_at_float _ _ _ Hscale_out), (scalar_constant_at_int32 _ _ _ Hzo).
  reflexivity.
Qed.

Lemma EmitAdd_operands (target_ : tir.Target) (R : float -> Z * Z)
    (gv : relay.GlobalVarNode) (expr : relay.Expr) (s s1 : PassState) :
  EmitAdd target_ R gv expr s = Some (tt, s1) -> has_binary_operands expr = true.
Proof.
  unfold EmitAdd, has_binary_operands. intros H.
  inv_deref H as add_call Hcall.
  inv_deref H as scale0 Hscale0. inv_deref H as z0 Hz0.
  inv_deref H as scale1 Hscale1. inv_deref H as z1 Hz1.
  inv_deref H as scale_out Hscale_out. inv_deref H as zo Hzo.
  inv_deref H as shape Hshape.
  rewrite Hcall, Hshape. cbn [forallb].
  rewrite (scalar_constant_at_float _ _ _ Hscale0), (scalar_constant_at_int32 _ _ _ Hz0),
    (scalar_constant_at_float _ _ _ Hscale1), (scalar_constant_at_int32 _ _ _ Hz1),
    (scalar_constant_at_float _ _ _ Hscale_out), (scalar_constant_at_int32 _ _ _ Hzo).
  reflexivity.
Qed.

(** X16: [EmitMul] and [EmitAdd] emit nothing and stop with a fatal
    error on every expression that is not a call whose operands 2 to 7
    are scalar constants and whose checked type is a tensor type; in
    particular on every call with fewer than eight operands. *)
Theorem EmitMul_EmitAdd_reject_malformed (target_ : tir.Target) (R : float -> Z * Z)
    (gv : relay.GlobalVarNode) (expr : relay.Expr) (s : PassState) :
  (has_binary_operands expr = false ->
   EmitMul target_ R gv expr s = None /\ EmitAdd target_ R gv expr s = None)
  /\ (forall call : relay.CallNode,
        relay.as_CallNode expr = Some call ->
        (List.length (relay.args call) < 8)%nat ->
        EmitMul target_ R gv expr s = None /\ EmitAdd target_ R gv expr s = None).
Proof.
  assert (Hbad : has_binary_operands expr = false ->
                 EmitMul target_ R gv expr s = None /\ EmitAdd target_ R gv expr s = None).
  { intros Hno. split.
    - destruct (EmitMul target_ R gv expr s) as [[[] s1]|] eqn:E; [|reflexivity].
      apply EmitMul_operands in E. congruence.
    - destruct (EmitAdd target_ R gv expr s) as [[[] s1]|] eqn:E; [|reflexivity].
      apply EmitAdd_operands in E. congruence. }
  split; [exact Hbad|].
  intros call Hcall Hshort. apply Hbad.
  unfold has_binary_operands. rewrite Hcall.
  destruct (scalar_constant_at call 7) eqn:H7.
  - apply scalar_constant_at_length in H7. lia.
  - cbn [forallb]. rewrite H7, !andb_false_r. reflexivity.
Qed.

Lemma CMSISNNDimensions_immediates (shape dims : list tir.PrimExpr) :
  CMSISNNDimensions shape = Some dims ->
  exists l : list (tir.DataType * Z),
    shape = immediates l /\ List.length l = 4%nat /\ dims = map ToArg (map snd l).
Proof.
  destruct shape as [|a [|b [|c [|d [|e rest]]]]]; try discriminate.
  destruct a as [t0 d0| | | |], b as [t1 d1| | | |], c as [t2 d2| | | |],
           d as [t3 d3| | | |]; try discriminate.
  cbn. intros H. injection H as <-.
  exists [(t0, d0); (t1, d1); (t2, d2); (t3, d3)]. repeat split.
Qed.

Lemma skipn_tail {A : Type} (front tail : list A) (n : nat) :
  List.length tail = n -> skipn (List.length (front ++ tail) - n) (front ++ tail) = tail.
Proof.
  intros <-. rewrite length_app.
  replace (List.length front + List.length tail - List.length tail)%nat
    with (List.length front) by lia.
  rewrite skipn_app, skipn_all, Nat.sub_diag. reflexivity.
Qed.

(** What [EmitConv2D] went through on an expression it accepts: the
    nodes it found, the three shapes it read and the unit it
    registered. *)
Lemma EmitConv2D_accepted (target_ : tir.Target)
    (gv : relay.GlobalVarNode) (expr : relay.Expr) (s s1 : PassState) :
  EmitConv2D target_ gv expr s = Some (tt, s1) ->
  exists (clip_call : option relay.CallNode) (requantize_call : relay.CallNode)
         (bias_add_call : option relay.CallNode) (conv2d_call : relay.CallNode)
         (input filter output : list (tir.DataType * Z))
         (buffer_size : Z) (scalars : list Z),
    decompose_conv2d expr = Some (clip_call, requantize_call, bias_add_call, conv2d_call)
    /\ arg_shape conv2d_call 0 = Some (immediates input)
    /\ arg_shape conv2d_call 1 = Some (immediates filter)
    /\ relay.shape_of_type (relay.call_type conv2d_call) = Some (immediates output)
    /\ List.length input = 4%nat /\ List.length filter = 4%nat
    /\ List.length output = 4%nat /\ List.length scalars = 10%nat
    /\ s1 = conv_unit_state target_ s (relay.name_hint gv)
              (match bias_add_call with Some _ => true | None => false end)
              buffer_size scalars
              (map snd input ++ map snd filter
                 ++ [1; 1; 1; nth 0 (map snd filter) 0] ++ map snd output).
Proof.
  unfold EmitConv2D. intros H.
  inv_deref H as final_call Hfinal. inv_deref H as final_op Hop.
  apply bind_inv in H. destruct H as ([clip_call requantize_call] & s' & Hclip & H).
  assert (Hc : (if String.eqb final_op "clip"
                then obind (arg_as_CallNode final_call 0) (fun r => Some (Some final_call, r))
                else Some (None, final_call)) = Some (clip_call, requantize_call)
               /\ s' = s).
  { destruct (String.eqb final_op "clip").
    - inv_deref Hclip as r Hr. rewrite Hr. injection Hclip as <- <- <-. auto.
    - injection Hclip as <- <- <-. auto. }
  destruct Hc as [Hc ->]. clear Hclip.
  inv_deref H as requantize_input Hri. inv_deref H as requantize_input_op Hrio.
  apply bind_inv in H. destruct H as ([bias_add_call conv2d_call] & s' & Hbias & H).
  assert (Hb : (if String.eqb requantize_input_op "nn.bias_add"
                then obind (arg_as_CallNode requantize_input 0)
                           (fun c => Some (Some requantize_input, c))
                else Some (None, requantize_input)) = Some (bias_add_call, conv2d_call)
               /\ s' = s).
  { destruct (String.eqb requantize_input_op "nn.bias_add").
    - inv_deref Hbias as r Hr. rewrite Hr. injection Hbias as <- <- <-. auto.
    - injection Hbias as <- <- <-. auto. }
  destruct Hb as [Hb ->]. clear Hbias.
  apply bind_inv in H. destruct H as ([[strides padding] dilation] & s' & Hattrs & H).
  apply deref_inv in Hattrs. destruct Hattrs as [_ ->].
  inv_deref H as izp Hizp. inv_deref H as ozp Hozp.
  inv_deref H as sw Hsw. inv_deref H as sh Hsh.
  inv_deref H as pw Hpw. inv_deref H as ph Hph.
  inv_deref H as dw Hdw. inv_deref H as dh Hdh.
  apply bind_inv in H. destruct H as ([clip_min clip_max] & s' & Hbounds & H).
  assert (s' = s) as ->.
  { destruct clip_call.
    - apply bind_inv in Hbounds. destruct Hbounds as ([lo hi] & s'' & Hlh & Hbounds).
      apply deref_inv in Hlh. destruct Hlh as [_ ->]. now injection Hbounds.
    - now injection Hbounds. }
  clear Hbounds.
  inv_deref H as input_shape Hin. inv_deref H as input_dims Hind.
  apply CMSISNNDimensions_immediates in Hind. destruct Hind as (input & -> & Hli & ->).
  inv_deref H as filter_shape Hfi. inv_deref H as filter_dims Hfid.
  apply CMSISNNDimensions_immediates in Hfid. destruct Hfid as (filter & -> & Hlf & ->).
  inv_deref H as oc Hoc.
  inv_deref H as bdims Hbd.
  inv_deref H as output_shape Hout. inv_deref H as output_dims Houtd.
  apply CMSISNNDimensions_immediates in Houtd. destruct Houtd as (output & -> & Hlo & ->).
  inv_deref H as ic Hic. inv_deref H as fw Hfw. inv_deref H as fh Hfh.
  match type of H with context [UInt64.wrap ?z] => set (size := UInt64.wrap z) in * end.
  apply bind_inv in H. destruct H as (name & s' & Hname & H).
  exists clip_call, requantize_call, bias_add_call, conv2d_call, input, filter, output, size.
  exists [Int32.neg izp; ozp; sw; sh; pw; ph; dw; dh; clip_min; clip_max].
  split.
  { unfold decompose_conv2d. rewrite Hfinal. cbn [obind]. rewrite Hop. cbn [obind].
    rewrite Hc. cbn [obind]. rewrite Hri. cbn [obind]. rewrite Hrio. cbn [obind].
    rewrite Hb. reflexivity. }
  split; [exact Hin|]. split; [exact Hfi|]. split; [exact Hout|].
  split; [exact Hli|]. split; [exact Hlf|]. split; [exact Hlo|]. split; [reflexivity|].
  destruct filter as [|[tf0 f0] filter']; [discriminate Hlf|].
  cbn in Hoc. injection Hoc as <-. cbn in Hbd. injection Hbd as <-.
  cbn [map snd nth].
  unfold conv_unit_state, conv_unit_body_of, CreatePrimFuncForExtern, ir_module_Add,
    registered, with_scratch, extern_call, conv_args, conv_tensor_args, conv_parameters in *.
  rewrite !map_app. cbn [map].
  destruct (size =? 0).
  - injection Hname as <- <-.
    destruct bias_add_call; cbn -[ToArg Int32.wrap Z.eqb map] in H |- *;
      destruct (Int32.wrap size =? 0); injection H as <-;
      rewrite <- ?app_assoc; reflexivity.
  - apply bind_inv in Hname. destruct Hname as (id & s'' & Hid & Hname).
    injection Hid as <- <-. injection Hname as <- <-.
    destruct bias_add_call;
      cbn -[ToArg Int32.wrap Z.eqb String.append to_string map] in H |- *;
      destruct (Int32.wrap size =? 0); injection H as <-;
      rewrite <- ?app_assoc; reflexivity.
Qed.

(** X17: [EmitConv2D] accepts a composite only when the input and the
    filter of its conv2d call and the type of that call have shapes of
    exactly four integer immediates; any other rank and any dynamic
    dimension is a fatal error. The sixteen dimension values that end
    the argument list are then the input shape, the filter shape,
    [(1, 1, 1, output channels)] with the output channels read from the
    first filter dimension, and the output shape, in this order. *)
Theorem EmitConv2D_accepts_static_rank_4 (target_ : tir.Target)
    (gv : relay.GlobalVarNode) (expr : relay.Expr) (s s1 : PassState) :
  EmitConv2D target_ gv expr s = Some (tt, s1) ->
  exists (clip_call : option relay.CallNode) (requantize_call : relay.CallNode)
         (bias_add_call : option relay.CallNode) (conv2d_call : relay.CallNode)
         (input filter output : list (tir.DataType * Z))
         (unit : tir.PrimFunc) (args : list tir.PrimExpr),
    decompose_conv2d expr = Some (clip_call, requantize_call, bias_add_call, conv2d_call)
    /\ arg_shape conv2d_call 0 = Some (immediates input)
    /\ arg_shape conv2d_call 1 = Some (immediates filter)
    /\ relay.shape_of_type (relay.call_type conv2d_call) = Some (immediates output)
    /\ List.length input = 4%nat /\ List.length filter = 4%nat
    /\ List.length output = 4%nat
    /\ ir_module_ s1 = ir_module_ s ++ [(relay.name_hint gv, PrimFunc unit)]
    /\ tir.stmt_extern_calls (tir.body unit) = [args]
    /\ skipn (List.length args - 16) args
       = map ToArg (map snd input ++ map snd filter
                      ++ [1; 1; 1; nth 0 (map snd filter) 0] ++ map snd output).
Proof.
  intros H. apply EmitConv2D_accepted in H.
  destruct H as (clip_call & requantize_call & bias_add_call & conv2d_call & H).
  destruct H as (input & filter & output & size & scalars & H).
  destruct H as (Hd & Hi & Hf & Ho & Hli & Hlf & Hlo & Hls & ->).
  exists clip_call, requantize_call, bias_add_call, conv2d_call, input, filter, output.
  eexists. eexists.
  split; [exact Hd|]. split; [exact Hi|]. split; [exact Hf|]. split; [exact Ho|].
  split; [exact Hli|]. split; [exact Hlf|]. split; [exact Hlo|].
  split; [apply registered_module|].
  cbn [tir.body].
  split; [apply conv_unit_body_of_call|].
  set (dims := map snd input ++ _).
  assert (Hdims : List.length dims = 16%nat).
  { unfold dims. rewrite !length_app, !length_map, Hli, Hlf, Hlo. reflexivity. }
  unfold conv_args.
  match goal with |- skipn _ (?a :: ?t ++ ?b ++ ?c ++ ?d) = _ =>
    replace (a :: t ++ b ++ c ++ d) with ((a :: t ++ b ++ c) ++ d)
      by (cbn [app]; rewrite <- !app_assoc; reflexivity)
  end.
  apply skipn_tail. rewrite length_map. exact Hdims.
Qed.

(* ================================================================== *)
(** ** The further properties at the sample inputs *)

(** The softmax sample: the unit registered as ["f"] carries that name,
    the target and the no-alias flag. *)
Lemma Emit_unit_attributes_witness :
  exists (s1 : PassState) (unit : tir.PrimFunc),
    EmitSoftMax cmsis_nn_target FixedPointMultiplierShift example_global_var
                (softmax_pattern softmax_example) empty_state = Some (tt, s1)
    /\ ir_module_ s1 = [("f", PrimFunc unit)]
    /\ tir.global_symbol (tir.attrs unit) = "f"
    /\ tir.target (tir.attrs unit) = cmsis_nn_target
    /\ tir.noalias (tir.attrs unit) = true.
Proof.
  destruct (EmitSoftMax cmsis_nn_target FixedPointMultiplierShift example_global_var
              (softmax_pattern softmax_example) empty_state) as [[[] s1]|] eqn:E;
    [|vm_compute in E; discriminate E].
  destruct (Emit_unit_attributes cmsis_nn_target FixedPointMultiplierShift example_global_var
              (softmax_pattern softmax_example) empty_state s1 (or_introl E))
    as (unit & Hm & Hattrs).
  exists s1, unit. split; [reflexivity|]. split; [exact Hm | exact Hattrs].
Defined.

(** The elementwise sample under the composite name of the add: one
    unit is registered. *)
Lemma EmitComposite_at_most_one_unit_witness :
  exists (s1 : PassState),
    EmitComposite cmsis_nn_target FixedPointMultiplierShift (Some "cmsis-nn.qnn_add")
                  example_global_var (binary_pattern "qnn.add" binary_example) empty_state
    = Some (tt, s1)
    /\ ((exists (name : string) (unit : tir.PrimFunc),
            Some "cmsis-nn.qnn_add" = Some name
            /\ In name known_composites
            /\ ir_module_ s1 = ir_module_ empty_state ++ [("f", PrimFunc unit)])
        \/ ((forall name, In name known_composites -> Some "cmsis-nn.qnn_add" <> Some name)
            /\ s1 = empty_state)).
Proof.
  destruct (EmitComposite cmsis_nn_target FixedPointMultiplierShift (Some "cmsis-nn.qnn_add")
              example_global_var (binary_pattern "qnn.add" binary_example) empty_state)
    as [[[] s1]|] eqn:E; [|vm_compute in E; discriminate E].
  exists s1. split; [reflexivity|].
  exact (EmitComposite_at_most_one_unit _ _ _ _ _ _ _ E).
Defined.

(** The call site of the convolution sample: it is rewritten into a
    call to ["f"] with its one argument. *)
Lemma Rewrite_tagged_call_site_witness :
  exists (r : relay.Expr) (s2 : PassState) (call : relay.CallNode) (symbol : string)
         (cty : relay.Ty) (args' : list relay.Expr),
    Rewrite_ cmsis_nn_target FixedPointMultiplierShift example_visit example_pre
             example_call_site empty_state = Some (r, s2)
    /\ relay.as_CallNode example_call_site = Some call
    /\ r = relay.Call (relay.GlobalVar (relay.mkGlobalVar symbol (Some cty))) args'
                      (relay.attrs call) (relay.type_args call) (relay.span call) None
    /\ List.length args' = List.length (relay.args call).
Proof.
  destruct (Rewrite_ cmsis_nn_target FixedPointMultiplierShift example_visit example_pre
              example_call_site empty_state) as [[r s2]|] eqn:E;
    [|vm_compute in E; discriminate E].
  destruct (Rewrite_tagged_call_site _ _ _ _ _ _ _ _ (eq_refl : is_cmsisnn_call example_call_site = true) E)
    as (call & inner & func & composite & symbol & cty & args' & H).
  destruct H as (Hc & _ & _ & _ & _ & _ & Hr & Hl).
  exists r, s2, call, symbol, cty, args'.
  split; [reflexivity|]. split; [exact Hc|]. split; [exact Hr | exact Hl].
Defined.

(** The same call site: what it is rewritten into is handed back
    unchanged by a second rewrite. *)
Lemma Rewrite_result_is_final_witness :
  exists (r : relay.Expr) (s2 : PassState),
    Rewrite_ cmsis_nn_target FixedPointMultiplierShift example_visit example_pre
             example_call_site empty_state = Some (r, s2)
    /\ is_cmsisnn_call r = false
    /\ Rewrite_ cmsis_nn_target FixedPointMultiplierShift example_visit example_pre r s2
       = Some (r, s2).
Proof.
  destruct (Rewrite_ cmsis_nn_target FixedPointMultiplierShift example_visit example_pre
              example_call_site empty_state) as [[r s2]|] eqn:E;
    [|vm_compute in E; discriminate E].
  exists r, s2. split; [reflexivity|].
  exact (Rewrite_result_is_final _ _ _ _ example_pre _ _ _ _ E).
Defined.

(** The same call site under the traversal of the pass: the module
    grows by units only. *)
Lemma Rewrite_module_only_grows_witness :
  exists (r : relay.Expr) (s2 : PassState) (added : IRModule),
    Rewrite_ cmsis_nn_target FixedPointMultiplierShift example_visit example_pre
             example_call_site empty_state = Some (r, s2)
    /\ ir_module_ s2 = ir_module_ empty_state ++ added
    /\ forall entry, In entry added -> exists unit, snd entry = PrimFunc unit.
Proof.
  destruct (Rewrite_ cmsis_nn_target FixedPointMultiplierShift example_visit example_pre
              example_call_site empty_state) as [[r s2]|] eqn:E;
    [|vm_compute in E; discriminate E].
  destruct (Rewrite_module_only_grows _ _ _ _ _ _ _ _
              (VisitExpr_only_adds_units cmsis_nn_target FixedPointMultiplierShift 8) E)
    as (added & Hm & Hu).
  exists r, s2, added. split; [reflexivity|]. split; [exact Hm | exact Hu].
Defined.

(** The call to a primitive operator is visited without effect, and
    so is a module whose ["main"] has it as its body. *)
Lemma VisitExpr_without_tagged_call_site_witness :
  VisitExpr cmsis_nn_target FixedPointMultiplierShift 8 example_plain_call empty_state
  = Some (example_plain_call, empty_state)
  /\ RelayToTIR (VisitExpr cmsis_nn_target FixedPointMultiplierShift 8)
                [("main", RelayFunc example_helper)]
     = Some [("main", RelayFunc example_helper)].
Proof.
  destruct (VisitExpr_without_tagged_call_site cmsis_nn_target FixedPointMultiplierShift 8
              example_plain_call empty_state) as [Hv Hm].
  { reflexivity. }
  { cbn. lia. }
  split; [exact Hv|].
  exact (Hm [("main", RelayFunc example_helper)] [example_argument] None []
            (relay.mkFuncAttrs None None None) None None eq_refl).
Defined.

(** The sample module: ["helper"] is bound to the same function after
    the pass. *)
Lemma RelayToTIR_keeps_other_functions_witness :
  exists m' : IRModule,
    RelayToTIR (VisitExpr cmsis_nn_target FixedPointMultiplierShift 12) example_module
    = Some m'
    /\ IRModule_Lookup m' "helper" = Some (RelayFunc example_helper).
Proof.
  destruct (RelayToTIR (VisitExpr cmsis_nn_target FixedPointMultiplierShift 12)
              example_module) as [m'|] eqn:E; [|vm_compute in E; discriminate E].
  exists m'. split; [reflexivity|].
  apply (RelayToTIR_keeps_other_functions
           (VisitExpr cmsis_nn_target FixedPointMultiplierShift 12) example_module m'
           "helper" (RelayFunc example_helper)
           (VisitExpr_only_adds_units cmsis_nn_target FixedPointMultiplierShift 12) E).
  - discriminate.
  - reflexivity.
Defined.

(** The convolution sample: the buffer handed to the kernel is the
    buffer allocated, and the counter moves from 0 to 1. *)
Lemma EmitConv2D_scratch_consistent_witness :
  exists (s1 : PassState) (unit : tir.PrimFunc) (args : list tir.PrimExpr)
         (name : string) (size : Z),
    EmitConv2D cmsis_nn_target example_global_var (conv2d_pattern conv_example) empty_state
    = Some (tt, s1)
    /\ ir_module_ s1 = [("f", PrimFunc unit)]
    /\ tir.stmt_extern_calls (tir.body unit) = [args]
    /\ buffer_args args = [tir.StringImm name; tir.IntImm (tir.Int 32) size]
    /\ (size <> 0 ->
        tir.allocations (tir.body unit)
        = [(scratch_var name, tir.Int 8, [tir.IntImm (tir.Int 32) size])]
        /\ name = context_buffer_name 0)
    /\ (name <> "NULL" -> context_buffer_id_ s1 = 1).
Proof.
  destruct (EmitConv2D cmsis_nn_target example_global_var (conv2d_pattern conv_example)
              empty_state) as [[[] s1]|] eqn:E; [|vm_compute in E; discriminate E].
  destruct (EmitConv2D_scratch_consistent _ _ _ _ _ E)
    as (unit & args & name & size & Hm & Hc & Hb & _ & _ & Hsize & _ & Hname).
  exists s1, unit, args, name, size.
  split; [reflexivity|]. split; [exact Hm|]. split; [exact Hc|]. split; [exact Hb|].
  split; [exact Hsize|].
  intros Hn. destruct (Hname Hn) as (_ & Hid & _). exact Hid.
Defined.

(** The convolution sample lowered twice: the two units allocate
    different variables. *)
Lemma EmitConv2D_consecutive_scratch_buffers_witness :
  exists (s1 s2 : PassState) (unit1 unit2 : tir.PrimFunc),
    EmitConv2D cmsis_nn_target example_global_var (conv2d_pattern conv_example) empty_state
    = Some (tt, s1)
    /\ EmitConv2D cmsis_nn_target (relay.mkGlobalVar "g" None) (conv2d_pattern conv_example) s1
       = Some (tt, s2)
    /\ ir_module_ s2 = [("f", PrimFunc unit1); ("g", PrimFunc unit2)]
    /\ forall v, In v (allocated_vars (tir.body unit1)) ->
                 ~ In v (allocated_vars (tir.body unit2)).
Proof.
  destruct (EmitConv2D cmsis_nn_target example_global_var (conv2d_pattern conv_example)
              empty_state) as [[[] s1]|] eqn:E1; [|vm_compute in E1; discriminate E1].
  destruct (EmitConv2D cmsis_nn_target (relay.mkGlobalVar "g" None)
              (conv2d_pattern conv_example) s1) as [[[] s2]|] eqn:E2.
  - destruct (EmitConv2D_consecutive_scratch_buffers _ _ _ _ _ _ _ _ E1 E2)
      as (unit1 & unit2 & Hm & Hv).
    exists s1, s2, unit1, unit2.
    split; [reflexivity|]. split; [exact E2|]. split; [exact Hm | exact Hv].
  - rewrite EmitConv2D_pattern in E2. discriminate E2.
Defined.

(** The convolution of 1024 input channels under a filter of 1024 by
    1024: the byte count is [2^32], the kernel is handed
    ["context_buffer_0"] with size 0 and nothing is allocated. *)
Lemma EmitConv2D_scratch_size_beyond_int_witness :
  exists (s1 : PassState) (unit : tir.PrimFunc) (args : list tir.PrimExpr),
    EmitConv2D cmsis_nn_target example_global_var (conv2d_pattern conv_huge_example)
               empty_state = Some (tt, s1)
    /\ tir.stmt_extern_calls (tir.body unit) = [args]
    /\ buffer_args args = [tir.StringImm "context_buffer_0"; tir.IntImm (tir.Int 32) 0]
    /\ tir.allocations (tir.body unit) = []
    /\ context_buffer_id_ s1 = 1.
Proof.
  destruct (EmitConv2D_scratch_size_beyond_int cmsis_nn_target conv_huge_example
              example_global_var empty_state)
    as (s1 & unit & args & He & _ & Hc & Hb & Ha & Hid).
  { reflexivity. }
  { vm_compute. discriminate. }
  exists s1, unit, args.
  split; [exact He|]. split; [exact Hc|]. split; [exact Hb|]. split; [exact Ha | exact Hid].
Defined.

(** The softmax sample over shape [(1,4,4,10)]: 16 rows of size 10. *)
Lemma EmitSoftMax_accepts_witness :
  exists (s1 : PassState) (quantize_call : relay.CallNode)
         (leading : list (tir.DataType * Z)) (last : tir.DataType * Z)
         (unit : tir.PrimFunc) (args : list tir.PrimExpr),
    EmitSoftMax cmsis_nn_target FixedPointMultiplierShift example_global_var
                (softmax_pattern softmax_example) empty_state = Some (tt, s1)
    /\ relay.as_CallNode (softmax_pattern softmax_example) = Some quantize_call
    /\ relay.shape_of_type (relay.call_type quantize_call)
       = Some (immediates (leading ++ [last]))
    /\ tir.stmt_extern_calls (tir.body unit) = [args]
    /\ nth_error args 2 = Some (ToArg (product (map snd leading)))
    /\ nth_error args 3 = Some (ToArg (snd last)).
Proof.
  destruct (EmitSoftMax cmsis_nn_target FixedPointMultiplierShift example_global_var
              (softmax_pattern softmax_example) empty_state) as [[[] s1]|] eqn:E;
    [|vm_compute in E; discriminate E].
  destruct (EmitSoftMax_accepts _ _ _ _ _ _ E)
    as (q & leading & last & unit & args & Hq & Hs & _ & Hc & H2 & H3).
  exists s1, q, leading, last, unit, args.
  split; [reflexivity|]. split; [exact Hq|]. split; [exact Hs|]. split; [exact Hc|].
  split; [exact H2 | exact H3].
Defined.

(** The add with seven operands: both emitters stop. *)
Lemma EmitMul_EmitAdd_reject_malformed_witness :
  has_binary_operands binary_short_example = false
  /\ EmitMul cmsis_nn_target FixedPointMultiplierShift example_global_var
             binary_short_example empty_state = None
  /\ EmitAdd cmsis_nn_target FixedPointMultiplierShift example_global_var
             binary_short_example empty_state = None.
Proof.
  split; [reflexivity|].
  exact (proj1 (EmitMul_EmitAdd_reject_malformed cmsis_nn_target FixedPointMultiplierShift
                  example_global_var binary_short_example empty_state) eq_refl).
Defined.

(** The convolution sample: the three shapes are of rank 4 and the
    argument list ends with their sixteen values. *)
Lemma EmitConv2D_accepts_static_rank_4_witness :
  exists (s1 : PassState) (conv2d_call : relay.CallNode)
         (input filter output : list (tir.DataType * Z))
         (unit : tir.PrimFunc) (args : list tir.PrimExpr),
    EmitConv2D cmsis_nn_target example_global_var (conv2d_pattern conv_example) empty_state
    = Some (tt, s1)
    /\ arg_shape conv2d_call 0 = Some (immediates input)
    /\ arg_shape conv2d_call 1 = Some (immediates filter)
    /\ relay.shape_of_type (relay.call_type conv2d_call) = Some (immediates output)
    /\ List.length input = 4%nat /\ List.length filter = 4%nat
    /\ List.length output = 4%nat
    /\ tir.stmt_extern_calls (tir.body unit) = [args]
    /\ skipn (List.length args - 16) args
       = map ToArg (map snd input ++ map snd filter
                      ++ [1; 1; 1; nth 0 (map snd filter) 0] ++ map snd output).
Proof.
  destruct (EmitConv2D cmsis_nn_target example_global_var (conv2d_pattern conv_example)
              empty_state) as [[[] s1]|] eqn:E; [|vm_compute in E; discriminate E].
  destruct (EmitConv2D_accepts_static_rank_4 _ _ _ _ _ E)
    as (clip & requant & bias & conv & input & filter & output & unit & args & H).
  destruct H as (_ & Hi & Hf & Ho & Hli & Hlf & Hlo & _ & Hc & Hd).
  exists s1, conv, input, filter, output, unit, args.
  split; [reflexivity|]. split; [exact Hi|]. split; [exact Hf|]. split; [exact Ho|].
  split; [exact Hli|]. split; [exact Hlf|]. split; [exact Hlo|].
  split; [exact Hc | exact Hd].
Defined.

(** The sample module: the pass appends the convolution unit ["f"] and
    binds ["main"] to a function that calls the global variable ["f"]. *)
Lemma RelayToTIR_lowers_conv2d_call_site_witness :
  exists (unit : tir.PrimFunc) (m' : IRModule),
    RelayToTIR (VisitExpr cmsis_nn_target FixedPointMultiplierShift 12) example_module
    = Some m'
    /\ m' = [("helper", RelayFunc example_helper);
             ("main",
              RelayFunc
                (relay.Function [example_argument]
                   (relay.Call (relay.GlobalVar (relay.mkGlobalVar "f" (Some example_type)))
                               [example_argument] relay.NullAttrs [] None None)
                   None [] (relay.mkFuncAttrs None None None) None None));
             ("f", PrimFunc unit)]
    /\ IRModule_Lookup m' "f" = Some (PrimFunc unit).
Proof.
  destruct (RelayToTIR_lowers_conv2d_call_site cmsis_nn_target FixedPointMultiplierShift 12
              conv_example "f" example_type [example_argument] [example_argument]
              example_module None [] (relay.mkFuncAttrs None None None) None None)
    as (s1 & unit & m' & _ & _ & Hpass & Hm & Hlookup).
  { reflexivity. }
  { reflexivity. }
  { cbn. lia. }
  exists unit, m'.
  split; [exact Hpass|]. split; [rewrite Hm; reflexivity|].
  apply Hlookup; [discriminate | reflexivity].
Defined.
